(** * Expedia-Website: the reservation composition and adapter layer

    A shallow embedding of the flight and hotel adapters (Airports.cpp,
    Hotels.cpp), the Itinerary composite (Itinerary.cpp), the reservation
    workflow (Make_Reservation.cpp, Itinerary_Builder.cpp) and the users
    (User.cpp, User_Manager.cpp), over an explicit object store.

    Every C++ object lives in a cell of the store; a [std::unique_ptr<T>] is
    an optional location ([None] is [nullptr]); a [double] is a binary64
    float; an [int] is an integer with 32-bit wrap-around on addition. *)

From Stdlib Require Import ZArith String List Floats Uint63 Lia.
From stdpp Require Import gmap.
Import ListNotations.
Local Open Scope Z_scope.

(** ** Numbers *)

(** [double]: IEEE-754 binary64, the kernel's primitive floats. *)
Definition double : Set := float.

Definition INT_MIN : Z := - 2 ^ 31.
Definition INT_MAX : Z := 2 ^ 31 - 1.

(** The values an [int] can hold. *)
Definition is_int (z : Z) : Prop := INT_MIN <= z <= INT_MAX.

(** 32-bit two's complement wrap-around. *)
Definition int_wrap (z : Z) : Z := (z + 2 ^ 31) mod 2 ^ 32 - 2 ^ 31.

(** [a + b] on [int]. *)
Definition int_add (a b : Z) : Z := int_wrap (a + b).

(** The implicit conversion [int -> double] (exact on 32-bit values). *)
Definition double_of_int (z : Z) : double :=
  if z <? 0 then (- of_uint63 (Uint63.of_Z (- z)))%float
  else of_uint63 (Uint63.of_Z z).

(** [(int) v.size()] for a vector whose size fits an [int]. *)
Definition int_of_size {A : Type} (v : list A) : Z := Z.of_nat (length v).

(** A line feed, for the string literals that end in "\n". *)
Definition LF : string := String (Ascii.ascii_of_nat 10) EmptyString.
(** A horizontal tab. *)
Definition TAB : string := String (Ascii.ascii_of_nat 9) EmptyString.

(** ** Vendor records (Airport_APIs.hpp, Hotel_APIs.hpp) *)

Module AirCanadaCustomerInfo.
Record t : Type := mk {
  from : string;
  to : string;
  date_time_from : string;
  date_time_to : string;
  adults : Z;
  children : Z;
  infants : Z }.
Definition default : t := mk "" "" "" "" 0 0 0.
End AirCanadaCustomerInfo.

Module AirCanadaFlight.
Record t : Type := mk {
  price : double;
  date_time_from : string;
  date_time_to : string }.
Definition default : t := mk 0%float "" "".
End AirCanadaFlight.

Module TurkishCustomerInfo.
Record t : Type := mk {
  from : string;
  to : string;
  datetime_from : string;
  datetime_to : string;
  adults : Z;
  children : Z;
  infants : Z }.
Definition default : t := mk "" "" "" "" 0 0 0.
End TurkishCustomerInfo.

Module TurkishFlight.
Record t : Type := mk {
  cost : double;
  datetime_from : string;
  datetime_to : string }.
Definition default : t := mk 0%float "" "".
End TurkishFlight.

Module HiltonCustomerInfo.
Record t : Type := mk {
  country : string;
  city : string;
  date_from : string;
  date_to : string;
  needed_rooms : Z;
  adults : Z;
  children : Z;
  number_of_nights : Z }.
Definition default : t := mk "" "" "" "" 0 0 0 0.
End HiltonCustomerInfo.

Module HiltonRoom.
Record t : Type := mk {
  room_type : string;
  available_number : Z;
  price_per_night : double;
  from_date : string;
  to_date : string }.
Definition default : t := mk "" 0 0%float "" "".
End HiltonRoom.

Module MarriottFoundRoom.
Record t : Type := mk {
  room_type : string;
  available_number : Z;
  price_per_night : double;
  date_from : string;
  date_to : string }.
Definition default : t := mk "" 0 0%float "" "".
End MarriottFoundRoom.

Module MarriottCustomerInfo.
Record t : Type := mk {
  country : string;
  city : string;
  date_from : string;
  date_to : string;
  needed_rooms : Z;
  adults : Z;
  children : Z;
  number_of_nights : Z }.
Definition default : t := mk "" "" "" "" 0 0 0 0.
End MarriottCustomerInfo.

(** ** Normalized records (Flight_Reservation_Info.hpp,
    Hotel_Reservation_Info.hpp) *)

Module FoundFlightInfo.
Record t : Type := mk {
  airline : string;
  price : double;
  from_date : string;
  to_date : string }.
Definition default : t := mk "" 0%float "" "".
End FoundFlightInfo.

Module PassengerInfo.
Record t : Type := mk {
  from_date : string;
  to_date : string;
  from : string;
  to : string;
  children : Z;
  adults : Z;
  infants : Z }.
Definition default : t := mk "" "" "" "" 0 0 0.
End PassengerInfo.

Module FoundRoomInfo.
Record t : Type := mk {
  hotel : string;
  from_date : string;
  to_date : string;
  view_type : string;
  how_many : Z;
  price_for_night : double }.
Definition default : t := mk "" "" "" "" 0 0%float.
End FoundRoomInfo.

Module CustomerInfo.
Record t : Type := mk {
  from_date : string;
  to_date : string;
  country : string;
  city : string;
  children : Z;
  adults : Z;
  needed_rooms : Z;
  number_of_nights : Z }.
Definition default : t := mk "" "" "" "" 0 0 0 0.
End CustomerInfo.

(** ** Vendor stubs (Airport_APIs.cpp, Hotel_APIs.cpp) *)

Module AirCanadaOnlineAPI.
Definition getFlights : list AirCanadaFlight.t :=
  [ AirCanadaFlight.mk 200%float "25-01-2022" "10-02-2022";
    AirCanadaFlight.mk 250%float "29-01-2022" "10-02-2022" ].
Definition reserveFlight (flight : AirCanadaFlight.t)
  (info : AirCanadaCustomerInfo.t) : bool := true.
Definition cancelReserveFlight (flight : AirCanadaFlight.t)
  (info : AirCanadaCustomerInfo.t) : bool := false.
End AirCanadaOnlineAPI.

Module TurkishAirlineOnlineAPI.
Definition getAvailableFlights : list TurkishFlight.t :=
  [ TurkishFlight.mk 200%float "25-01-2022" "10-02-2022";
    TurkishFlight.mk 250%float "29-01-2022" "10-02-2022" ].
Definition reserveFlight (info : TurkishCustomerInfo.t)
  (flight : TurkishFlight.t) : bool := true.
Definition cancelReservedFlight (info : TurkishCustomerInfo.t)
  (flight : TurkishFlight.t) : bool := false.
End TurkishAirlineOnlineAPI.

Module HiltonHotelAPI.
Definition searchRooms (customer_info : HiltonCustomerInfo.t)
  : list HiltonRoom.t :=
  [ HiltonRoom.mk "Interior View" 6 200%float "29-01-2022" "10-02-2022";
    HiltonRoom.mk "City View" 3 300%float "29-01-2022" "10-02-2022";
    HiltonRoom.mk "Deluxe View" 8 500%float "29-01-2022" "10-02-2022" ].
Definition reserveRoom (customer_info : HiltonCustomerInfo.t)
  (room_info : HiltonRoom.t) : bool := true.
Definition cancelReservation (customer_info : HiltonCustomerInfo.t)
  (room_info : HiltonRoom.t) : bool := true.
End HiltonHotelAPI.

Module MarriottHotelAPI.
Definition findRooms (customer_info : MarriottCustomerInfo.t)
  : list MarriottFoundRoom.t :=
  [ MarriottFoundRoom.mk "City View" 8 320%float "29-01-2022" "10-02-2022";
    MarriottFoundRoom.mk "Interior View" 8 220%float "29-01-2022" "10-02-2022";
    MarriottFoundRoom.mk "Private View" 5 600%float "29-01-2022" "10-02-2022" ].
Definition reserveRoom (room_info : MarriottFoundRoom.t)
  (customer_info : MarriottCustomerInfo.t) : bool := true.
Definition cancelReservation (room_info : MarriottFoundRoom.t)
  (customer_info : MarriottCustomerInfo.t) : bool := true.
End MarriottHotelAPI.

(** ** The object store *)

(** Addresses of objects. *)
Definition loc : Set := positive.

(** [std::unique_ptr<T>]: the address of the owned object, or [nullptr]. *)
Definition ptr : Set := option loc.

(** The objects of the program. An adapter holds two owning pointers to its
    vendor-shaped records; an Itinerary holds its vector of owning pointers;
    MakeReservation holds its registered adapters and its four working
    records. *)
Inductive obj : Type :=
| VAirCanadaCustomerInfo (v : AirCanadaCustomerInfo.t)
| VAirCanadaFlight (v : AirCanadaFlight.t)
| VTurkishCustomerInfo (v : TurkishCustomerInfo.t)
| VTurkishFlight (v : TurkishFlight.t)
| VHiltonCustomerInfo (v : HiltonCustomerInfo.t)
| VHiltonRoom (v : HiltonRoom.t)
| VMarriottCustomerInfo (v : MarriottCustomerInfo.t)
| VMarriottFoundRoom (v : MarriottFoundRoom.t)
| VPassengerInfo (v : PassengerInfo.t)
| VFoundFlightInfo (v : FoundFlightInfo.t)
| VCustomerInfo (v : CustomerInfo.t)
| VFoundRoomInfo (v : FoundRoomInfo.t)
| OCanadaFlightReservation (canada_customer_info canada_chosen_flight : ptr)
| OTurkishFlightReservation (turkish_customer_info turkish_chosen_flight : ptr)
| OHiltonHotelReservation (hilton_customer_info hilton_chosen_room : ptr)
| OMarriottHotelReservation (marriott_customer_info marriott_chosen_room : ptr)
| OItinerary (Reservations : list ptr)
| OMakeReservation (Airports Hotels : list ptr)
    (passenger_info customer_info chosen_flight chosen_room : ptr).

Abbreviation heap := (gmap loc obj).

(** What a run of a member function yields: a value, undefined behaviour
    (a null or dangling pointer dereferenced, a vector indexed out of range),
    or the recursion bound of the model reached. *)
Inductive result (A : Type) : Type :=
| Val (a : A)
| Undefined
| OutOfFuel.
Arguments Val {A} a.
Arguments Undefined {A}.
Arguments OutOfFuel {A}.

(** Const member functions read the store. *)
Definition R (A : Type) : Type := heap -> result A.
(** The others also change it. *)
Definition M (A : Type) : Type := heap -> result (A * heap).

Definition rbind {A B : Type} (r : result A) (k : A -> result B) : result B :=
  match r with
  | Val a => k a
  | Undefined => Undefined
  | OutOfFuel => OutOfFuel
  end.

Definition ret {A : Type} (a : A) : M A := fun h => Val (a, h).
Definition bind {A B : Type} (m : M A) (k : A -> M B) : M B :=
  fun h => rbind (m h) (fun ah => k (fst ah) (snd ah)).
Definition undefined {A : Type} : M A := fun _ => Undefined.
(** A const call inside a mutating function. *)
Definition read {A : Type} (r : R A) : M A :=
  fun h => rbind (r h) (fun a => Val (a, h)).
(** A computation that does not touch the store. *)
Definition lift {A : Type} (r : result A) : M A :=
  fun h => rbind r (fun a => Val (a, h)).

Declare Scope cpp_scope.
Delimit Scope cpp_scope with cpp.
Notation "'let*' x := m 'in' k" := (bind m (fun x => k))
  (at level 10, x name, m at level 100, k at level 200) : cpp_scope.
Notation "m ;; k" := (bind m (fun _ => k))
  (at level 100, k at level 200, right associativity) : cpp_scope.
Notation "'let?' x := r 'in' k" := (rbind r (fun x => k))
  (at level 10, x name, r at level 100, k at level 200) : cpp_scope.
Local Open Scope cpp_scope.

(** [new T(...)]: a cell at an address not in use. *)
Definition new (o : obj) : M loc :=
  fun h => let l := fresh (dom h) in Val (l, <[l := o]> h).

(** [delete p]. *)
Definition free (l : loc) : M unit :=
  fun h => match h !! l with
           | Some _ => Val (tt, delete l h)
           | None => Undefined
           end.

(** The destructor of a [unique_ptr] to a record without owned members. *)
Definition reset (p : ptr) : M unit :=
  match p with
  | Some l => free l
  | None => ret tt
  end.

(** [*l] read. *)
Definition load (l : loc) : R obj :=
  fun h => match h !! l with
           | Some o => Val o
           | None => Undefined
           end.

(** [*l = o]. *)
Definition store (l : loc) (o : obj) : M unit :=
  fun h => match h !! l with
           | Some _ => Val (tt, <[l := o]> h)
           | None => Undefined
           end.

(** Dereferences of typed pointers: [*p] with [p] a [unique_ptr<T>]; the
    projection [as_T] checks the dynamic type of the cell. *)
Definition deref {A : Type} (as_T : obj -> option A) (p : ptr) : R A :=
  fun h => match p with
           | Some l => match h !! l with
                       | Some o => match as_T o with
                                   | Some v => Val v
                                   | None => Undefined
                                   end
                       | None => Undefined
                       end
           | None => Undefined
           end.

(** [*p = v] with [p] a [unique_ptr<T>]. *)
Definition assign {A : Type} (as_T : obj -> option A) (mk_T : A -> obj)
  (p : ptr) (v : A) : M unit :=
  fun h => match p with
           | Some l => match h !! l with
                       | Some o => match as_T o with
                                   | Some _ => Val (tt, <[l := mk_T v]> h)
                                   | None => Undefined
                                   end
                       | None => Undefined
                       end
           | None => Undefined
           end.

Definition as_AirCanadaCustomerInfo (o : obj) :=
  match o with VAirCanadaCustomerInfo v => Some v | _ => None end.
Definition as_AirCanadaFlight (o : obj) :=
  match o with VAirCanadaFlight v => Some v | _ => None end.
Definition as_TurkishCustomerInfo (o : obj) :=
  match o with VTurkishCustomerInfo v => Some v | _ => None end.
Definition as_TurkishFlight (o : obj) :=
  match o with VTurkishFlight v => Some v | _ => None end.
Definition as_HiltonCustomerInfo (o : obj) :=
  match o with VHiltonCustomerInfo v => Some v | _ => None end.
Definition as_HiltonRoom (o : obj) :=
  match o with VHiltonRoom v => Some v | _ => None end.
Definition as_MarriottCustomerInfo (o : obj) :=
  match o with VMarriottCustomerInfo v => Some v | _ => None end.
Definition as_MarriottFoundRoom (o : obj) :=
  match o with VMarriottFoundRoom v => Some v | _ => None end.
Definition as_PassengerInfo (o : obj) :=
  match o with VPassengerInfo v => Some v | _ => None end.
Definition as_FoundFlightInfo (o : obj) :=
  match o with VFoundFlightInfo v => Some v | _ => None end.
Definition as_CustomerInfo (o : obj) :=
  match o with VCustomerInfo v => Some v | _ => None end.
Definition as_FoundRoomInfo (o : obj) :=
  match o with VFoundRoomInfo v => Some v | _ => None end.

(** ** Output streams *)

(** Which stream an insertion goes to: the parameter [get] of [getDetails],
    or the global [std::cout]. *)
Inductive sink : Set := to_get | to_cout.

(** One [operator<<] insertion, by the type of its operand. *)
Inductive item : Set :=
| Str (s : string)
| Int (z : Z)
| Dbl (d : double)
| Size (n : nat).

Abbreviation output := (list (sink * item)).

(** [get << a << b << ...] *)
Definition put (items : list item) : output := map (pair to_get) items.

(** ** Flight adapters (Airports.cpp) *)

(** The loop [for (i = 0; i < (int) available.size(); i++)
    out.push_back(tag(available[i]))] of the four adapters. *)
Fixpoint push_back_each {A B : Type} (tag : A -> B) (available : list A)
  (out : list B) : list B :=
  match available with
  | [] => out
  | x :: rest => push_back_each tag rest (out ++ [tag x])
  end.

Module CanadaFlightReservation.

(** The two members of [*this]. *)
Definition members (this : loc) : R (ptr * ptr) :=
  fun h => match h !! this with
           | Some (OCanadaFlightReservation ci cf) => Val (ci, cf)
           | _ => Undefined
           end.

(** [CanadaFlightReservation()]: both records allocated, default-valued. *)
Definition ctor (this : loc) : M unit :=
  let* ci := new (VAirCanadaCustomerInfo AirCanadaCustomerInfo.default) in
  let* cf := new (VAirCanadaFlight AirCanadaFlight.default) in
  store this (OCanadaFlightReservation (Some ci) (Some cf)).

Definition setCustomerInfo (this : loc) (info : ptr) : M unit :=
  let* m := read (members this) in
  let* i := read (deref as_PassengerInfo info) in
  assign as_AirCanadaCustomerInfo VAirCanadaCustomerInfo (fst m)
    (AirCanadaCustomerInfo.mk (PassengerInfo.from i) (PassengerInfo.to i)
       (PassengerInfo.from_date i) (PassengerInfo.to_date i)
       (PassengerInfo.adults i) (PassengerInfo.children i)
       (PassengerInfo.infants i)).

Definition setChosenFlight (this : loc) (info : ptr) : M unit :=
  let* m := read (members this) in
  let* i := read (deref as_FoundFlightInfo info) in
  assign as_AirCanadaFlight VAirCanadaFlight (snd m)
    (AirCanadaFlight.mk (FoundFlightInfo.price i)
       (FoundFlightInfo.from_date i) (FoundFlightInfo.to_date i)).

(** [CanadaFlightReservation(PassengerInfo_ptr&&, FlightInfo_ptr&&)]: the
    arguments are read through the references, never moved from. *)
Definition ctor2 (this : loc) (customer_info chosen_flight : ptr) : M unit :=
  ctor this ;;
  setCustomerInfo this customer_info ;;
  setChosenFlight this chosen_flight.

(** [CanadaFlightReservation(const CanadaFlightReservation&)]. *)
Definition copy_ctor (this other : loc) : M unit :=
  ctor this ;;
  let* m := read (members this) in
  let* o := read (members other) in
  let* ci := read (deref as_AirCanadaCustomerInfo (fst o)) in
  assign as_AirCanadaCustomerInfo VAirCanadaCustomerInfo (fst m) ci ;;
  let* cf := read (deref as_AirCanadaFlight (snd o)) in
  assign as_AirCanadaFlight VAirCanadaFlight (snd m) cf.

(** [CanadaFlightReservation(CanadaFlightReservation&&)]: each member is
    initialised by moving from itself, [canada_customer_info(std::move(
    canada_customer_info))], so it keeps whatever the storage of [*this]
    held before the constructor ran; [other] is not read. *)
Definition move_ctor (this other : loc) : M unit :=
  let* m := read (members this) in
  store this (OCanadaFlightReservation (fst m) (snd m)).

(** [operator=(const CanadaFlightReservation&)]. *)
Definition copy_assign (this other : loc) : M unit :=
  if Pos.eqb this other then ret tt
  else
    let* m := read (members this) in
    let* o := read (members other) in
    let* ci := read (deref as_AirCanadaCustomerInfo (fst o)) in
    assign as_AirCanadaCustomerInfo VAirCanadaCustomerInfo (fst m) ci ;;
    let* cf := read (deref as_AirCanadaFlight (snd o)) in
    assign as_AirCanadaFlight VAirCanadaFlight (snd m) cf.

(** [operator=(CanadaFlightReservation&&)]: [canada_customer_info =
    std::move(canada_customer_info)], a self-move of each [unique_ptr]
    ([reset(release())]), which leaves it as it was; [other] is not read. *)
Definition move_assign (this other : loc) : M unit :=
  if Pos.eqb this other then ret tt
  else
    let* m := read (members this) in
    store this (OCanadaFlightReservation (fst m) (snd m)).

Definition tag (f : AirCanadaFlight.t) : FoundFlightInfo.t :=
  FoundFlightInfo.mk "Canada" (AirCanadaFlight.price f)
    (AirCanadaFlight.date_time_from f) (AirCanadaFlight.date_time_to f).

Definition getAvailableFlights (this : loc)
  (flights : list FoundFlightInfo.t) : R (list FoundFlightInfo.t) :=
  fun _ => Val (push_back_each tag AirCanadaOnlineAPI.getFlights flights).

Definition getCost (this : loc) : R double :=
  fun h =>
    let? m := members this h in
    let? cf := deref as_AirCanadaFlight (snd m) h in
    let? ci := deref as_AirCanadaCustomerInfo (fst m) h in
    Val (AirCanadaFlight.price cf
         * double_of_int
             (int_add (int_add (AirCanadaCustomerInfo.adults ci)
                               (AirCanadaCustomerInfo.children ci))
                      (AirCanadaCustomerInfo.infants ci)))%float.

(** The insertions of [getDetails], given the criteria record and the
    value of [getCost()]. *)
Definition details (ci : AirCanadaCustomerInfo.t) (c : double) : output :=
  put [ Str ("Airline Reservation/ AirCanada Airline: " ++ LF);
        Str "From: "; Str (AirCanadaCustomerInfo.from ci);
        Str "  on: "; Str (AirCanadaCustomerInfo.date_time_from ci);
        Str "  To: "; Str (AirCanadaCustomerInfo.to ci);
        Str "  on: "; Str (AirCanadaCustomerInfo.date_time_to ci);
        Str LF; Str (TAB ++ TAB ++ "Adults: ");
        Int (AirCanadaCustomerInfo.adults ci);
        Str "  -  Children: "; Int (AirCanadaCustomerInfo.children ci);
        Str "  -  Infants: "; Int (AirCanadaCustomerInfo.infants ci);
        Str LF; Str (TAB ++ TAB ++ "Flight Cost: "); Dbl c ].

Definition getDetails (this : loc) : R output :=
  fun h =>
    let? m := members this h in
    let? ci := deref as_AirCanadaCustomerInfo (fst m) h in
    let? c := getCost this h in
    Val (details ci c).

(** [clone()]: a new object, copy-constructed from [*this]. *)
Definition clone (this : loc) : M loc :=
  let* q := new (OCanadaFlightReservation None None) in
  copy_ctor q this ;;
  ret q.

Definition makeReservation (this : loc) : R bool :=
  fun h =>
    let? m := members this h in
    let? cf := deref as_AirCanadaFlight (snd m) h in
    let? ci := deref as_AirCanadaCustomerInfo (fst m) h in
    Val (AirCanadaOnlineAPI.reserveFlight cf ci).

Definition cancelReservation (this : loc) : R bool :=
  fun h =>
    let? m := members this h in
    let? cf := deref as_AirCanadaFlight (snd m) h in
    let? ci := deref as_AirCanadaCustomerInfo (fst m) h in
    Val (AirCanadaOnlineAPI.cancelReserveFlight cf ci).

(** The destructor, then the storage released. *)
Definition destroy (this : loc) : M unit :=
  let* m := read (members this) in
  reset (snd m) ;;
  reset (fst m) ;;
  free this.

End CanadaFlightReservation.

Module TurkishFlightReservation.

Definition members (this : loc) : R (ptr * ptr) :=
  fun h => match h !! this with
           | Some (OTurkishFlightReservation ci cf) => Val (ci, cf)
           | _ => Undefined
           end.

Definition ctor (this : loc) : M unit :=
  let* ci := new (VTurkishCustomerInfo TurkishCustomerInfo.default) in
  let* cf := new (VTurkishFlight TurkishFlight.default) in
  store this (OTurkishFlightReservation (Some ci) (Some cf)).

Definition setCustomerInfo (this : loc) (info : ptr) : M unit :=
  let* m := read (members this) in
  let* i := read (deref as_PassengerInfo info) in
  assign as_TurkishCustomerInfo VTurkishCustomerInfo (fst m)
    (TurkishCustomerInfo.mk (PassengerInfo.from i) (PassengerInfo.to i)
       (PassengerInfo.from_date i) (PassengerInfo.to_date i)
       (PassengerInfo.adults i) (PassengerInfo.children i)
       (PassengerInfo.infants i)).

Definition setChosenFlight (this : loc) (info : ptr) : M unit :=
  let* m := read (members this) in
  let* i := read (deref as_FoundFlightInfo info) in
  assign as_TurkishFlight VTurkishFlight (snd m)
    (TurkishFlight.mk (FoundFlightInfo.price i)
       (FoundFlightInfo.from_date i) (FoundFlightInfo.to_date i)).

Definition ctor2 (this : loc) (customer_info chosen_flight : ptr) : M unit :=
  ctor this ;;
  setCustomerInfo this customer_info ;;
  setChosenFlight this chosen_flight.

(** The body shared by the copy constructor and the copy assignment: each
    record is copied only [if (other.member)]. *)
Definition copy_members (this other : loc) : M unit :=
  let* m := read (members this) in
  let* o := read (members other) in
  match fst o with
  | Some _ =>
      let* ci := read (deref as_TurkishCustomerInfo (fst o)) in
      assign as_TurkishCustomerInfo VTurkishCustomerInfo (fst m) ci
  | None => ret tt
  end ;;
  match snd o with
  | Some _ =>
      let* cf := read (deref as_TurkishFlight (snd o)) in
      assign as_TurkishFlight VTurkishFlight (snd m) cf
  | None => ret tt
  end.

Definition copy_ctor (this other : loc) : M unit :=
  ctor this ;;
  copy_members this other.

(** [TurkishFlightReservation(TurkishFlightReservation&&)]: as in the Canada
    adapter, each member is initialised by moving from itself. *)
Definition move_ctor (this other : loc) : M unit :=
  let* m := read (members this) in
  store this (OTurkishFlightReservation (fst m) (snd m)).

Definition copy_assign (this other : loc) : M unit :=
  if Pos.eqb this other then ret tt else copy_members this other.

(** [operator=(TurkishFlightReservation&&)]: each member takes the pointer of
    [other], which is left null; the record it held before is deleted. *)
Definition move_assign (this other : loc) : M unit :=
  if Pos.eqb this other then ret tt
  else
    let* o := read (members other) in
    store other (OTurkishFlightReservation None (snd o)) ;;
    let* m := read (members this) in
    store this (OTurkishFlightReservation (fst o) (snd m)) ;;
    reset (fst m) ;;
    let* o := read (members other) in
    store other (OTurkishFlightReservation (fst o) None) ;;
    let* m := read (members this) in
    store this (OTurkishFlightReservation (fst m) (snd o)) ;;
    reset (snd m).

Definition tag (f : TurkishFlight.t) : FoundFlightInfo.t :=
  FoundFlightInfo.mk "Turkish" (TurkishFlight.cost f)
    (TurkishFlight.datetime_from f) (TurkishFlight.datetime_to f).

Definition getAvailableFlights (this : loc)
  (flights : list FoundFlightInfo.t) : R (list FoundFlightInfo.t) :=
  fun _ =>
    Val (push_back_each tag TurkishAirlineOnlineAPI.getAvailableFlights
           flights).

Definition getCost (this : loc) : R double :=
  fun h =>
    let? m := members this h in
    let? cf := deref as_TurkishFlight (snd m) h in
    let? ci := deref as_TurkishCustomerInfo (fst m) h in
    Val (TurkishFlight.cost cf
         * double_of_int
             (int_add (int_add (TurkishCustomerInfo.adults ci)
                               (TurkishCustomerInfo.children ci))
                      (TurkishCustomerInfo.infants ci)))%float.

(** The insertions of [getDetails], given the criteria record and the
    value of [getCost()]. *)
Definition details (ci : TurkishCustomerInfo.t) (c : double) : output :=
  put [ Str ("Airline Reservation/ Turkish Airline: " ++ LF);
        Str "From: "; Str (TurkishCustomerInfo.from ci);
        Str "  on: "; Str (TurkishCustomerInfo.datetime_from ci);
        Str "  To: "; Str (TurkishCustomerInfo.to ci);
        Str "  on: "; Str (TurkishCustomerInfo.datetime_to ci);
        Str LF; Str (TAB ++ TAB ++ "Adults: ");
        Int (TurkishCustomerInfo.adults ci);
        Str "  -  Children: "; Int (TurkishCustomerInfo.children ci);
        Str "  -  "; Int (TurkishCustomerInfo.infants ci);
        Str LF; Str (TAB ++ TAB ++ "Flight Cost: "); Dbl c ].

Definition getDetails (this : loc) : R output :=
  fun h =>
    let? m := members this h in
    let? ci := deref as_TurkishCustomerInfo (fst m) h in
    let? c := getCost this h in
    Val (details ci c).

Definition clone (this : loc) : M loc :=
  let* q := new (OTurkishFlightReservation None None) in
  copy_ctor q this ;;
  ret q.

Definition makeReservation (this : loc) : R bool :=
  fun h =>
    let? m := members this h in
    let? ci := deref as_TurkishCustomerInfo (fst m) h in
    let? cf := deref as_TurkishFlight (snd m) h in
    Val (TurkishAirlineOnlineAPI.reserveFlight ci cf).

Definition cancelReservation (this : loc) : R bool :=
  fun h =>
    let? m := members this h in
    let? ci := deref as_TurkishCustomerInfo (fst m) h in
    let? cf := deref as_TurkishFlight (snd m) h in
    Val (TurkishAirlineOnlineAPI.cancelReservedFlight ci cf).

Definition destroy (this : loc) : M unit :=
  let* m := read (members this) in
  reset (snd m) ;;
  reset (fst m) ;;
  free this.

End TurkishFlightReservation.

(** ** Hotel adapters (Hotels.cpp) *)

Module HiltonHotelReservation.

Definition members (this : loc) : R (ptr * ptr) :=
  fun h => match h !! this with
           | Some (OHiltonHotelReservation ci cr) => Val (ci, cr)
           | _ => Undefined
           end.

Definition ctor (this : loc) : M unit :=
  let* ci := new (VHiltonCustomerInfo HiltonCustomerInfo.default) in
  let* cr := new (VHiltonRoom HiltonRoom.default) in
  store this (OHiltonHotelReservation (Some ci) (Some cr)).

Definition setCustomerInfo (this : loc) (info : ptr) : M unit :=
  let* m := read (members this) in
  let* i := read (deref as_CustomerInfo info) in
  assign as_HiltonCustomerInfo VHiltonCustomerInfo (fst m)
    (HiltonCustomerInfo.mk (CustomerInfo.country i) (CustomerInfo.city i)
       (CustomerInfo.from_date i) (CustomerInfo.to_date i)
       (CustomerInfo.needed_rooms i) (CustomerInfo.adults i)
       (CustomerInfo.children i) (CustomerInfo.number_of_nights i)).

(** [available_number] is not assigned: it keeps its value. *)
Definition setChosenRoomInfo (this : loc) (room_info : ptr) : M unit :=
  let* m := read (members this) in
  let* old := read (deref as_HiltonRoom (snd m)) in
  let* i := read (deref as_FoundRoomInfo room_info) in
  assign as_HiltonRoom VHiltonRoom (snd m)
    (HiltonRoom.mk (FoundRoomInfo.view_type i)
       (HiltonRoom.available_number old) (FoundRoomInfo.price_for_night i)
       (FoundRoomInfo.from_date i) (FoundRoomInfo.to_date i)).

Definition ctor2 (this : loc) (customer_info chosen_room : ptr) : M unit :=
  ctor this ;;
  setCustomerInfo this customer_info ;;
  setChosenRoomInfo this chosen_room.

Definition copy_members (this other : loc) : M unit :=
  let* m := read (members this) in
  let* o := read (members other) in
  let* ci := read (deref as_HiltonCustomerInfo (fst o)) in
  assign as_HiltonCustomerInfo VHiltonCustomerInfo (fst m) ci ;;
  let* cr := read (deref as_HiltonRoom (snd o)) in
  assign as_HiltonRoom VHiltonRoom (snd m) cr.

Definition copy_ctor (this other : loc) : M unit :=
  ctor this ;;
  copy_members this other.

(** [HiltonHotelReservation(HiltonHotelReservation&&)]: the members take the
    pointers of [other], which is left with null members. *)
Definition move_ctor (this other : loc) : M unit :=
  let* o := read (members other) in
  store this (OHiltonHotelReservation (fst o) (snd o)) ;;
  store other (OHiltonHotelReservation None None).

Definition copy_assign (this other : loc) : M unit :=
  if Pos.eqb this other then ret tt else copy_members this other.

Definition move_assign (this other : loc) : M unit :=
  if Pos.eqb this other then ret tt
  else
    let* o := read (members other) in
    store other (OHiltonHotelReservation None (snd o)) ;;
    let* m := read (members this) in
    store this (OHiltonHotelReservation (fst o) (snd m)) ;;
    reset (fst m) ;;
    let* o := read (members other) in
    store other (OHiltonHotelReservation (fst o) None) ;;
    let* m := read (members this) in
    store this (OHiltonHotelReservation (fst m) (snd o)) ;;
    reset (snd m).

Definition tag (r : HiltonRoom.t) : FoundRoomInfo.t :=
  FoundRoomInfo.mk "Hilton" (HiltonRoom.from_date r) (HiltonRoom.to_date r)
    (HiltonRoom.room_type r) (HiltonRoom.available_number r)
    (HiltonRoom.price_per_night r).

Definition getAvailableRooms (this : loc) (rooms : list FoundRoomInfo.t)
  : R (list FoundRoomInfo.t) :=
  fun h =>
    let? m := members this h in
    let? ci := deref as_HiltonCustomerInfo (fst m) h in
    Val (push_back_each tag (HiltonHotelAPI.searchRooms ci) rooms).

Definition getCost (this : loc) : R double :=
  fun h =>
    let? m := members this h in
    let? cr := deref as_HiltonRoom (snd m) h in
    let? ci := deref as_HiltonCustomerInfo (fst m) h in
    Val (HiltonRoom.price_per_night cr
         * double_of_int (HiltonCustomerInfo.number_of_nights ci)
         * double_of_int (HiltonCustomerInfo.needed_rooms ci))%float.

(** The insertions of [getDetails], given the criteria record and the
    value of [getCost()]. *)
Definition details (ci : HiltonCustomerInfo.t) (c : double) : output :=
  put [ Str "Hotel Reservation / Hilton Hotel: ";
        Str (HiltonCustomerInfo.country ci);
        Str " @ "; Str (HiltonCustomerInfo.city ci);
        Str "  from "; Str (HiltonCustomerInfo.date_from ci);
        Str "  to "; Str (HiltonCustomerInfo.date_to ci);
        Str " ("; Int (HiltonCustomerInfo.number_of_nights ci);
        Str (")" ++ LF); Str (TAB ++ TAB ++ "Adults: ");
        Int (HiltonCustomerInfo.adults ci);
        Str (LF ++ TAB ++ TAB ++ "Children: ");
        Int (HiltonCustomerInfo.children ci);
        Str (LF ++ TAB ++ TAB ++ "Room Cost For All Nights: ");
        Dbl c; Str LF ].

Definition getDetails (this : loc) : R output :=
  fun h =>
    let? m := members this h in
    let? ci := deref as_HiltonCustomerInfo (fst m) h in
    let? c := getCost this h in
    Val (details ci c).

Definition clone (this : loc) : M loc :=
  let* q := new (OHiltonHotelReservation None None) in
  copy_ctor q this ;;
  ret q.

Definition makeReservation (this : loc) : R bool :=
  fun h =>
    let? m := members this h in
    let? ci := deref as_HiltonCustomerInfo (fst m) h in
    let? cr := deref as_HiltonRoom (snd m) h in
    Val (HiltonHotelAPI.reserveRoom ci cr).

Definition cancelReservation (this : loc) : R bool :=
  fun h =>
    let? m := members this h in
    let? ci := deref as_HiltonCustomerInfo (fst m) h in
    let? cr := deref as_HiltonRoom (snd m) h in
    Val (HiltonHotelAPI.cancelReservation ci cr).

Definition destroy (this : loc) : M unit :=
  let* m := read (members this) in
  reset (snd m) ;;
  reset (fst m) ;;
  free this.

End HiltonHotelReservation.

Module MarriottHotelReservation.

Definition members (this : loc) : R (ptr * ptr) :=
  fun h => match h !! this with
           | Some (OMarriottHotelReservation ci cr) => Val (ci, cr)
           | _ => Undefined
           end.

Definition ctor (this : loc) : M unit :=
  let* ci := new (VMarriottCustomerInfo MarriottCustomerInfo.default) in
  let* cr := new (VMarriottFoundRoom MarriottFoundRoom.default) in
  store this (OMarriottHotelReservation (Some ci) (Some cr)).

Definition setCustomerInfo (this : loc) (info : ptr) : M unit :=
  let* m := read (members this) in
  let* i := read (deref as_CustomerInfo info) in
  assign as_MarriottCustomerInfo VMarriottCustomerInfo (fst m)
    (MarriottCustomerInfo.mk (CustomerInfo.country i) (CustomerInfo.city i)
       (CustomerInfo.from_date i) (CustomerInfo.to_date i)
       (CustomerInfo.needed_rooms i) (CustomerInfo.adults i)
       (CustomerInfo.children i) (CustomerInfo.number_of_nights i)).

Definition setChosenRoomInfo (this : loc) (room_info : ptr) : M unit :=
  let* m := read (members this) in
  let* old := read (deref as_MarriottFoundRoom (snd m)) in
  let* i := read (deref as_FoundRoomInfo room_info) in
  assign as_MarriottFoundRoom VMarriottFoundRoom (snd m)
    (MarriottFoundRoom.mk (FoundRoomInfo.view_type i)
       (MarriottFoundRoom.available_number old)
       (FoundRoomInfo.price_for_night i)
       (FoundRoomInfo.from_date i) (FoundRoomInfo.to_date i)).

Definition ctor2 (this : loc) (customer_info chosen_room : ptr) : M unit :=
  ctor this ;;
  setCustomerInfo this customer_info ;;
  setChosenRoomInfo this chosen_room.

Definition copy_members (this other : loc) : M unit :=
  let* m := read (members this) in
  let* o := read (members other) in
  match fst o with
  | Some _ =>
      let* ci := read (deref as_MarriottCustomerInfo (fst o)) in
      assign as_MarriottCustomerInfo VMarriottCustomerInfo (fst m) ci
  | None => ret tt
  end ;;
  match snd o with
  | Some _ =>
      let* cr := read (deref as_MarriottFoundRoom (snd o)) in
      assign as_MarriottFoundRoom VMarriottFoundRoom (snd m) cr
  | None => ret tt
  end.

Definition copy_ctor (this other : loc) : M unit :=
  ctor this ;;
  copy_members this other.

Definition move_ctor (this other : loc) : M unit :=
  let* o := read (members other) in
  store this (OMarriottHotelReservation (fst o) (snd o)) ;;
  store other (OMarriottHotelReservation None None).

Definition copy_assign (this other : loc) : M unit :=
  if Pos.eqb this other then ret tt else copy_members this other.

Definition move_assign (this other : loc) : M unit :=
  if Pos.eqb this other then ret tt
  else
    let* o := read (members other) in
    store other (OMarriottHotelReservation None (snd o)) ;;
    let* m := read (members this) in
    store this (OMarriottHotelReservation (fst o) (snd m)) ;;
    reset (fst m) ;;
    let* o := read (members other) in
    store other (OMarriottHotelReservation (fst o) None) ;;
    let* m := read (members this) in
    store this (OMarriottHotelReservation (fst m) (snd o)) ;;
    reset (snd m).

Definition tag (r : MarriottFoundRoom.t) : FoundRoomInfo.t :=
  FoundRoomInfo.mk "Marriott" (MarriottFoundRoom.date_from r)
    (MarriottFoundRoom.date_to r) (MarriottFoundRoom.room_type r)
    (MarriottFoundRoom.available_number r)
    (MarriottFoundRoom.price_per_night r).

Definition getAvailableRooms (this : loc) (rooms : list FoundRoomInfo.t)
  : R (list FoundRoomInfo.t) :=
  fun h =>
    let? m := members this h in
    let? ci := deref as_MarriottCustomerInfo (fst m) h in
    Val (push_back_each tag (MarriottHotelAPI.findRooms ci) rooms).

Definition getCost (this : loc) : R double :=
  fun h =>
    let? m := members this h in
    let? cr := deref as_MarriottFoundRoom (snd m) h in
    let? ci := deref as_MarriottCustomerInfo (fst m) h in
    Val (MarriottFoundRoom.price_per_night cr
         * double_of_int (MarriottCustomerInfo.number_of_nights ci)
         * double_of_int (MarriottCustomerInfo.needed_rooms ci))%float.

(** The insertions of [getDetails], given the criteria record and the
    value of [getCost()]. *)
Definition details (ci : MarriottCustomerInfo.t) (c : double) : output :=
  put [ Str "Hotel Reservation / Marriott Hotel: ";
        Str (MarriottCustomerInfo.country ci);
        Str " @ "; Str (MarriottCustomerInfo.city ci);
        Str "  from "; Str (MarriottCustomerInfo.date_from ci);
        Str "  to "; Str (MarriottCustomerInfo.date_to ci);
        Str " ("; Int (MarriottCustomerInfo.number_of_nights ci);
        Str (")" ++ LF); Str (TAB ++ TAB ++ "Adults: ");
        Int (MarriottCustomerInfo.adults ci);
        Str (LF ++ TAB ++ TAB ++ "Children: ");
        Int (MarriottCustomerInfo.children ci);
        Str (LF ++ TAB ++ TAB ++ "Room Cost For ALl Nights: ");
        Dbl c; Str LF ].

Definition getDetails (this : loc) : R output :=
  fun h =>
    let? m := members this h in
    let? ci := deref as_MarriottCustomerInfo (fst m) h in
    let? c := getCost this h in
    Val (details ci c).

Definition clone (this : loc) : M loc :=
  let* q := new (OMarriottHotelReservation None None) in
  copy_ctor q this ;;
  ret q.

Definition makeReservation (this : loc) : R bool :=
  fun h =>
    let? m := members this h in
    let? cr := deref as_MarriottFoundRoom (snd m) h in
    let? ci := deref as_MarriottCustomerInfo (fst m) h in
    Val (MarriottHotelAPI.reserveRoom cr ci).

Definition cancelReservation (this : loc) : R bool :=
  fun h =>
    let? m := members this h in
    let? cr := deref as_MarriottFoundRoom (snd m) h in
    let? ci := deref as_MarriottCustomerInfo (fst m) h in
    Val (MarriottHotelAPI.cancelReservation cr ci).

Definition destroy (this : loc) : M unit :=
  let* m := read (members this) in
  reset (snd m) ;;
  reset (fst m) ;;
  free this.

End MarriottHotelReservation.

(** ** The Itinerary composite (Itinerary.hpp, Itinerary.cpp)

    The virtual calls on the elements ([getCost], [getDetails], [clone], the
    destructor) are parameters here; [Reservation] below ties the knot. *)

Module Itinerary.

(** The member [Reservations] of [*this]. *)
Definition Reservations (this : loc) : R (list ptr) :=
  fun h => match h !! this with
           | Some (OItinerary rs) => Val rs
           | _ => Undefined
           end.

(** [Itinerary() = default]. *)
Definition ctor (this : loc) : M unit := store this (OItinerary []).

(** [addReservation]: [Reservations.push_back(reservation->clone())]. *)
Definition addReservation (vclone : loc -> M loc) (this : loc)
  (reservation : ptr) : M unit :=
  match reservation with
  | None => undefined
  | Some r =>
      let* c := vclone r in
      let* rs := read (Reservations this) in
      store this (OItinerary (rs ++ [Some c]))
  end.

(** [for (const auto &reservation : other.Reservations)
      addReservation(reservation);] *)
Fixpoint addReservations (vclone : loc -> M loc) (this : loc)
  (rs : list ptr) : M unit :=
  match rs with
  | [] => ret tt
  | r :: rest =>
      addReservation vclone this r ;;
      addReservations vclone this rest
  end.

(** [Itinerary(const Itinerary &other)]. *)
Definition copy_ctor (vclone : loc -> M loc) (this other : loc) : M unit :=
  ctor this ;;
  let* rs := read (Reservations other) in
  addReservations vclone this rs.

(** [Itinerary(Itinerary &&other)]. *)
Definition move_ctor (this other : loc) : M unit :=
  let* rs := read (Reservations other) in
  store this (OItinerary rs) ;;
  store other (OItinerary []).

(** [operator=(Itinerary &other)]: the elements of [other] are added to the
    ones [*this] holds. *)
Definition copy_assign (vclone : loc -> M loc) (this other : loc) : M unit :=
  if Pos.eqb this other then ret tt
  else
    let* rs := read (Reservations other) in
    addReservations vclone this rs.

(** The destructors of the elements of a vector, front to back. *)
Fixpoint destroy_each (vdestroy : loc -> M unit) (rs : list ptr) : M unit :=
  match rs with
  | [] => ret tt
  | r :: rest =>
      match r with
      | Some l => vdestroy l
      | None => ret tt
      end ;;
      destroy_each vdestroy rest
  end.

(** [operator=(Itinerary &&other)]: the vector of [other] replaces the one of
    [*this], whose elements are destroyed. *)
Definition move_assign (vdestroy : loc -> M unit) (this other : loc)
  : M unit :=
  if Pos.eqb this other then ret tt
  else
    let* old := read (Reservations this) in
    let* rs := read (Reservations other) in
    store this (OItinerary rs) ;;
    store other (OItinerary []) ;;
    destroy_each vdestroy old.

(** [clear()]: [Reservations.clear()]. *)
Definition clear (vdestroy : loc -> M unit) (this : loc) : M unit :=
  let* rs := read (Reservations this) in
  destroy_each vdestroy rs ;;
  store this (OItinerary []).

Definition isEmpty (this : loc) : R bool :=
  fun h =>
    let? rs := Reservations this h in
    Val (match rs with [] => true | _ => false end).

(** [std::for_each(begin, end, Sum<double>())]: [sum += r->getCost()] on each
    element in order. *)
Fixpoint for_each_Sum (vgetCost : loc -> R double) (rs : list ptr)
  (sum : double) : R double :=
  fun h =>
    match rs with
    | [] => Val sum
    | r :: rest =>
        match r with
        | None => Undefined
        | Some l =>
            let? c := vgetCost l h in
            for_each_Sum vgetCost rest (sum + c)%float h
        end
    end.

(** [getCost()]: the functor starts from [sum{}], zero. *)
Definition getCost (vgetCost : loc -> R double) (this : loc) : R double :=
  fun h =>
    let? rs := Reservations this h in
    for_each_Sum vgetCost rs 0%float h.

(** The loop of [getDetails]: each element writes to [get], then a line feed
    goes to [std::cout]. *)
Fixpoint details_each (vgetDetails : loc -> R output) (rs : list ptr)
  : R output :=
  fun h =>
    match rs with
    | [] => Val []
    | r :: rest =>
        match r with
        | None => Undefined
        | Some l =>
            let? d := vgetDetails l h in
            let? ds := details_each vgetDetails rest h in
            Val (d ++ (to_cout, Str LF) :: ds)
        end
    end.

(** The insertions of [getDetails], given the number of elements, what the
    loop over them wrote, and the value of [getCost()]. *)
Definition details (size : nat) (ds : output) (c : double) : output :=
  put [ Str "Itinerary of "; Size size; Str (" sub-reservations: " ++ LF) ]
  ++ ds
  ++ put [ Str (LF ++ "Itinerary Cost: "); Dbl c ]
  ++ put [ Str (LF ++ "----------------------------------" ++ LF) ].

Definition getDetails (vgetDetails : loc -> R output)
  (vgetCost : loc -> R double) (this : loc) : R output :=
  fun h =>
    let? rs := Reservations this h in
    let? ds := details_each vgetDetails rs h in
    let? c := getCost vgetCost this h in
    Val (details (length rs) ds c).

(** [clone()]: a new Itinerary, copy-constructed from [*this]. *)
Definition clone (vclone : loc -> M loc) (this : loc) : M loc :=
  let* q := new (OItinerary []) in
  copy_ctor vclone q this ;;
  ret q.

(** [~Itinerary()], then the storage released. *)
Definition destroy (vdestroy : loc -> M unit) (this : loc) : M unit :=
  let* rs := read (Reservations this) in
  destroy_each vdestroy rs ;;
  store this (OItinerary []) ;;
  free this.

End Itinerary.

(** ** The Reservation interface (Reservation.hpp): virtual dispatch

    A call through a [Reservation*] selects the member function by the
    dynamic type of the object. Itineraries nest, so the calls recurse
    through the store; [fuel] bounds the nesting depth followed. *)

Module Reservation.

Fixpoint getCost (fuel : nat) (p : loc) : R double :=
  fun h =>
    match fuel with
    | O => OutOfFuel
    | S n =>
        match h !! p with
        | Some (OCanadaFlightReservation _ _) =>
            CanadaFlightReservation.getCost p h
        | Some (OTurkishFlightReservation _ _) =>
            TurkishFlightReservation.getCost p h
        | Some (OHiltonHotelReservation _ _) =>
            HiltonHotelReservation.getCost p h
        | Some (OMarriottHotelReservation _ _) =>
            MarriottHotelReservation.getCost p h
        | Some (OItinerary _) => Itinerary.getCost (getCost n) p h
        | _ => Undefined
        end
    end.

Fixpoint getDetails (fuel : nat) (p : loc) : R output :=
  fun h =>
    match fuel with
    | O => OutOfFuel
    | S n =>
        match h !! p with
        | Some (OCanadaFlightReservation _ _) =>
            CanadaFlightReservation.getDetails p h
        | Some (OTurkishFlightReservation _ _) =>
            TurkishFlightReservation.getDetails p h
        | Some (OHiltonHotelReservation _ _) =>
            HiltonHotelReservation.getDetails p h
        | Some (OMarriottHotelReservation _ _) =>
            MarriottHotelReservation.getDetails p h
        | Some (OItinerary _) =>
            Itinerary.getDetails (getDetails n) (getCost n) p h
        | _ => Undefined
        end
    end.

Fixpoint clone (fuel : nat) (p : loc) : M loc :=
  fun h =>
    match fuel with
    | O => OutOfFuel
    | S n =>
        match h !! p with
        | Some (OCanadaFlightReservation _ _) =>
            CanadaFlightReservation.clone p h
        | Some (OTurkishFlightReservation _ _) =>
            TurkishFlightReservation.clone p h
        | Some (OHiltonHotelReservation _ _) =>
            HiltonHotelReservation.clone p h
        | Some (OMarriottHotelReservation _ _) =>
            MarriottHotelReservation.clone p h
        | Some (OItinerary _) => Itinerary.clone (clone n) p h
        | _ => Undefined
        end
    end.

(** [delete p]: the virtual destructor, then the storage released. *)
Fixpoint destroy (fuel : nat) (p : loc) : M unit :=
  fun h =>
    match fuel with
    | O => OutOfFuel
    | S n =>
        match h !! p with
        | Some (OCanadaFlightReservation _ _) =>
            CanadaFlightReservation.destroy p h
        | Some (OTurkishFlightReservation _ _) =>
            TurkishFlightReservation.destroy p h
        | Some (OHiltonHotelReservation _ _) =>
            HiltonHotelReservation.destroy p h
        | Some (OMarriottHotelReservation _ _) =>
            MarriottHotelReservation.destroy p h
        | Some (OItinerary _) => Itinerary.destroy (destroy n) p h
        | _ => Undefined
        end
    end.

End Reservation.

(** ** The reservation workflow (Make_Reservation.cpp) *)

(** [v[i]] on a [std::vector]: defined only for [0 <= i < v.size()]. *)
Definition index {A : Type} (v : list A) (i : Z) : result A :=
  if i <? 0 then Undefined
  else match nth_error v (Z.to_nat i) with
       | Some x => Val x
       | None => Undefined
       end.

(** The virtual call [airport->getAvailableFlights(flights)]. *)
Definition FlightReservation_getAvailableFlights (airport : ptr)
  (flights : list FoundFlightInfo.t) : R (list FoundFlightInfo.t) :=
  fun h =>
    match airport with
    | None => Undefined
    | Some l =>
        match h !! l with
        | Some (OCanadaFlightReservation _ _) =>
            CanadaFlightReservation.getAvailableFlights l flights h
        | Some (OTurkishFlightReservation _ _) =>
            TurkishFlightReservation.getAvailableFlights l flights h
        | _ => Undefined
        end
    end.

(** The virtual call [hotel->getAvailableRooms(rooms)]. *)
Definition HotelReservation_getAvailableRooms (hotel : ptr)
  (rooms : list FoundRoomInfo.t) : R (list FoundRoomInfo.t) :=
  fun h =>
    match hotel with
    | None => Undefined
    | Some l =>
        match h !! l with
        | Some (OHiltonHotelReservation _ _) =>
            HiltonHotelReservation.getAvailableRooms l rooms h
        | Some (OMarriottHotelReservation _ _) =>
            MarriottHotelReservation.getAvailableRooms l rooms h
        | _ => Undefined
        end
    end.

Module MakeReservation.

(** The members of [*this]. *)
Record members_t : Type := mk_members {
  Airports : list ptr;
  Hotels : list ptr;
  passenger_info : ptr;
  customer_info : ptr;
  chosen_flight : ptr;
  chosen_room : ptr }.

Definition members (this : loc) : R members_t :=
  fun h => match h !! this with
           | Some (OMakeReservation a b pi ci cf cr) =>
               Val (mk_members a b pi ci cf cr)
           | _ => Undefined
           end.

Definition set_members (this : loc) (m : members_t) : M unit :=
  store this (OMakeReservation (Airports m) (Hotels m) (passenger_info m)
                (customer_info m) (chosen_flight m) (chosen_room m)).

(** [MakeReservation()]: the four working records null, the four adapters
    registered in this order. *)
Definition ctor (this : loc) : M unit :=
  let* canada := new (OCanadaFlightReservation None None) in
  CanadaFlightReservation.ctor canada ;;
  let* turkish := new (OTurkishFlightReservation None None) in
  TurkishFlightReservation.ctor turkish ;;
  let* hilton := new (OHiltonHotelReservation None None) in
  HiltonHotelReservation.ctor hilton ;;
  let* marriott := new (OMarriottHotelReservation None None) in
  MarriottHotelReservation.ctor marriott ;;
  store this (OMakeReservation [Some canada; Some turkish]
                [Some hilton; Some marriott] None None None None).

(** [ReservationFactory(brand)]: the working records are passed by reference
    to the adapter's constructor, which reads them. *)
Definition ReservationFactory (this : loc) (brand : string) : M ptr :=
  let* m := read (members this) in
  if String.eqb brand "Canada" then
    let* q := new (OCanadaFlightReservation None None) in
    CanadaFlightReservation.ctor2 q (passenger_info m) (chosen_flight m) ;;
    ret (Some q)
  else if String.eqb brand "Turkish" then
    let* q := new (OTurkishFlightReservation None None) in
    TurkishFlightReservation.ctor2 q (passenger_info m) (chosen_flight m) ;;
    ret (Some q)
  else if String.eqb brand "Hilton" then
    let* q := new (OHiltonHotelReservation None None) in
    HiltonHotelReservation.ctor2 q (customer_info m) (chosen_room m) ;;
    ret (Some q)
  else if String.eqb brand "Marriott" then
    let* q := new (OMarriottHotelReservation None None) in
    MarriottHotelReservation.ctor2 q (customer_info m) (chosen_room m) ;;
    ret (Some q)
  else ret None.

(** [for (const auto &airport : Airports)
      airport->getAvailableFlights(std::move(available_flights));] *)
Fixpoint collect_flights (airports : list ptr)
  (available_flights : list FoundFlightInfo.t)
  : R (list FoundFlightInfo.t) :=
  fun h =>
    match airports with
    | [] => Val available_flights
    | airport :: rest =>
        let? fs :=
          FlightReservation_getAvailableFlights airport available_flights h in
        collect_flights rest fs h
    end.

(** [for (const auto &hotel : Hotels)
      hotel->getAvailableRooms(std::move(available_rooms));] *)
Fixpoint collect_rooms (hotels : list ptr)
  (available_rooms : list FoundRoomInfo.t) : R (list FoundRoomInfo.t) :=
  fun h =>
    match hotels with
    | [] => Val available_rooms
    | hotel :: rest =>
        let? rs := HotelReservation_getAvailableRooms hotel available_rooms h in
        collect_rooms rest rs h
    end.

(** What [std::cin] yields in [reservingFlight], in reading order. *)
Record flight_input : Type := mk_flight_input {
  in_from : string;
  in_from_date : string;
  in_to : string;
  in_to_date : string;
  in_adults : Z;
  in_children : Z;
  in_infants : Z;
  in_flight_choice : Z }.

(** [reservingFlight()]. The prompts and the listing written to [std::cout]
    are left out. *)
Definition reservingFlight (this : loc) (i : flight_input) : M ptr :=
  let* m := read (members this) in
  let* pi := new (VPassengerInfo PassengerInfo.default) in
  reset (passenger_info m) ;;
  let* cf := new (VFoundFlightInfo FoundFlightInfo.default) in
  reset (chosen_flight m) ;;
  set_members this
    (mk_members (Airports m) (Hotels m) (Some pi) (customer_info m)
       (Some cf) (chosen_room m)) ;;
  assign as_PassengerInfo VPassengerInfo (Some pi)
    (PassengerInfo.mk (in_from_date i) (in_to_date i) (in_from i) (in_to i)
       (in_children i) (in_adults i) (in_infants i)) ;;
  let* available_flights := read (collect_flights (Airports m) []) in
  let choice := in_flight_choice i in
  if (choice =? -1) || (choice >? int_of_size available_flights) then
    ret None
  else
    let* f := lift (index available_flights (int_wrap (choice - 1))) in
    assign as_FoundFlightInfo VFoundFlightInfo (Some cf) f ;;
    let* chosen := read (deref as_FoundFlightInfo (Some cf)) in
    ReservationFactory this (FoundFlightInfo.airline chosen).

(** What [std::cin] yields in [reservingRoom], in reading order;
    [needed_rooms] is not asked for. *)
Record room_input : Type := mk_room_input {
  in_country : string;
  in_city : string;
  in_date_from : string;
  in_date_to : string;
  in_room_adults : Z;
  in_room_children : Z;
  in_number_of_nights : Z;
  in_room_choice : Z }.

(** [reservingRoom()]. *)
Definition reservingRoom (this : loc) (i : room_input) : M ptr :=
  let* m := read (members this) in
  let* ci := new (VCustomerInfo CustomerInfo.default) in
  reset (customer_info m) ;;
  let* cr := new (VFoundRoomInfo FoundRoomInfo.default) in
  reset (chosen_room m) ;;
  set_members this
    (mk_members (Airports m) (Hotels m) (passenger_info m) (Some ci)
       (chosen_flight m) (Some cr)) ;;
  assign as_CustomerInfo VCustomerInfo (Some ci)
    (CustomerInfo.mk (in_date_from i) (in_date_to i) (in_country i)
       (in_city i) (in_room_children i) (in_room_adults i)
       (CustomerInfo.needed_rooms CustomerInfo.default)
       (in_number_of_nights i)) ;;
  let* available_rooms := read (collect_rooms (Hotels m) []) in
  let choice := in_room_choice i in
  if (choice =? -1) || (choice >? int_of_size available_rooms) then
    ret None
  else
    let* r := lift (index available_rooms (int_wrap (choice - 1))) in
    assign as_FoundRoomInfo VFoundRoomInfo (Some cr) r ;;
    let* chosen := read (deref as_FoundRoomInfo (Some cr)) in
    ReservationFactory this (FoundRoomInfo.hotel chosen).

End MakeReservation.

(** ** The Itinerary builder (Itinerary_Builder.cpp)

    Its two members are set by the constructor and never reassigned (copies
    and moves are deleted): the object is the pair of its two pointers. *)

Module ItineraryBuilder.

Record t : Type := mk {
  it : ptr;
  reserve : ptr }.

(** [ItineraryBuilder()]. *)
Definition ctor : M t :=
  let* i := new (OItinerary []) in
  Itinerary.ctor i ;;
  let* r := new (OMakeReservation [] [] None None None None) in
  MakeReservation.ctor r ;;
  ret (mk (Some i) (Some r)).

(** [addFlight()]: with no reservation returned, nothing is added; otherwise
    a clone of the reservation is added to the Itinerary, and the
    reservation is destroyed with the local that owns it. *)
Definition addFlight (fuel : nat) (this : t)
  (i : MakeReservation.flight_input) : M unit :=
  match reserve this with
  | None => undefined
  | Some r =>
      let* reservation := MakeReservation.reservingFlight r i in
      match reservation with
      | None => ret tt
      | Some q =>
          match it this with
          | None => undefined
          | Some itinerary =>
              Itinerary.addReservation (Reservation.clone fuel) itinerary
                reservation ;;
              Reservation.destroy fuel q
          end
      end
  end.

(** [addHotel()]. *)
Definition addHotel (fuel : nat) (this : t)
  (i : MakeReservation.room_input) : M unit :=
  match reserve this with
  | None => undefined
  | Some r =>
      let* reservation := MakeReservation.reservingRoom r i in
      match reservation with
      | None => ret tt
      | Some q =>
          match it this with
          | None => undefined
          | Some itinerary =>
              Itinerary.addReservation (Reservation.clone fuel) itinerary
                reservation ;;
              Reservation.destroy fuel q
          end
      end
  end.

Definition clearItinerary (fuel : nat) (this : t) : M unit :=
  match it this with
  | None => undefined
  | Some i => Itinerary.clear (Reservation.destroy fuel) i
  end.

(** [checkItinerary()]: true when the Itinerary is empty. *)
Definition checkItinerary (this : t) : R bool :=
  match it this with
  | None => fun _ => Undefined
  | Some i => Itinerary.isEmpty i
  end.

Definition getItinerary (this : t) : ptr := it this.

End ItineraryBuilder.

(** ** Users (User.cpp)

    A User is the record of its members; its member functions take it and
    return it changed. The copy and move members, which the program never
    calls (users are made by [std::make_shared<User>(username, pass,
    email)] and shared), are left out. *)

Module User.

Record t : Type := mk {
  username : string;
  password : string;
  email : string;
  Itineraries : list ptr }.

(** [User(username, password, email)]. *)
Definition ctor (username password email : string) : t :=
  mk username password email [].

Definition getUsername (this : t) : string := username this.
Definition getPassword (this : t) : string := password this.
Definition getEmail (this : t) : string := email this.

(** [dynamicCast(Reservation_ptr &&reservation)]: when the object is an
    Itinerary, [reservation] gives it up ([release()], no [delete]) and a
    copy of it is returned; otherwise [nullptr] is returned and
    [reservation] keeps its object. Yields the pointer returned and what
    [reservation] holds afterwards. *)
Definition dynamicCast (fuel : nat) (reservation : ptr) : M (ptr * ptr) :=
  match reservation with
  | None => ret (None, None)
  | Some l =>
      let* o := read (load l) in
      match o with
      | OItinerary _ =>
          let* q := new (OItinerary []) in
          Itinerary.copy_ctor (Reservation.clone fuel) q l ;;
          ret (Some q, None)
      | _ => ret (None, reservation)
      end
  end.

(** [addItinerary(it)]: [Itineraries.push_back(dynamicCast(std::move(
    it->clone())))]; the temporary returned by [clone()] is destroyed at the
    end of the statement, with the object it still holds, if any. *)
Definition addItinerary (fuel : nat) (this : t) (it : ptr) : M t :=
  match it with
  | None => undefined
  | Some l =>
      let* c := Reservation.clone fuel l in
      let* r := dynamicCast fuel (Some c) in
      match snd r with
      | Some tmp => Reservation.destroy fuel tmp
      | None => ret tt
      end ;;
      ret (mk (username this) (password this) (email this)
             (Itineraries this ++ [fst r]))
  end.

(** [std::remove(begin, end, nullptr)] then [erase]: the non-null elements,
    in order. *)
Definition remove_nullptr (v : list ptr) : list ptr :=
  List.filter (fun p => match p with Some _ => true | None => false end) v.

(** [removeItinerary(Itinerary_ptr &it)]: [it.reset()], then the null
    elements of [Itineraries] are erased. [it] is a pointer of the caller:
    the vector is private and no member function hands out a reference to
    one of its elements. Yields the User and what [it] holds afterwards. *)
Definition removeItinerary (fuel : nat) (this : t) (it : ptr) : M (t * ptr) :=
  match it with
  | Some l => Reservation.destroy fuel l
  | None => ret tt
  end ;;
  ret (mk (username this) (password this) (email this)
         (remove_nullptr (Itineraries this)), None).

(** Everything goes to [std::cout]. *)
Definition cout (items : list item) : output := map (pair to_cout) items.

(** [std::cout << *it]: [operator<<(out, it)] calls [it.getDetails] with
    [out] for its stream. *)
Definition to_std_cout (o : output) : output :=
  map (fun x => (to_cout, snd x)) o.

Definition viewMyProfile (this : t) : output :=
  cout [ Str (LF ++ "User's Profile: " ++ LF);
         Str ("----------------------" ++ LF ++ LF);
         Str "Name: "; Str (username this);
         Str (LF ++ "Email: "); Str (email this); Str (LF ++ LF) ].

(** The loop of [viewMyItineraries]. *)
Fixpoint view_each (fuel : nat) (its : list ptr) (total : double)
  : R (output * double) :=
  fun h =>
    match its with
    | [] => Val ([], total)
    | it :: rest =>
        match it with
        | None => Undefined
        | Some l =>
            let? d := Reservation.getDetails fuel l h in
            let? c := Reservation.getCost fuel l h in
            let? r := view_each fuel rest (total + c)%float h in
            Val (to_std_cout d ++ fst r, snd r)
        end
    end.

Definition viewMyItineraries (fuel : nat) (this : t) : R output :=
  fun h =>
    let? r := view_each fuel (Itineraries this) 0%float h in
    Val (fst r
         ++ cout [ Str (LF ++ "Total Cost for All Itineraries: ");
                   Dbl (snd r); Str (LF ++ LF) ]).

End User.

(** ** The user manager (User_Manager.cpp)

    The manager and the User objects it shares: [Users] and [logged_user]
    hold [shared_ptr]s, so a change made through [logged_user] is seen
    through [Users]. The User objects live in a store of their own, and a
    pointer is an address in it. Standard input is the list of the words
    still to be read. *)

Module UserManager.

Abbreviation users := (gmap loc User.t).

Record t : Type := mk {
  logged_user : ptr;
  Users : list ptr }.

(** [UserManager()]. *)
Definition ctor : t := mk None [].

(** [std::cin >> s] on a string: the next word; when there is none the
    extraction fails and [s] keeps its value, as it does on every later
    extraction. *)
Definition cin_word (s : string) (cin : list string)
  : string * list string :=
  match cin with
  | [] => (s, [])
  | word :: rest => (word, rest)
  end.

(** The loop of [checkUsernameExistence] and of [checkUserEmailExistence]:
    [true] at the first User whose [get] is the string looked for. *)
Fixpoint existence (get : User.t -> string) (us : users) (Users : list ptr)
  (wanted : string) : result bool :=
  match Users with
  | [] => Val false
  | user :: rest =>
      match user with
      | None => Undefined
      | Some l =>
          match us !! l with
          | None => Undefined
          | Some u =>
              if String.eqb wanted (get u) then Val true
              else existence get us rest wanted
          end
      end
  end.

Definition checkUsernameExistence (this : t) (us : users)
  (_username : string) : result bool :=
  existence User.getUsername us (Users this) _username.

Definition checkUserEmailExistence (this : t) (us : users)
  (_email : string) : result bool :=
  existence User.getEmail us (Users this) _email.

(** [signUpUser()]. The two checks take their argument by reference
    ([const std::string &&]): [std::move] moves nothing, and [username] and
    [email] still hold the words read when the User is made. The second
    check runs only when the first one fails. Yields the manager, the
    users, what is left of the input, and what was written on
    [std::cout]. *)
Definition signUpUser (this : t) (us : users) (cin : list string)
  : result (t * users * list string * output) :=
  let r1 := cin_word EmptyString cin in
  let r2 := cin_word EmptyString (snd r1) in
  let r3 := cin_word EmptyString (snd r2) in
  let username := fst r1 in
  let pass := fst r2 in
  let email := fst r3 in
  let out := User.cout [ Str (LF ++ "Enter User's name: ");
                         Str (LF ++ "Enter Password: ");
                         Str (LF ++ "Enter Email: ") ] in
  let? name_taken := checkUsernameExistence this us username in
  let? taken := (if name_taken : bool then Val true
                 else checkUserEmailExistence this us email) in
  if taken : bool then Val (this, us, snd r3, out)
  else
    let l := fresh (dom us) in
    Val (mk (logged_user this) (Users this ++ [Some l]),
         <[l := User.ctor username pass email]> us, snd r3, out).

(** The loop of [signInUser]: [user_input] holds the name typed until a
    User of that name is met, and from then on the word read as the
    password, against which the names of the Users that follow are
    compared. Yields [logged_user], the input left and the prompts
    written. *)
Fixpoint signIn_each (us : users) (Users : list ptr) (user_input : string)
  (logged : ptr) (cin : list string) : result (ptr * list string * output) :=
  match Users with
  | [] => Val (logged, cin, [])
  | user :: rest =>
      match user with
      | None => Undefined
      | Some l =>
          match us !! l with
          | None => Undefined
          | Some u =>
              if String.eqb (User.getUsername u) user_input then
                let r := cin_word user_input cin in
                let prompt := User.cout [ Str ("Enter Password: " ++ LF) ] in
                if String.eqb (User.getPassword u) (fst r) then
                  let? k := signIn_each us rest (fst r) user (snd r) in
                  Val (fst (fst k), snd (fst k), prompt ++ snd k)
                else Val (logged, snd r, prompt)
              else signIn_each us rest user_input logged cin
          end
      end
  end.

Definition signInUser (this : t) (us : users) (cin : list string)
  : result (t * list string * output) :=
  let r := cin_word EmptyString cin in
  let? k := signIn_each us (Users this) (fst r) (logged_user this) (snd r) in
  Val (mk (fst (fst k)) (Users this), snd (fst k),
       User.cout [ Str ("Enter User's name: " ++ LF) ] ++ snd k).

Definition logoutUser (this : t) : t := mk None (Users this).

Definition checkLoggedUser (this : t) : ptr := logged_user this.

Definition viewUserProfile (this : t) (us : users) : result output :=
  match logged_user this with
  | None => Val []
  | Some l =>
      match us !! l with
      | None => Undefined
      | Some u => Val (User.viewMyProfile u)
      end
  end.

Definition viewUserItineraries (fuel : nat) (this : t) (us : users)
  : R output :=
  fun h =>
    match logged_user this with
    | None => Val []
    | Some l =>
        match us !! l with
        | None => Undefined
        | Some u => User.viewMyItineraries fuel u h
        end
    end.

(** [addItineraryToUser(it)]: the User behind [logged_user] is changed in
    place. *)
Definition addItineraryToUser (fuel : nat) (this : t) (us : users)
  (it : ptr) : M users :=
  match logged_user this with
  | None => ret us
  | Some l =>
      match us !! l with
      | None => undefined
      | Some u =>
          let* u' := User.addItinerary fuel u it in
          ret (<[l := u']> us)
      end
  end.

(** [removeItineraryFromUser(it)]. Yields the users and what [it] holds
    afterwards. *)
Definition removeItineraryFromUser (fuel : nat) (this : t) (us : users)
  (it : ptr) : M (users * ptr) :=
  match logged_user this with
  | None => ret (us, it)
  | Some l =>
      match us !! l with
      | None => undefined
      | Some u =>
          let* r := User.removeItinerary fuel u it in
          ret (<[l := fst r]> us, snd r)
      end
  end.

End UserManager.

(** * Specification layer *)

(** ** Well-formed reservations

    The observable state of a reservation: the two records of an adapter, or
    the states of the elements of an Itinerary, in order. *)
Inductive state : Type :=
| SCanada (ci : AirCanadaCustomerInfo.t) (cf : AirCanadaFlight.t)
| STurkish (ci : TurkishCustomerInfo.t) (cf : TurkishFlight.t)
| SHilton (ci : HiltonCustomerInfo.t) (cr : HiltonRoom.t)
| SMarriott (ci : MarriottCustomerInfo.t) (cr : MarriottFoundRoom.t)
| SItinerary (elements : list state).

(** [owns h p s fp]: in the store [h], [p] is the address of a reservation
    in state [s] whose members are all non-null, and [fp] is the set of cells
    it owns, itself included. The elements of an Itinerary own disjoint
    sets of cells: no cell has two owners. *)
Inductive owns (h : heap) : loc -> state -> gset loc -> Prop :=
| owns_canada p a b ci cf :
    h !! p = Some (OCanadaFlightReservation (Some a) (Some b)) ->
    h !! a = Some (VAirCanadaCustomerInfo ci) ->
    h !! b = Some (VAirCanadaFlight cf) ->
    owns h p (SCanada ci cf) {[p; a; b]}
| owns_turkish p a b ci cf :
    h !! p = Some (OTurkishFlightReservation (Some a) (Some b)) ->
    h !! a = Some (VTurkishCustomerInfo ci) ->
    h !! b = Some (VTurkishFlight cf) ->
    owns h p (STurkish ci cf) {[p; a; b]}
| owns_hilton p a b ci cr :
    h !! p = Some (OHiltonHotelReservation (Some a) (Some b)) ->
    h !! a = Some (VHiltonCustomerInfo ci) ->
    h !! b = Some (VHiltonRoom cr) ->
    owns h p (SHilton ci cr) {[p; a; b]}
| owns_marriott p a b ci cr :
    h !! p = Some (OMarriottHotelReservation (Some a) (Some b)) ->
    h !! a = Some (VMarriottCustomerInfo ci) ->
    h !! b = Some (VMarriottFoundRoom cr) ->
    owns h p (SMarriott ci cr) {[p; a; b]}
| owns_itinerary p ps ss fp :
    h !! p = Some (OItinerary (Some <$> ps)) ->
    owns_list h ps ss fp ->
    p ∉ fp ->
    owns h p (SItinerary ss) ({[p]} ∪ fp)
with owns_list (h : heap) : list loc -> list state -> gset loc -> Prop :=
| owns_nil : owns_list h [] [] ∅
| owns_cons q qs s ss fq fqs :
    owns h q s fq ->
    owns_list h qs ss fqs ->
    fq ## fqs ->
    owns_list h (q :: qs) (s :: ss) (fq ∪ fqs).

Scheme owns_mut := Minimality for owns Sort Prop
  with owns_list_mut := Minimality for owns_list Sort Prop.

(** ** What a reservation costs and prints, as functions of its state *)

Definition flight_cost (price : double) (adults children infants : Z)
  : double :=
  (price * double_of_int (int_add (int_add adults children) infants))%float.

Definition hotel_cost (price_per_night : double)
  (number_of_nights needed_rooms : Z) : double :=
  (price_per_night * double_of_int number_of_nights
   * double_of_int needed_rooms)%float.

Fixpoint cost_of (s : state) : double :=
  match s with
  | SCanada ci cf =>
      flight_cost (AirCanadaFlight.price cf) (AirCanadaCustomerInfo.adults ci)
        (AirCanadaCustomerInfo.children ci) (AirCanadaCustomerInfo.infants ci)
  | STurkish ci cf =>
      flight_cost (TurkishFlight.cost cf) (TurkishCustomerInfo.adults ci)
        (TurkishCustomerInfo.children ci) (TurkishCustomerInfo.infants ci)
  | SHilton ci cr =>
      hotel_cost (HiltonRoom.price_per_night cr)
        (HiltonCustomerInfo.number_of_nights ci)
        (HiltonCustomerInfo.needed_rooms ci)
  | SMarriott ci cr =>
      hotel_cost (MarriottFoundRoom.price_per_night cr)
        (MarriottCustomerInfo.number_of_nights ci)
        (MarriottCustomerInfo.needed_rooms ci)
  | SItinerary ss =>
      fold_left (fun sum s' => (sum + cost_of s')%float) ss 0%float
  end.

(** The nesting depth of Itineraries in a state. *)
Fixpoint depth (s : state) : nat :=
  match s with
  | SItinerary ss => S (list_max (map depth ss))
  | _ => O
  end.

Fixpoint details_of (s : state) : output :=
  match s with
  | SCanada ci cf => CanadaFlightReservation.details ci (cost_of s)
  | STurkish ci cf => TurkishFlightReservation.details ci (cost_of s)
  | SHilton ci cr => HiltonHotelReservation.details ci (cost_of s)
  | SMarriott ci cr => MarriottHotelReservation.details ci (cost_of s)
  | SItinerary ss =>
      Itinerary.details (length ss)
        (flat_map (fun s' => details_of s' ++ [(to_cout, Str LF)]) ss)
        (cost_of s)
  end.

(** ** What the virtual calls must do *)

(** What a [clone] must do on reservations in state [s]: return a new
    reservation in the same state, made of cells that were not in use, and
    leave every cell in use as it was. *)
Definition clone_ok (vclone : loc -> M loc) (s : state) : Prop :=
  forall (h : heap) p fp,
    owns h p s fp ->
    exists q h' fq,
      vclone p h = Val (q, h') /\ h ⊆ h' /\ owns h' q s fq /\ fq ## dom h.

(** What a destructor must do on reservations in state [s]: release the
    cells the reservation owns, and leave every other cell as it was. *)
Definition destroy_ok (vdestroy : loc -> M unit) (s : state) : Prop :=
  forall (h : heap) p fp,
    owns h p s fp ->
    exists h',
      vdestroy p h = Val (tt, h')
      /\ (forall l, l ∉ fp -> h' !! l = h !! l)
      /\ (forall l, l ∈ fp -> h' !! l = None).

(** ** Registered adapters and the builder *)

(** A registered flight adapter: a non-null pointer to a Canada or a Turkish
    adapter. *)
Definition flight_adapter (h : heap) (airport : ptr) : Prop :=
  exists l, airport = Some l
    /\ ((exists a b, h !! l = Some (OCanadaFlightReservation a b))
        \/ (exists a b, h !! l = Some (OTurkishFlightReservation a b))).

(** A registered hotel adapter: a non-null pointer to a Hilton or a Marriott
    adapter that holds its criteria record. *)
Definition hotel_adapter (h : heap) (hotel : ptr) : Prop :=
  exists l, hotel = Some l
    /\ ((exists a b v, h !! l = Some (OHiltonHotelReservation (Some a) b)
                       /\ h !! a = Some (VHiltonCustomerInfo v))
        \/ (exists a b v, h !! l = Some (OMarriottHotelReservation (Some a) b)
                          /\ h !! a = Some (VMarriottCustomerInfo v))).

(** What the vendor behind an adapter offers, tagged with its brand. *)
Definition flight_offers (h : heap) (airport : ptr)
  : list FoundFlightInfo.t :=
  match airport with
  | Some l =>
      match h !! l with
      | Some (OCanadaFlightReservation _ _) =>
          map CanadaFlightReservation.tag AirCanadaOnlineAPI.getFlights
      | Some (OTurkishFlightReservation _ _) =>
          map TurkishFlightReservation.tag
            TurkishAirlineOnlineAPI.getAvailableFlights
      | _ => []
      end
  | None => []
  end.

Definition room_offers (h : heap) (hotel : ptr) : list FoundRoomInfo.t :=
  match hotel with
  | Some l =>
      match h !! l with
      | Some (OHiltonHotelReservation _ _) =>
          map HiltonHotelReservation.tag
            (HiltonHotelAPI.searchRooms HiltonCustomerInfo.default)
      | Some (OMarriottHotelReservation _ _) =>
          map MarriottHotelReservation.tag
            (MarriottHotelAPI.findRooms MarriottCustomerInfo.default)
      | _ => []
      end
  | None => []
  end.

(** A well-formed MakeReservation: its registered adapters are adapters, and
    each of its working records is null or a record of its type. *)
Definition builder (h : heap) (this : loc) (m : MakeReservation.members_t)
  : Prop :=
  MakeReservation.members this h = Val m
  /\ Forall (flight_adapter h) (MakeReservation.Airports m)
  /\ Forall (hotel_adapter h) (MakeReservation.Hotels m)
  /\ (forall l, MakeReservation.passenger_info m = Some l ->
        exists v, h !! l = Some (VPassengerInfo v))
  /\ (forall l, MakeReservation.customer_info m = Some l ->
        exists v, h !! l = Some (VCustomerInfo v))
  /\ (forall l, MakeReservation.chosen_flight m = Some l ->
        exists v, h !! l = Some (VFoundFlightInfo v))
  /\ (forall l, MakeReservation.chosen_room m = Some l ->
        exists v, h !! l = Some (VFoundRoomInfo v)).

(** The cells a registered flight adapter is read through. *)
Definition flight_cell (o : obj) : Prop :=
  match o with
  | OCanadaFlightReservation _ _ | OTurkishFlightReservation _ _ => True
  | _ => False
  end.

(** The criteria record a flight adapter keeps of a PassengerInfo. *)
Definition canada_criteria (i : PassengerInfo.t) : AirCanadaCustomerInfo.t :=
  AirCanadaCustomerInfo.mk (PassengerInfo.from i) (PassengerInfo.to i)
    (PassengerInfo.from_date i) (PassengerInfo.to_date i)
    (PassengerInfo.adults i) (PassengerInfo.children i)
    (PassengerInfo.infants i).

Definition turkish_criteria (i : PassengerInfo.t) : TurkishCustomerInfo.t :=
  TurkishCustomerInfo.mk (PassengerInfo.from i) (PassengerInfo.to i)
    (PassengerInfo.from_date i) (PassengerInfo.to_date i)
    (PassengerInfo.adults i) (PassengerInfo.children i)
    (PassengerInfo.infants i).

(** The flight record a flight adapter keeps of a chosen FoundFlightInfo. *)
Definition canada_flight (f : FoundFlightInfo.t) : AirCanadaFlight.t :=
  AirCanadaFlight.mk (FoundFlightInfo.price f) (FoundFlightInfo.from_date f)
    (FoundFlightInfo.to_date f).

Definition turkish_flight (f : FoundFlightInfo.t) : TurkishFlight.t :=
  TurkishFlight.mk (FoundFlightInfo.price f) (FoundFlightInfo.from_date f)
    (FoundFlightInfo.to_date f).

(** The cells a registered hotel adapter is read through. *)
Definition hotel_cell (o : obj) : Prop :=
  match o with
  | OHiltonHotelReservation _ _ | OMarriottHotelReservation _ _
  | VHiltonCustomerInfo _ | VMarriottCustomerInfo _ => True
  | _ => False
  end.

(** The criteria record a hotel adapter keeps of a CustomerInfo. *)
Definition hilton_criteria (i : CustomerInfo.t) : HiltonCustomerInfo.t :=
  HiltonCustomerInfo.mk (CustomerInfo.country i) (CustomerInfo.city i)
    (CustomerInfo.from_date i) (CustomerInfo.to_date i)
    (CustomerInfo.needed_rooms i) (CustomerInfo.adults i)
    (CustomerInfo.children i) (CustomerInfo.number_of_nights i).

Definition marriott_criteria (i : CustomerInfo.t) : MarriottCustomerInfo.t :=
  MarriottCustomerInfo.mk (CustomerInfo.country i) (CustomerInfo.city i)
    (CustomerInfo.from_date i) (CustomerInfo.to_date i)
    (CustomerInfo.needed_rooms i) (CustomerInfo.adults i)
    (CustomerInfo.children i) (CustomerInfo.number_of_nights i).

(** The room record a hotel adapter keeps of a chosen FoundRoomInfo. *)
Definition hilton_room (r : FoundRoomInfo.t) : HiltonRoom.t :=
  HiltonRoom.mk (FoundRoomInfo.view_type r)
    (HiltonRoom.available_number HiltonRoom.default)
    (FoundRoomInfo.price_for_night r) (FoundRoomInfo.from_date r)
    (FoundRoomInfo.to_date r).

Definition marriott_room (r : FoundRoomInfo.t) : MarriottFoundRoom.t :=
  MarriottFoundRoom.mk (FoundRoomInfo.view_type r)
    (MarriottFoundRoom.available_number MarriottFoundRoom.default)
    (FoundRoomInfo.price_for_night r) (FoundRoomInfo.from_date r)
    (FoundRoomInfo.to_date r).

(** The number of rooms asked for, in the state of a hotel adapter. *)
Definition needed_rooms_of (s : state) : option Z :=
  match s with
  | SHilton ci _ => Some (HiltonCustomerInfo.needed_rooms ci)
  | SMarriott ci _ => Some (MarriottCustomerInfo.needed_rooms ci)
  | _ => None
  end.

(** ** The workflow and the builders, as states *)

(** The state of the adapter the factory builds for a flight, by brand. *)
Definition flight_state (i : PassengerInfo.t) (f : FoundFlightInfo.t)
  : state :=
  if String.eqb (FoundFlightInfo.airline f) "Canada"
  then SCanada (canada_criteria i) (canada_flight f)
  else STurkish (turkish_criteria i) (turkish_flight f).

(** The state of the adapter the factory builds for a room, by brand. *)
Definition room_state (i : CustomerInfo.t) (r : FoundRoomInfo.t) : state :=
  if String.eqb (FoundRoomInfo.hotel r) "Hilton"
  then SHilton (hilton_criteria i) (hilton_room r)
  else SMarriott (marriott_criteria i) (marriott_room r).

(** What was typed in [reservingFlight], as the record it is stored in. *)
Definition typed_passenger (i : MakeReservation.flight_input)
  : PassengerInfo.t :=
  PassengerInfo.mk (MakeReservation.in_from_date i)
    (MakeReservation.in_to_date i) (MakeReservation.in_from i)
    (MakeReservation.in_to i) (MakeReservation.in_children i)
    (MakeReservation.in_adults i) (MakeReservation.in_infants i).

(** What was typed in [reservingRoom], as the record it is stored in. *)
Definition typed_customer (i : MakeReservation.room_input) : CustomerInfo.t :=
  CustomerInfo.mk (MakeReservation.in_date_from i)
    (MakeReservation.in_date_to i) (MakeReservation.in_country i)
    (MakeReservation.in_city i) (MakeReservation.in_room_children i)
    (MakeReservation.in_room_adults i)
    (CustomerInfo.needed_rooms CustomerInfo.default)
    (MakeReservation.in_number_of_nights i).

(** What [clone] does on reservations in state [s], with the cells it adds
    to the store: those of the clone, and no other. *)
Definition clone_exact (vclone : loc -> M loc) (s : state) : Prop :=
  forall (h : heap) p fp,
    owns h p s fp ->
    exists q h' fq,
      vclone p h = Val (q, h') /\ h ⊆ h' /\ owns h' q s fq /\ fq ## dom h
      /\ dom h' = dom h ∪ fq.

(** The cells a reservation owns hold adapters, vendor records and
    Itineraries. *)
Definition reservation_cell (o : obj) : Prop :=
  match o with
  | VAirCanadaCustomerInfo _ | VAirCanadaFlight _ | VTurkishCustomerInfo _
  | VTurkishFlight _ | VHiltonCustomerInfo _ | VHiltonRoom _
  | VMarriottCustomerInfo _ | VMarriottFoundRoom _
  | OCanadaFlightReservation _ _ | OTurkishFlightReservation _ _
  | OHiltonHotelReservation _ _ | OMarriottHotelReservation _ _
  | OItinerary _ => True
  | _ => False
  end.

(** A well-formed ItineraryBuilder: a well-formed Itinerary in state
    [SItinerary ss] and a well-formed MakeReservation. *)
Definition itinerary_builder (h : heap) (b : ItineraryBuilder.t)
  (m : MakeReservation.members_t) (ss : list state) (fi : gset loc) : Prop :=
  exists i r,
    ItineraryBuilder.it b = Some i /\ ItineraryBuilder.reserve b = Some r
    /\ owns h i (SItinerary ss) fi /\ builder h r m.

(** The cells the store holds besides those of [h0]: none but the working
    records of the builder and the cells in [f]. *)
Definition no_leak (h0 h : heap) (m : MakeReservation.members_t)
  (f : gset loc) : Prop :=
  forall l, l ∈ dom h ->
    l ∈ dom h0 \/ l ∈ f
    \/ Some l = MakeReservation.passenger_info m
    \/ Some l = MakeReservation.customer_info m
    \/ Some l = MakeReservation.chosen_flight m
    \/ Some l = MakeReservation.chosen_room m.

(** ** Accounts *)

(** [accounts] are the Users registered, in order: every pointer of [Users]
    is non-null and leads to one. *)
Definition registered (us : UserManager.users) (this : UserManager.t)
  (accounts : list User.t) : Prop :=
  Forall2 (fun p u => exists l, p = Some l /\ us !! l = Some u)
    (UserManager.Users this) accounts.

(** No two accounts share a name, and no two share an e-mail address. *)
Definition accounts_distinct (accounts : list User.t) : Prop :=
  NoDup (map User.username accounts) /\ NoDup (map User.email accounts).

Definition signUp_prompts : output :=
  User.cout [ Str (LF ++ "Enter User's name: ");
              Str (LF ++ "Enter Password: ");
              Str (LF ++ "Enter Email: ") ].

Definition name_prompt : output :=
  User.cout [ Str ("Enter User's name: " ++ LF) ].

Definition password_prompt : output :=
  User.cout [ Str ("Enter Password: " ++ LF) ].

(** ** Binary64 values *)

(** The float is zero, or finite with exponent at most [E]. *)
Definition exp_le (E : Z) (x : spec_float) : Prop :=
  match x with
  | S754_zero _ => True
  | S754_finite _ _ e => e <= E
  | _ => False
  end.

(** ** Stores to run the theorems on *)

(** A store to run the theorems on: an empty Itinerary at 1; a Canada flight at 2 (200 a seat, 2 adults and
    1 child); a Hilton room at 5 (300 a night, 3 nights, 2 rooms); an
    Itinerary at 8 holding a Turkish flight at 9 (250 a seat, 1 adult); a
    second Canada flight at 12 (250 a seat, 1 adult); an Itinerary at 15
    holding a Marriott room at 16 (320 a night, 2 nights, 1 room). *)
Definition example_store : heap :=
  list_to_map
    [ (1%positive, OItinerary []);
      (2%positive, OCanadaFlightReservation (Some 3%positive) (Some 4%positive));
      (3%positive, VAirCanadaCustomerInfo
         (AirCanadaCustomerInfo.mk "Toronto" "Istanbul" "2025-01-25"
            "2025-02-10" 2 1 0));
      (4%positive, VAirCanadaFlight
         (AirCanadaFlight.mk 200%float "25-01-2022" "10-02-2022"));
      (5%positive, OHiltonHotelReservation (Some 6%positive) (Some 7%positive));
      (6%positive, VHiltonCustomerInfo
         (HiltonCustomerInfo.mk "Egypt" "Cairo" "2025-01-25" "2025-01-28"
            2 2 1 3));
      (7%positive, VHiltonRoom
         (HiltonRoom.mk "City View" 3 300%float "29-01-2022" "10-02-2022"));
      (8%positive, OItinerary [Some 9%positive]);
      (9%positive, OTurkishFlightReservation (Some 10%positive)
                     (Some 11%positive));
      (10%positive, VTurkishCustomerInfo
         (TurkishCustomerInfo.mk "Cairo" "Istanbul" "2025-03-01"
            "2025-03-09" 1 0 0));
      (11%positive, VTurkishFlight
         (TurkishFlight.mk 250%float "29-01-2022" "10-02-2022"));
      (12%positive, OCanadaFlightReservation (Some 13%positive)
                      (Some 14%positive));
      (13%positive, VAirCanadaCustomerInfo
         (AirCanadaCustomerInfo.mk "Cairo" "Toronto" "2025-04-01"
            "2025-04-02" 1 0 0));
      (14%positive, VAirCanadaFlight
         (AirCanadaFlight.mk 250%float "29-01-2022" "10-02-2022"));
      (15%positive, OItinerary [Some 16%positive]);
      (16%positive, OMarriottHotelReservation (Some 17%positive)
                      (Some 18%positive));
      (17%positive, VMarriottCustomerInfo
         (MarriottCustomerInfo.mk "Egypt" "Giza" "2025-05-01" "2025-05-03"
            1 2 0 2));
      (18%positive, VMarriottFoundRoom
         (MarriottFoundRoom.mk "City View" 8 320%float "29-01-2022"
            "10-02-2022")) ].

Definition example_canada : state :=
  SCanada (AirCanadaCustomerInfo.mk "Toronto" "Istanbul" "2025-01-25"
             "2025-02-10" 2 1 0)
          (AirCanadaFlight.mk 200%float "25-01-2022" "10-02-2022").

Definition example_hilton : state :=
  SHilton (HiltonCustomerInfo.mk "Egypt" "Cairo" "2025-01-25" "2025-01-28"
             2 2 1 3)
          (HiltonRoom.mk "City View" 3 300%float "29-01-2022" "10-02-2022").

Definition example_turkish : state :=
  STurkish (TurkishCustomerInfo.mk "Cairo" "Istanbul" "2025-03-01"
              "2025-03-09" 1 0 0)
           (TurkishFlight.mk 250%float "29-01-2022" "10-02-2022").

(** Storage for a MakeReservation at 1, before its constructor runs. *)
Definition raw_builder_store : heap :=
  {[ 1%positive := OMakeReservation [] [] None None None None ]}.

(** A MakeReservation at 1 with no adapter registered. *)
Definition empty_builder_store : heap :=
  {[ 1%positive := OMakeReservation [] [] None None None None ]}.

(** The store after [MakeReservation()] ran on it. *)
Definition builder_store : heap :=
  match MakeReservation.ctor 1%positive raw_builder_store with
  | Val (_, h) => h
  | _ => ∅
  end.

(** Two Hilton adapters, at 1 (300 a night, 3 nights, 2 rooms) and at 4 (500
    a night, 2 nights, 1 room), and storage for a third at 7. *)
Definition hotels_store : heap :=
  list_to_map
    [ (1%positive, OHiltonHotelReservation (Some 2%positive) (Some 3%positive));
      (2%positive, VHiltonCustomerInfo
         (HiltonCustomerInfo.mk "Egypt" "Cairo" "2025-01-25" "2025-01-28"
            2 2 1 3));
      (3%positive, VHiltonRoom
         (HiltonRoom.mk "City View" 3 300%float "29-01-2022" "10-02-2022"));
      (4%positive, OHiltonHotelReservation (Some 5%positive) (Some 6%positive));
      (5%positive, VHiltonCustomerInfo
         (HiltonCustomerInfo.mk "Egypt" "Giza" "2025-05-01" "2025-05-03"
            1 2 0 2));
      (6%positive, VHiltonRoom
         (HiltonRoom.mk "Deluxe View" 8 500%float "29-01-2022" "10-02-2022"));
      (7%positive, OHiltonHotelReservation None None) ].

Definition example_hilton2 : state :=
  SHilton (HiltonCustomerInfo.mk "Egypt" "Giza" "2025-05-01" "2025-05-03"
             1 2 0 2)
          (HiltonRoom.mk "Deluxe View" 8 500%float "29-01-2022" "10-02-2022").

Definition example_canada2 : state :=
  SCanada (AirCanadaCustomerInfo.mk "Cairo" "Toronto" "2025-04-01"
             "2025-04-02" 1 0 0)
          (AirCanadaFlight.mk 250%float "29-01-2022" "10-02-2022").

Definition example_marriott : state :=
  SMarriott (MarriottCustomerInfo.mk "Egypt" "Giza" "2025-05-01" "2025-05-03"
               1 2 0 2)
            (MarriottFoundRoom.mk "City View" 8 320%float "29-01-2022"
               "10-02-2022").

(** A Hilton, a Marriott and a Turkish adapter with null members. *)
Definition moved_store : heap :=
  list_to_map
    [ (1%positive, OHiltonHotelReservation None None);
      (2%positive, OMarriottHotelReservation None None);
      (3%positive, OTurkishFlightReservation None None) ].

(** The store of a newly constructed MakeReservation, and an empty Itinerary
    at 20. *)
Definition trip_store : heap := <[20%positive := OItinerary []]> builder_store.

Definition trip_builder : ItineraryBuilder.t :=
  ItineraryBuilder.mk (Some 20%positive) (Some 1%positive).

Definition trip_members : MakeReservation.members_t :=
  MakeReservation.mk_members [Some 2%positive; Some 5%positive]
    [Some 8%positive; Some 11%positive] None None None None.

(** Toronto to Istanbul, 2 adults and 1 child, third flight of the list. *)
Definition typed_flight : MakeReservation.flight_input :=
  MakeReservation.mk_flight_input "Toronto" "2025-01-25" "Istanbul"
    "2025-02-10" 2 1 0 3.

(** The same, with the sentinel for a choice. *)
Definition typed_no_flight : MakeReservation.flight_input :=
  MakeReservation.mk_flight_input "Toronto" "2025-01-25" "Istanbul"
    "2025-02-10" 2 1 0 (-1).

(** Cairo, 2 adults and 1 child, 3 nights, second room of the list. *)
Definition typed_room : MakeReservation.room_input :=
  MakeReservation.mk_room_input "Egypt" "Cairo" "2025-01-25" "2025-01-28"
    2 1 3 2.

(** The same, with a choice above the 6 rooms of the list. *)
Definition typed_no_room : MakeReservation.room_input :=
  MakeReservation.mk_room_input "Egypt" "Cairo" "2025-01-25" "2025-01-28"
    2 1 3 7.



(** Three accounts, at 1, 2 and 3 of the users' store. The password of the
    first is the name of the third. *)
Definition amina : User.t := User.ctor "amina" "karim" "amina@mail.com".
Definition omar : User.t := User.ctor "omar" "pass2" "omar@mail.com".
Definition karim : User.t := User.ctor "karim" "pass3" "karim@mail.com".

Definition example_users : UserManager.users :=
  list_to_map [ (1%positive, amina); (2%positive, omar); (3%positive, karim) ].

Definition example_manager : UserManager.t :=
  UserManager.mk None [Some 1%positive; Some 2%positive; Some 3%positive].

(** * Proofs *)

(** ** Ownership: framing *)

Lemma owns_frame_mut (h h' : heap) :
  (forall p s fp, owns h p s fp ->
     (forall l, l ∈ fp -> h' !! l = h !! l) -> owns h' p s fp).
Proof.
  apply (owns_mut h
    (fun p s fp => (forall l, l ∈ fp -> h' !! l = h !! l) -> owns h' p s fp)
    (fun ps ss fp =>
       (forall l, l ∈ fp -> h' !! l = h !! l) -> owns_list h' ps ss fp)).
  - intros p a b ci cf Hp Ha Hb E. constructor; rewrite E; auto; set_solver.
  - intros p a b ci cf Hp Ha Hb E. constructor; rewrite E; auto; set_solver.
  - intros p a b ci cf Hp Ha Hb E. constructor; rewrite E; auto; set_solver.
  - intros p a b ci cf Hp Ha Hb E. constructor; rewrite E; auto; set_solver.
  - intros p ps ss fp Hp _ IH Hn E. apply owns_itinerary with (ps := ps); auto.
    + rewrite E; auto. set_solver.
    + apply IH. intros l Hl. apply E. set_solver.
  - intros _. constructor.
  - intros q qs s ss fq fqs _ IH1 _ IH2 D E. constructor; auto.
    + apply IH1. intros l Hl. apply E. set_solver.
    + apply IH2. intros l Hl. apply E. set_solver.
Qed.

Lemma owns_list_frame (h h' : heap) ps ss fp :
  owns_list h ps ss fp ->
  (forall l, l ∈ fp -> h' !! l = h !! l) -> owns_list h' ps ss fp.
Proof.
  induction 1 as [|q qs s ss fq fqs Hq Hqs IH D]; intros E.
  - constructor.
  - constructor; auto.
    + eapply owns_frame_mut; eauto. intros l Hl. apply E. set_solver.
    + apply IH. intros l Hl. apply E. set_solver.
Qed.

Lemma owns_root (h : heap) p s fp : owns h p s fp -> p ∈ fp.
Proof. destruct 1; set_solver. Qed.

Lemma owns_dom_mut (h : heap) :
  forall p s fp, owns h p s fp -> forall l, l ∈ fp -> is_Some (h !! l).
Proof.
  apply (owns_mut h
    (fun p s fp => forall l, l ∈ fp -> is_Some (h !! l))
    (fun ps ss fp => forall l, l ∈ fp -> is_Some (h !! l))).
  1-4: intros p a b ci cf Hp Ha Hb l Hl;
       assert (l = p \/ l = a \/ l = b) as [E|[E|E]] by set_solver;
       rewrite E; eauto.
  - intros p ps ss fp Hp _ IH Hn l Hl.
    assert (l = p \/ l ∈ fp) as [E|?] by set_solver; [rewrite E|]; eauto.
  - intros l Hl. set_solver.
  - intros q qs s ss fq fqs _ IH1 _ IH2 D l Hl.
    assert (l ∈ fq \/ l ∈ fqs) as [?|?] by set_solver; eauto.
Qed.

Lemma owns_list_dom (h : heap) ps ss fp :
  owns_list h ps ss fp -> forall l, l ∈ fp -> is_Some (h !! l).
Proof.
  induction 1 as [|q qs s ss fq fqs Hq Hqs IH D]; intros l Hl.
  - set_solver.
  - assert (l ∈ fq \/ l ∈ fqs) as [?|?] by set_solver; eauto using owns_dom_mut.
Qed.

(** A store that extends another keeps its reservations. *)
Lemma owns_weaken (h h' : heap) p s fp :
  h ⊆ h' -> owns h p s fp -> owns h' p s fp.
Proof.
  intros Hsub Ho. eapply owns_frame_mut; eauto.
  intros l Hl. destruct (owns_dom_mut h p s fp Ho l Hl) as [o Hlo].
  rewrite Hlo. eapply lookup_weaken; eauto.
Qed.

Lemma owns_list_weaken (h h' : heap) ps ss fp :
  h ⊆ h' -> owns_list h ps ss fp -> owns_list h' ps ss fp.
Proof.
  intros Hsub Ho. eapply owns_list_frame; eauto.
  intros l Hl. destruct (owns_list_dom h ps ss fp Ho l Hl) as [o Hlo].
  rewrite Hlo. eapply lookup_weaken; eauto.
Qed.

Lemma owns_list_length (h : heap) ps ss fp :
  owns_list h ps ss fp -> length ps = length ss.
Proof. induction 1; simpl; auto. Qed.

Lemma depth_element (s : state) (ss : list state) :
  In s ss -> (depth s < depth (SItinerary ss))%nat.
Proof.
  intros Hin. simpl.
  assert (Forall (fun k => (k <= list_max (map depth ss))%nat) (map depth ss))
    as HF by (apply list_max_le; lia).
  rewrite List.Forall_forall in HF.
  specialize (HF (depth s) (in_map depth ss s Hin)). lia.
Qed.

(** ** [getCost] and [getDetails] on a well-formed reservation *)

Ltac use_lookups :=
  repeat match goal with
         | H : ?h !! ?l = Some _ |- context [?h !! ?l] => rewrite H
         end.

(** Runs a const member function on a store whose lookups are known. *)
Ltac run_reader :=
  repeat (cbn [rbind fst snd as_AirCanadaCustomerInfo as_AirCanadaFlight
                 as_TurkishCustomerInfo as_TurkishFlight as_HiltonCustomerInfo
                 as_HiltonRoom as_MarriottCustomerInfo as_MarriottFoundRoom
                 as_PassengerInfo as_FoundFlightInfo as_CustomerInfo
                 as_FoundRoomInfo];
          use_lookups).

Lemma for_each_Sum_owns (v : loc -> R double) (h : heap) ps ss fp :
  owns_list h ps ss fp ->
  (forall q s fq, owns h q s fq -> In s ss -> v q h = Val (cost_of s)) ->
  forall sum,
    Itinerary.for_each_Sum v (Some <$> ps) sum h
    = Val (fold_left (fun a s' => (a + cost_of s')%float) ss sum).
Proof.
  induction 1 as [|q qs s ss fq fqs Hq Hqs IH D]; intros Hv sum.
  - reflexivity.
  - rewrite fmap_cons. cbn [Itinerary.for_each_Sum fold_left].
    rewrite (Hv q s fq Hq) by (left; reflexivity). cbn [rbind].
    apply IH. intros q' s' fq' Ho Hin. eapply Hv; eauto. right; auto.
Qed.

Lemma getCost_owns (fuel : nat) :
  forall (h : heap) p s fp,
    owns h p s fp -> (depth s < fuel)%nat ->
    Reservation.getCost fuel p h = Val (cost_of s).
Proof.
  induction fuel as [|n IH]; intros h p s fp Ho Hd; [lia|].
  destruct Ho as [p a b ci cf Hp Ha Hb|p a b ci cf Hp Ha Hb
                 |p a b ci cf Hp Ha Hb|p a b ci cf Hp Ha Hb
                 |p ps ss fp Hp Hl Hn]; simpl; rewrite Hp.
  - unfold CanadaFlightReservation.getCost, CanadaFlightReservation.members,
      deref. run_reader. reflexivity.
  - unfold TurkishFlightReservation.getCost, TurkishFlightReservation.members,
      deref. run_reader. reflexivity.
  - unfold HiltonHotelReservation.getCost, HiltonHotelReservation.members,
      deref. run_reader. reflexivity.
  - unfold MarriottHotelReservation.getCost,
      MarriottHotelReservation.members, deref. run_reader. reflexivity.
  - unfold Itinerary.getCost, Itinerary.Reservations. rewrite Hp. simpl.
    eapply for_each_Sum_owns; eauto.
    intros q s fq Ho Hin. eapply IH; eauto.
    pose proof (depth_element s ss Hin). lia.
Qed.

Lemma details_each_owns (v : loc -> R output) (h : heap) ps ss fp :
  owns_list h ps ss fp ->
  (forall q s fq, owns h q s fq -> In s ss -> v q h = Val (details_of s)) ->
  Itinerary.details_each v (Some <$> ps) h
  = Val (flat_map (fun s' => details_of s' ++ [(to_cout, Str LF)]) ss).
Proof.
  induction 1 as [|q qs s ss fq fqs Hq Hqs IH D]; intros Hv.
  - reflexivity.
  - rewrite fmap_cons. cbn [Itinerary.details_each].
    rewrite (Hv q s fq Hq) by (left; reflexivity). cbn [rbind].
    rewrite IH by (intros q' s' fq' Ho Hin; eapply Hv; eauto; right; auto).
    cbn [rbind flat_map]. rewrite <- app_assoc. reflexivity.
Qed.

Lemma getDetails_owns (fuel : nat) :
  forall (h : heap) p s fp,
    owns h p s fp -> (depth s < fuel)%nat ->
    Reservation.getDetails fuel p h = Val (details_of s).
Proof.
  induction fuel as [|n IH]; intros h p s fp Ho Hd; [lia|].
  pose proof (getCost_owns (S n) h p s fp Ho Hd) as Hc.
  destruct Ho as [p a b ci cf Hp Ha Hb|p a b ci cf Hp Ha Hb
                 |p a b ci cf Hp Ha Hb|p a b ci cf Hp Ha Hb
                 |p ps ss fp Hp Hl Hn]; simpl in Hc |- *; rewrite Hp in Hc |- *.
  - unfold CanadaFlightReservation.getDetails. rewrite Hc.
    unfold CanadaFlightReservation.members, deref. run_reader. reflexivity.
  - unfold TurkishFlightReservation.getDetails. rewrite Hc.
    unfold TurkishFlightReservation.members, deref. run_reader. reflexivity.
  - unfold HiltonHotelReservation.getDetails. rewrite Hc.
    unfold HiltonHotelReservation.members, deref. run_reader. reflexivity.
  - unfold MarriottHotelReservation.getDetails. rewrite Hc.
    unfold MarriottHotelReservation.members, deref. run_reader. reflexivity.
  - unfold Itinerary.getDetails. rewrite Hc.
    unfold Itinerary.Reservations. rewrite Hp. simpl.
    erewrite details_each_owns; eauto.
    + simpl. rewrite length_fmap. rewrite (owns_list_length _ _ _ _ Hl).
      reflexivity.
    + intros q s fq Ho Hin. eapply IH; eauto.
      pose proof (depth_element s ss Hin). simpl in *. lia.
Qed.

(** ** Running the store operations *)

Lemma new_fresh (o : obj) (h : heap) :
  exists l, h !! l = None /\ new o h = Val (l, <[l := o]> h).
Proof.
  exists (fresh (dom h)). split; [|reflexivity].
  apply not_elem_of_dom. apply is_fresh.
Qed.

(** Disequalities of addresses, from what the store holds at them. *)
Ltac ne := first [ assumption | apply not_eq_sym; assumption | congruence ].

(** Lookups through the updates made so far. *)
Ltac lookups :=
  repeat first
    [ rewrite lookup_insert_eq
    | rewrite lookup_insert_ne by ne
    | rewrite lookup_delete_eq
    | rewrite lookup_delete_ne by ne
    | match goal with
      | H : ?h !! ?l = _ |- context [?h !! ?l] => rewrite H
      end ].

(** Splits a freshness fact about an updated store into facts about the
    store it was built from. *)
Ltac split_fresh H :=
  repeat match type of H with
         | <[_ := _]> _ !! _ = None =>
             let N := fresh "N" in
             apply lookup_insert_None in H; destruct H as [H N]
         end.

(** One allocation. *)
Ltac alloc l Hl :=
  match goal with
  | |- context [new ?o ?h] =>
      let E := fresh "E" in
      destruct (new_fresh o h) as (l & Hl & E); rewrite E; clear E;
      split_fresh Hl
  end.

(** Reductions of the monad and of the record projections. *)
Ltac mred :=
  unfold bind, ret, read, lift, undefined;
  cbn [rbind fst snd
       as_AirCanadaCustomerInfo as_AirCanadaFlight
       as_TurkishCustomerInfo as_TurkishFlight as_HiltonCustomerInfo
       as_HiltonRoom as_MarriottCustomerInfo as_MarriottFoundRoom
       as_PassengerInfo as_FoundFlightInfo as_CustomerInfo as_FoundRoomInfo].

Ltac mrun := repeat (mred; lookups).

(** The closing steps shared by the four adapters: the three cells of the
    copy are new, and hold what the original holds. *)
Ltac adapter_clone_done q a' b' :=
  exists q; eexists; exists {[q; a'; b']};
  split; [reflexivity|];
  split; [apply map_subseteq_spec; intros ? ? ?; lookups; auto|];
  split; [constructor; lookups; auto|];
  repeat match goal with
         | H : _ !! _ = None |- _ => apply not_elem_of_dom in H
         end;
  set_solver.

Lemma Canada_clone_ok ci cf :
  clone_ok CanadaFlightReservation.clone (SCanada ci cf).
Proof.
  intros h p fp Ho. inversion Ho as [? a b ? ? Hp Ha Hb| | | |]; subst.
  unfold CanadaFlightReservation.clone, CanadaFlightReservation.copy_ctor,
    CanadaFlightReservation.ctor. mred.
  alloc q Hq. mred. alloc a' Ha'. mred. alloc b' Hb'.
  unfold store, CanadaFlightReservation.members, deref, assign. mrun.
  adapter_clone_done q a' b'.
Qed.

Lemma Turkish_clone_ok ci cf :
  clone_ok TurkishFlightReservation.clone (STurkish ci cf).
Proof.
  intros h p fp Ho. inversion Ho as [|? a b ? ? Hp Ha Hb| | |]; subst.
  unfold TurkishFlightReservation.clone, TurkishFlightReservation.copy_ctor,
    TurkishFlightReservation.copy_members, TurkishFlightReservation.ctor.
  mred. alloc q Hq. mred. alloc a' Ha'. mred. alloc b' Hb'.
  unfold store, TurkishFlightReservation.members, deref, assign. mrun.
  adapter_clone_done q a' b'.
Qed.

Lemma Hilton_clone_ok ci cr :
  clone_ok HiltonHotelReservation.clone (SHilton ci cr).
Proof.
  intros h p fp Ho. inversion Ho as [| |? a b ? ? Hp Ha Hb| |]; subst.
  unfold HiltonHotelReservation.clone, HiltonHotelReservation.copy_ctor,
    HiltonHotelReservation.copy_members, HiltonHotelReservation.ctor.
  mred. alloc q Hq. mred. alloc a' Ha'. mred. alloc b' Hb'.
  unfold store, HiltonHotelReservation.members, deref, assign. mrun.
  adapter_clone_done q a' b'.
Qed.

Lemma Marriott_clone_ok ci cr :
  clone_ok MarriottHotelReservation.clone (SMarriott ci cr).
Proof.
  intros h p fp Ho. inversion Ho as [| | |? a b ? ? Hp Ha Hb|]; subst.
  unfold MarriottHotelReservation.clone, MarriottHotelReservation.copy_ctor,
    MarriottHotelReservation.copy_members, MarriottHotelReservation.ctor.
  mred. alloc q Hq. mred. alloc a' Ha'. mred. alloc b' Hb'.
  unfold store, MarriottHotelReservation.members, deref, assign. mrun.
  adapter_clone_done q a' b'.
Qed.

(** ** [addReservation] *)

Lemma owns_list_snoc (h : heap) ps ss fp c t fc :
  owns_list h ps ss fp -> owns h c t fc -> fp ## fc ->
  owns_list h (ps ++ [c]) (ss ++ [t]) (fp ∪ fc).
Proof.
  induction 1 as [|q qs s ss fq fqs Hq Hqs IH D]; intros Hc Hd; simpl.
  - replace (∅ ∪ fc) with (fc ∪ ∅) by set_solver.
    constructor; [assumption|constructor|set_solver].
  - replace (fq ∪ fqs ∪ fc) with (fq ∪ (fqs ∪ fc)) by set_solver.
    constructor; [assumption|apply IH; auto; set_solver|set_solver].
Qed.

Lemma owns_list_elements (h : heap) ps ss fp :
  owns_list h ps ss fp ->
  Forall2 (fun p s => exists fq, owns h p s fq /\ fq ⊆ fp) ps ss.
Proof.
  induction 1 as [|q qs s ss fq fqs Hq Hqs IH D]; constructor.
  - exists fq. split; auto. set_solver.
  - eapply Forall2_impl; [exact IH|]. intros p' s' (f & ? & ?).
    exists f. split; auto. set_solver.
Qed.

(** One [addReservation]: a clone of [item] is appended; the Itinerary owns
    it; no other cell in use changes. *)
Lemma addReservation_owns (vclone : loc -> M loc) (h : heap)
  this ps ss fp item t fr :
  h !! this = Some (OItinerary (Some <$> ps)) ->
  owns_list h ps ss fp -> this ∉ fp ->
  owns h item t fr -> clone_ok vclone t ->
  exists h' c fc,
    Itinerary.addReservation vclone this (Some item) h = Val (tt, h')
    /\ h' !! this = Some (OItinerary (Some <$> (ps ++ [c])))
    /\ owns_list h' (ps ++ [c]) (ss ++ [t]) (fp ∪ fc)
    /\ fc ## dom h
    /\ (forall l o, h !! l = Some o -> l <> this -> h' !! l = Some o)
    /\ owns h' c t fc.
Proof.
  intros Hthis Hl Hn Hitem Hok.
  destruct (Hok h item fr Hitem) as (c & h1 & fc & E & Hsub & Hc & Hfc).
  assert (this ∈ dom h) as Hdom by (apply elem_of_dom; eauto).
  assert (this ∉ fc) as Hnc by set_solver.
  assert (h1 !! this = Some (OItinerary (Some <$> ps))) as Hthis1
    by (eapply lookup_weaken; eauto).
  unfold Itinerary.addReservation. mred. rewrite E. mred.
  unfold Itinerary.Reservations, store. mrun.
  eexists. exists c, fc. split; [reflexivity|].
  assert (owns (<[this := OItinerary ((Some <$> ps) ++ [Some c])]> h1) c t fc)
    as Hc2.
  { eapply owns_frame_mut; [exact Hc|].
    intros l Hin. rewrite lookup_insert_ne; auto. intros ->. auto. }
  split; [|split; [|split; [|split]]].
  - lookups. rewrite fmap_app. reflexivity.
  - apply owns_list_snoc.
    + eapply owns_list_frame; [eapply owns_list_weaken; eauto|].
      intros l Hin. rewrite lookup_insert_ne; auto. intros ->. auto.
    + exact Hc2.
    + intros l H1 H2. apply (Hfc l); auto.
      apply elem_of_dom. eapply owns_list_dom; eauto.
  - auto.
  - intros l o Hlo Hne. rewrite lookup_insert_ne by auto.
    eapply lookup_weaken; eauto.
  - exact Hc2.
Qed.

(** The loop over the elements of a source vector. *)
Lemma addReservations_owns (vclone : loc -> M loc) :
  forall rs ts (h : heap) this ps ss fp,
    h !! this = Some (OItinerary (Some <$> ps)) ->
    owns_list h ps ss fp -> this ∉ fp ->
    Forall2 (fun r t => exists fr, owns h r t fr /\ this ∉ fr) rs ts ->
    Forall (clone_ok vclone) ts ->
    exists h' cs fcs,
      Itinerary.addReservations vclone this (Some <$> rs) h = Val (tt, h')
      /\ h' !! this = Some (OItinerary (Some <$> (ps ++ cs)))
      /\ owns_list h' (ps ++ cs) (ss ++ ts) (fp ∪ fcs)
      /\ fcs ## dom h
      /\ (forall l o, h !! l = Some o -> l <> this -> h' !! l = Some o).
Proof.
  induction rs as [|r rs IH]; intros ts h this ps ss fp Hthis Hl Hn Hsrc Hok.
  - inversion Hsrc; subst. exists h, [], ∅. simpl.
    rewrite !app_nil_r. replace (fp ∪ ∅) with fp by set_solver.
    repeat split; auto. set_solver.
  - inversion Hsrc as [|? t ? ts' (fr & Hr & Hnr) Hrest]; subst.
    inversion Hok as [|? ? Hokt Hokts]; subst.
    destruct (addReservation_owns vclone h this ps ss fp r t fr)
      as (h1 & c & fc & E1 & Hthis1 & Hl1 & Hfc & Hkeep & _); auto.
    assert (this ∈ dom h) as Hdom by (apply elem_of_dom; eauto).
    assert (this ∉ fp ∪ fc) as Hn1 by set_solver.
    assert (Forall2 (fun r t => exists fr, owns h1 r t fr /\ this ∉ fr) rs ts')
      as Hsrc1.
    { eapply Forall2_impl; [exact Hrest|]. intros r' t' (f & Ho & Hnf).
      exists f. split; auto. eapply owns_frame_mut; [exact Ho|].
      intros l Hin. destruct (owns_dom_mut h r' t' f Ho l Hin) as [o Hlo].
      rewrite Hlo. apply Hkeep; auto. intros ->. auto. }
    destruct (IH ts' h1 this (ps ++ [c]) (ss ++ [t]) (fp ∪ fc))
      as (h2 & cs & fcs & E2 & Hthis2 & Hl2 & Hfcs & Hkeep2); auto.
    exists h2, (c :: cs), (fc ∪ fcs).
    rewrite fmap_cons. cbn [Itinerary.addReservations]. mred.
    rewrite E1. mred. rewrite E2.
    split; [reflexivity|]. split; [|split; [|split]].
    + rewrite Hthis2. rewrite <- app_assoc. reflexivity.
    + replace (ps ++ c :: cs) with ((ps ++ [c]) ++ cs)
        by (rewrite <- app_assoc; reflexivity).
      replace (ss ++ t :: ts') with ((ss ++ [t]) ++ ts')
        by (rewrite <- app_assoc; reflexivity).
      replace (fp ∪ (fc ∪ fcs)) with (fp ∪ fc ∪ fcs) by set_solver.
      exact Hl2.
    + assert (dom h ⊆ dom h1) as Hd.
      { intros l Hin. apply elem_of_dom in Hin as [o Hlo].
        destruct (decide (l = this)) as [->|Hne].
        - apply elem_of_dom. eauto.
        - apply elem_of_dom. erewrite Hkeep; eauto. }
      set_solver.
    + intros l o Hlo Hne. apply Hkeep2; auto.
Qed.

(** ** [clone] on a well-formed reservation *)

Lemma clone_owns (fuel : nat) :
  forall s, (depth s < fuel)%nat -> clone_ok (Reservation.clone fuel) s.
Proof.
  induction fuel as [|n IH]; intros s Hd; [lia|].
  intros h p fp Ho.
  destruct s as [ci cf|ci cf|ci cr|ci cr|ss].
  - destruct (Canada_clone_ok ci cf h p fp Ho) as (q & h' & fq & E & R).
    inversion Ho; subst. exists q, h', fq. split; auto.
    simpl. use_lookups. exact E.
  - destruct (Turkish_clone_ok ci cf h p fp Ho) as (q & h' & fq & E & R).
    inversion Ho; subst. exists q, h', fq. split; auto.
    simpl. use_lookups. exact E.
  - destruct (Hilton_clone_ok ci cr h p fp Ho) as (q & h' & fq & E & R).
    inversion Ho; subst. exists q, h', fq. split; auto.
    simpl. use_lookups. exact E.
  - destruct (Marriott_clone_ok ci cr h p fp Ho) as (q & h' & fq & E & R).
    inversion Ho; subst. exists q, h', fq. split; auto.
    simpl. use_lookups. exact E.
  - inversion Ho as [| | | |? ps ? fps Hp Hl Hn]; subst.
    cbn [Reservation.clone]. rewrite Hp.
    unfold Itinerary.clone, Itinerary.copy_ctor, Itinerary.ctor. mred.
    alloc q Hq. unfold store, Itinerary.Reservations. mrun.
    rewrite insert_insert_eq.
    set (h1 := <[q := OItinerary []]> h).
    assert (h ⊆ h1) as Hsub by (apply insert_subseteq; auto).
    assert (q ∉ dom h) as Hqd by (apply not_elem_of_dom; auto).
    destruct (addReservations_owns (Reservation.clone n) ps ss h1 q [] [] ∅)
      as (h2 & cs & fcs & E & Hq2 & Hl2 & Hfcs & Hkeep).
    + unfold h1. lookups. reflexivity.
    + constructor.
    + set_solver.
    + eapply Forall2_impl; [apply (owns_list_elements h ps ss fps Hl)|].
      intros r t (f & Hr & Hf). exists f. split.
      * eapply owns_weaken; eauto.
      * intros Hin. apply Hqd. apply elem_of_dom.
        eapply owns_dom_mut; eauto.
    + apply List.Forall_forall. intros t Hin. apply IH.
      pose proof (depth_element t ss Hin). lia.
    + rewrite E. mred. simpl in Hq2, Hl2.
      assert (dom h1 = {[q]} ∪ dom h) as Hd1 by (unfold h1; apply dom_insert_L).
      exists q, h2, ({[q]} ∪ fcs). split; [reflexivity|].
      split; [|split].
      * apply map_subseteq_spec. intros l o Hlo. apply Hkeep.
        -- eapply lookup_weaken; eauto.
        -- intros ->. congruence.
      * replace (∅ ∪ fcs) with fcs in Hl2 by set_solver.
        apply owns_itinerary with (ps := cs); auto. set_solver.
      * set_solver.
Qed.

(** ** Destruction of a well-formed reservation *)

Ltac adapter_destroy_done p a b :=
  eexists; split; [reflexivity|]; split; intros l Hl;
  [ rewrite !lookup_delete_ne by set_solver; reflexivity
  | assert (l = p \/ l = a \/ l = b) as [E|[E|E]] by set_solver;
    rewrite E; lookups; reflexivity ].

Lemma Canada_destroy_ok ci cf :
  destroy_ok CanadaFlightReservation.destroy (SCanada ci cf).
Proof.
  intros h p fp Ho. inversion Ho as [? a b ? ? Hp Ha Hb| | | |]; subst.
  unfold CanadaFlightReservation.destroy, CanadaFlightReservation.members,
    reset, free. mrun.
  adapter_destroy_done p a b.
Qed.

Lemma Turkish_destroy_ok ci cf :
  destroy_ok TurkishFlightReservation.destroy (STurkish ci cf).
Proof.
  intros h p fp Ho. inversion Ho as [|? a b ? ? Hp Ha Hb| | |]; subst.
  unfold TurkishFlightReservation.destroy, TurkishFlightReservation.members,
    reset, free. mrun.
  adapter_destroy_done p a b.
Qed.

Lemma Hilton_destroy_ok ci cr :
  destroy_ok HiltonHotelReservation.destroy (SHilton ci cr).
Proof.
  intros h p fp Ho. inversion Ho as [| |? a b ? ? Hp Ha Hb| |]; subst.
  unfold HiltonHotelReservation.destroy, HiltonHotelReservation.members,
    reset, free. mrun.
  adapter_destroy_done p a b.
Qed.

Lemma Marriott_destroy_ok ci cr :
  destroy_ok MarriottHotelReservation.destroy (SMarriott ci cr).
Proof.
  intros h p fp Ho. inversion Ho as [| | |? a b ? ? Hp Ha Hb|]; subst.
  unfold MarriottHotelReservation.destroy, MarriottHotelReservation.members,
    reset, free. mrun.
  adapter_destroy_done p a b.
Qed.

Lemma destroy_each_owns (vdestroy : loc -> M unit) :
  forall ps ss (h : heap) fp,
    owns_list h ps ss fp ->
    Forall (destroy_ok vdestroy) ss ->
    exists h',
      Itinerary.destroy_each vdestroy (Some <$> ps) h = Val (tt, h')
      /\ (forall l, l ∉ fp -> h' !! l = h !! l)
      /\ (forall l, l ∈ fp -> h' !! l = None).
Proof.
  induction ps as [|q qs IH]; intros ss h fp Hl Hok.
  - inversion Hl; subst. exists h. simpl. repeat split; auto; set_solver.
  - inversion Hl as [|? ? s ss' fq fqs Hq Hqs D]; subst.
    inversion Hok as [|? ? Hs Hss]; subst.
    destruct (Hs h q fq Hq) as (h1 & E1 & Hout1 & Hin1).
    destruct (IH ss' h1 fqs) as (h2 & E2 & Hout2 & Hin2); auto.
    { eapply owns_list_frame; [exact Hqs|].
      intros l Hin. apply Hout1. set_solver. }
    exists h2. rewrite fmap_cons. cbn [Itinerary.destroy_each]. mred.
    rewrite E1. mred. rewrite E2. split; [reflexivity|]. split; intros l Hin.
    + rewrite Hout2 by set_solver. apply Hout1. set_solver.
    + destruct (decide (l ∈ fqs)) as [?|Hnot]; [auto|].
      rewrite Hout2 by auto. apply Hin1. set_solver.
Qed.

Lemma destroy_owns (fuel : nat) :
  forall s, (depth s < fuel)%nat -> destroy_ok (Reservation.destroy fuel) s.
Proof.
  induction fuel as [|n IH]; intros s Hd; [lia|].
  intros h p fp Ho.
  destruct s as [ci cf|ci cf|ci cr|ci cr|ss].
  - destruct (Canada_destroy_ok ci cf h p fp Ho) as (h' & E & R).
    inversion Ho; subst. exists h'. split; auto. simpl. use_lookups. exact E.
  - destruct (Turkish_destroy_ok ci cf h p fp Ho) as (h' & E & R).
    inversion Ho; subst. exists h'. split; auto. simpl. use_lookups. exact E.
  - destruct (Hilton_destroy_ok ci cr h p fp Ho) as (h' & E & R).
    inversion Ho; subst. exists h'. split; auto. simpl. use_lookups. exact E.
  - destruct (Marriott_destroy_ok ci cr h p fp Ho) as (h' & E & R).
    inversion Ho; subst. exists h'. split; auto. simpl. use_lookups. exact E.
  - inversion Ho as [| | | |? ps ? fps Hp Hl Hn]; subst.
    cbn [Reservation.destroy]. rewrite Hp.
    destruct (destroy_each_owns (Reservation.destroy n) ps ss h fps Hl)
      as (h1 & E & Hout & Hin).
    { apply List.Forall_forall. intros t Ht. apply IH.
      pose proof (depth_element t ss Ht). lia. }
    unfold Itinerary.destroy, Itinerary.Reservations. mrun. rewrite E.
    unfold store, free. mred. rewrite (Hout p Hn), Hp. mrun.
    eexists. split; [reflexivity|]. split; intros l Hl'.
    + rewrite lookup_delete_ne by set_solver.
      rewrite lookup_insert_ne by set_solver. apply Hout. set_solver.
    + destruct (decide (l = p)) as [->|Hne]; [apply lookup_delete_eq|].
      rewrite lookup_delete_ne by auto. rewrite lookup_insert_ne by auto.
      apply Hin. set_solver.
Qed.

(** * The claims *)

Lemma example_owns_canada :
  owns example_store 2%positive example_canada
    {[2%positive; 3%positive; 4%positive]}.
Proof. apply owns_canada; reflexivity. Defined.

Lemma example_owns_hilton :
  owns example_store 5%positive example_hilton
    {[5%positive; 6%positive; 7%positive]}.
Proof. apply owns_hilton; reflexivity. Defined.

Lemma example_owns_turkish :
  owns example_store 9%positive example_turkish
    {[9%positive; 10%positive; 11%positive]}.
Proof. apply owns_turkish; reflexivity. Defined.

Lemma example_owns_itinerary :
  owns example_store 8%positive (SItinerary [example_turkish])
    ({[8%positive]}
     ∪ ({[9%positive; 10%positive; 11%positive]} ∪ ∅)).
Proof.
  apply owns_itinerary with (ps := [9%positive]).
  - reflexivity.
  - apply owns_cons; [exact example_owns_turkish|apply owns_nil|set_solver].
  - set_solver.
Defined.

(** ** C1 *)

(** In-range operands: [int_add] is the sum. *)
Lemma int_wrap_in_range (z : Z) : is_int z -> int_wrap z = z.
Proof.
  unfold is_int, INT_MIN, INT_MAX, int_wrap. intros Hz.
  rewrite Z.mod_small by lia. lia.
Qed.

Lemma int_add_in_range (a b : Z) : is_int (a + b) -> int_add a b = a + b.
Proof. apply int_wrap_in_range. Qed.

(** C1. The cost of a flight adapter is the unit price of its chosen flight
    times the number of passengers of its criteria record (adults + children
    + infants, summed as [int] and converted to [double]); the cost of a hotel
    adapter is the price per night of its chosen room times the number of
    nights times the number of rooms. This holds for the member function of
    each of the four adapters and for the call through the Reservation
    interface. *)
Theorem C1_adapter_getCost :
  forall (h : heap) (x : loc) (s : state) (fp : gset loc) (fuel : nat),
    owns h x s fp ->
    (forall ci cf, s = SCanada ci cf ->
       let p := AirCanadaFlight.price cf in
       let a := AirCanadaCustomerInfo.adults ci in
       let c := AirCanadaCustomerInfo.children ci in
       let i := AirCanadaCustomerInfo.infants ci in
       CanadaFlightReservation.getCost x h
       = Val (p * double_of_int (int_add (int_add a c) i))%float
       /\ Reservation.getCost (S fuel) x h
          = Val (p * double_of_int (int_add (int_add a c) i))%float)
    /\ (forall ci cf, s = STurkish ci cf ->
       let p := TurkishFlight.cost cf in
       let a := TurkishCustomerInfo.adults ci in
       let c := TurkishCustomerInfo.children ci in
       let i := TurkishCustomerInfo.infants ci in
       TurkishFlightReservation.getCost x h
       = Val (p * double_of_int (int_add (int_add a c) i))%float
       /\ Reservation.getCost (S fuel) x h
          = Val (p * double_of_int (int_add (int_add a c) i))%float)
    /\ (forall ci cr, s = SHilton ci cr ->
       let p := HiltonRoom.price_per_night cr in
       let n := HiltonCustomerInfo.number_of_nights ci in
       let r := HiltonCustomerInfo.needed_rooms ci in
       HiltonHotelReservation.getCost x h
       = Val (p * double_of_int n * double_of_int r)%float
       /\ Reservation.getCost (S fuel) x h
          = Val (p * double_of_int n * double_of_int r)%float)
    /\ (forall ci cr, s = SMarriott ci cr ->
       let p := MarriottFoundRoom.price_per_night cr in
       let n := MarriottCustomerInfo.number_of_nights ci in
       let r := MarriottCustomerInfo.needed_rooms ci in
       MarriottHotelReservation.getCost x h
       = Val (p * double_of_int n * double_of_int r)%float
       /\ Reservation.getCost (S fuel) x h
          = Val (p * double_of_int n * double_of_int r)%float).
Proof.
  intros h x s fp fuel Ho.
  pose proof (getCost_owns (S fuel) h x s fp Ho) as Hc.
  inversion Ho as [? a b ? ? Hp Ha Hb|? a b ? ? Hp Ha Hb
                  |? a b ? ? Hp Ha Hb|? a b ? ? Hp Ha Hb|]; subst;
    (split; [|split; [|split]]); intros ci' c' E; inversion E; subst;
    cbv zeta; specialize (Hc (Nat.lt_0_succ fuel));
    (split; [|exact Hc]); simpl in Hc; rewrite Hp in Hc; exact Hc.
Qed.

Lemma C1_witness :
  CanadaFlightReservation.getCost 2%positive example_store = Val 600%float
  /\ HiltonHotelReservation.getCost 5%positive example_store
     = Val 1800%float.
Proof.
  split.
  - exact (proj1 (proj1 (C1_adapter_getCost example_store 2%positive
             example_canada _ O example_owns_canada) _ _ eq_refl)).
  - exact (proj1 (proj1 (proj2 (proj2 (C1_adapter_getCost example_store
             5%positive example_hilton _ O example_owns_hilton))) _ _
             eq_refl)).
Defined.

(** ** C5 *)

(** C5. For every well-formed reservation [x] (any of the four adapters, or an
    Itinerary, nested or not) and enough fuel for its nesting depth,
    [x.clone()] returns a reservation [c] with the same [getCost()] and the
    same [getDetails] output as [x]. The clone is deep and independent: it is
    in the same state as [x], all the cells it owns are new (so it shares no
    cell with [x]), cloning changes no cell that was in use, and whatever is
    later done to the cells of the clone leaves [x], its cost and its details
    as they were. *)
Theorem C5_clone_deep_copy :
  forall (h : heap) (x : loc) (s : state) (fp : gset loc),
    owns h x s fp ->
    exists n0 : nat, forall fuel : nat, (n0 <= fuel)%nat ->
      exists (c : loc) (h' : heap) (fc : gset loc) (cost : double)
             (out : output),
        Reservation.clone fuel x h = Val (c, h')
        /\ Reservation.getCost fuel x h = Val cost
        /\ Reservation.getCost fuel c h' = Val cost
        /\ Reservation.getDetails fuel x h = Val out
        /\ Reservation.getDetails fuel c h' = Val out
        /\ owns h' c s fc
        /\ fc ## dom h
        /\ h ⊆ h'
        /\ (forall h'' : heap,
              (forall l, l ∉ fc -> h'' !! l = h' !! l) ->
              owns h'' x s fp
              /\ Reservation.getCost fuel x h'' = Val cost
              /\ Reservation.getDetails fuel x h'' = Val out).
Proof.
  intros h x s fp Ho. exists (S (depth s)). intros fuel Hf.
  assert (depth s < fuel)%nat as Hd by lia.
  destruct (clone_owns fuel s Hd h x fp Ho) as (c & h' & fc & E & Hsub & Hc & Hfc).
  exists c, h', fc, (cost_of s), (details_of s).
  repeat split; eauto using getCost_owns, getDetails_owns.
  all: assert (owns h'' x s fp) as Ho''
    by (eapply owns_frame_mut; [eapply owns_weaken; eauto|];
        intros l Hl; apply H;
        pose proof (owns_dom_mut h x s fp Ho l Hl) as Hs;
        apply elem_of_dom in Hs; set_solver).
  all: eauto using getCost_owns, getDetails_owns.
Qed.

Lemma C5_witness :
  exists n0 : nat, forall fuel : nat, (n0 <= fuel)%nat ->
    exists (c : loc) (h' : heap) (fc : gset loc) (cost : double)
           (out : output),
      Reservation.clone fuel 8%positive example_store = Val (c, h')
      /\ Reservation.getCost fuel 8%positive example_store = Val cost
      /\ Reservation.getCost fuel c h' = Val cost
      /\ Reservation.getDetails fuel 8%positive example_store = Val out
      /\ Reservation.getDetails fuel c h' = Val out
      /\ owns h' c (SItinerary [example_turkish]) fc
      /\ fc ## dom example_store
      /\ example_store ⊆ h'
      /\ (forall h'' : heap,
            (forall l, l ∉ fc -> h'' !! l = h' !! l) ->
            owns h'' 8%positive (SItinerary [example_turkish])
              ({[8%positive]}
               ∪ ({[9%positive; 10%positive; 11%positive]} ∪ ∅))
            /\ Reservation.getCost fuel 8%positive h'' = Val cost
            /\ Reservation.getDetails fuel 8%positive h'' = Val out).
Proof.
  exact (C5_clone_deep_copy example_store 8%positive
           (SItinerary [example_turkish]) _ example_owns_itinerary).
Defined.

(** ** C6 *)

(** C6. [addReservation(item)] on a well-formed Itinerary, with [item] a
    well-formed reservation that shares no cell with it: the element appended
    at the end of the sequence is a new object [c], a clone of [item] (same
    state, made of new cells), never [item] itself. The Itinerary stays
    well-formed, so each element is owned by it alone, and it owns no cell of
    [item]. [item] is left as it was. Whatever is done later to cells that the
    Itinerary does not own (those of [item] among them), and the destruction
    of [item] in particular, leaves the cost and the details of the Itinerary
    unchanged. *)
Theorem C6_addReservation_appends_clone :
  forall (h : heap) (it : loc) (ps : list loc) (ss : list state)
         (fi : gset loc) (item : loc) (s : state) (fr : gset loc),
    owns h it (SItinerary ss) fi ->
    h !! it = Some (OItinerary (Some <$> ps)) ->
    owns h item s fr ->
    fi ## fr ->
    exists n0 : nat, forall fuel : nat, (n0 <= fuel)%nat ->
      exists (h' : heap) (c : loc) (fc : gset loc) (cost : double)
             (out : output),
        Itinerary.addReservation (Reservation.clone fuel) it (Some item) h
        = Val (tt, h')
        /\ h' !! it = Some (OItinerary (Some <$> (ps ++ [c])))
        /\ c <> item /\ h !! c = None
        /\ owns h' c s fc /\ fc ## dom h
        /\ owns h' it (SItinerary (ss ++ [s])) (fi ∪ fc)
        /\ (fi ∪ fc) ## fr
        /\ owns h' item s fr
        /\ Reservation.getCost fuel it h' = Val cost
        /\ Reservation.getDetails fuel it h' = Val out
        /\ (forall h'' : heap,
              (forall l, l ∈ fi ∪ fc -> h'' !! l = h' !! l) ->
              Reservation.getCost fuel it h'' = Val cost
              /\ Reservation.getDetails fuel it h'' = Val out)
        /\ (exists h'' : heap,
              Reservation.destroy fuel item h' = Val (tt, h'')
              /\ Reservation.getCost fuel it h'' = Val cost
              /\ Reservation.getDetails fuel it h'' = Val out).
Proof.
  intros h it ps ss fi item s fr Hit Hcell Hitem Hdisj.
  exists (S (depth (SItinerary (ss ++ [s])))). intros fuel Hf.
  assert (depth s < fuel)%nat as Hds.
  { pose proof (depth_element s (ss ++ [s])) as Hd.
    rewrite in_app_iff in Hd. specialize (Hd (or_intror (or_introl eq_refl))).
    lia. }
  inversion Hit as [| | | |? ps' ? fps Hp Hl Hn]; subst.
  assert (ps' = ps) as ->.
  { rewrite Hcell in Hp. injection Hp as Hp.
    symmetry. eapply (list_fmap_eq_inj Some); [|exact Hp].
    intros ? ? [=]; auto. }
  assert (it ∉ fr) as Hnr by set_solver.
  destruct (addReservation_owns (Reservation.clone fuel) h it ps ss fps
              item s fr Hcell Hl Hn Hitem (clone_owns fuel s Hds))
    as (h' & c & fc & E & Hcell' & Hl' & Hfc & Hkeep & Hc).
  assert (it ∈ dom h) as Hdom by (apply elem_of_dom; eauto).
  assert (forall l, l ∈ fr -> l ∈ dom h) as Hfrdom.
  { intros l Hin. apply elem_of_dom. eapply owns_dom_mut; eauto. }
  assert (owns h' it (SItinerary (ss ++ [s])) ({[it]} ∪ fps ∪ fc)) as Hit'.
  { replace ({[it]} ∪ fps ∪ fc) with ({[it]} ∪ (fps ∪ fc)) by set_solver.
    apply owns_itinerary with (ps := ps ++ [c]); auto. set_solver. }
  assert (owns h' item s fr) as Hitem'.
  { eapply owns_frame_mut; [exact Hitem|]. intros l Hin.
    destruct (owns_dom_mut h item s fr Hitem l Hin) as [o Hlo].
    rewrite Hlo. apply Hkeep; auto. intros ->. auto. }
  assert (c ∈ fc) as Hcfc by (eapply owns_root; eauto).
  assert (depth (SItinerary (ss ++ [s])) < fuel)%nat as Hdi by lia.
  exists h', c, fc, (cost_of (SItinerary (ss ++ [s]))),
    (details_of (SItinerary (ss ++ [s]))).
  split; [exact E|]. split; [exact Hcell'|].
  split. { intros ->. apply (Hfc item); auto. apply Hfrdom.
           eapply owns_root; eauto. }
  split. { apply not_elem_of_dom. intros Hin. apply (Hfc c); auto. }
  split; [exact Hc|]. split; [exact Hfc|]. split; [exact Hit'|].
  split. { intros l H1 H2. assert (l ∈ {[it]} ∪ fps \/ l ∈ fc) as [?|?]
             by set_solver; [set_solver|]. apply (Hfc l); auto. }
  split; [exact Hitem'|].
  split; [eapply getCost_owns; eauto|].
  split; [eapply getDetails_owns; eauto|].
  split.
  - intros h'' Hsame.
    assert (owns h'' it (SItinerary (ss ++ [s])) ({[it]} ∪ fps ∪ fc)) as Ho''
      by (eapply owns_frame_mut; eauto).
    split; [eapply getCost_owns; eauto|eapply getDetails_owns; eauto].
  - destruct (destroy_owns fuel s Hds h' item fr Hitem')
      as (h'' & Ed & Hout & Hin).
    exists h''. split; [exact Ed|].
    assert (owns h'' it (SItinerary (ss ++ [s])) ({[it]} ∪ fps ∪ fc)) as Ho''.
    { eapply owns_frame_mut; [exact Hit'|]. intros l Hl2. apply Hout.
      intros Hlr. assert (l ∈ {[it]} ∪ fps \/ l ∈ fc) as [?|?]
        by set_solver; [set_solver|]. apply (Hfc l); auto. }
    split; [eapply getCost_owns; eauto|eapply getDetails_owns; eauto].
Qed.

Lemma C6_witness :
  exists n0 : nat, forall fuel : nat, (n0 <= fuel)%nat ->
    exists (h' : heap) (c : loc) (fc : gset loc) (cost : double)
           (out : output),
      Itinerary.addReservation (Reservation.clone fuel) 8%positive
        (Some 2%positive) example_store = Val (tt, h')
      /\ h' !! 8%positive
         = Some (OItinerary (Some <$> ([9%positive] ++ [c])))
      /\ c <> 2%positive /\ example_store !! c = None
      /\ owns h' c example_canada fc /\ fc ## dom example_store
      /\ owns h' 8%positive (SItinerary ([example_turkish] ++ [example_canada]))
           ({[8%positive]}
            ∪ ({[9%positive; 10%positive; 11%positive]} ∪ ∅) ∪ fc)
      /\ ({[8%positive]}
          ∪ ({[9%positive; 10%positive; 11%positive]} ∪ ∅) ∪ fc)
         ## {[2%positive; 3%positive; 4%positive]}
      /\ owns h' 2%positive example_canada
           {[2%positive; 3%positive; 4%positive]}
      /\ Reservation.getCost fuel 8%positive h' = Val cost
      /\ Reservation.getDetails fuel 8%positive h' = Val out
      /\ (forall h'' : heap,
            (forall l,
               l ∈ {[8%positive]}
                   ∪ ({[9%positive; 10%positive; 11%positive]} ∪ ∅) ∪ fc ->
               h'' !! l = h' !! l) ->
            Reservation.getCost fuel 8%positive h'' = Val cost
            /\ Reservation.getDetails fuel 8%positive h'' = Val out)
      /\ (exists h'' : heap,
            Reservation.destroy fuel 2%positive h' = Val (tt, h'')
            /\ Reservation.getCost fuel 8%positive h'' = Val cost
            /\ Reservation.getDetails fuel 8%positive h'' = Val out).
Proof.
  apply (C6_addReservation_appends_clone example_store 8%positive
           [9%positive] [example_turkish] _ 2%positive example_canada _
           example_owns_itinerary eq_refl example_owns_canada).
  set_solver.
Defined.

(** ** C2 *)

Lemma fold_left_costs (ts : list state) (sum : double) :
  fold_left (fun a s' => (a + cost_of s')%float) ts sum
  = fold_left PrimFloat.add (map cost_of ts) sum.
Proof.
  revert sum. induction ts as [|t ts IH]; intros sum; simpl; auto.
Qed.

Lemma items_states (h : heap) (it : loc) (items : list loc) :
  Forall (fun r => exists s fr, owns h r s fr /\ it ∉ fr) items ->
  exists ts,
    Forall2 (fun r t => exists fr, owns h r t fr /\ it ∉ fr) items ts.
Proof.
  induction 1 as [|r rs (s & fr & Ho & Hn) _ (ts & IH)].
  - exists []. constructor.
  - exists (s :: ts). constructor; eauto.
Qed.

(** [clear()] on a well-formed Itinerary leaves it with no element. *)
Lemma clear_owns (h : heap) (it : loc) (ss : list state) (fi : gset loc)
  (fuel : nat) :
  owns h it (SItinerary ss) fi -> (depth (SItinerary ss) <= fuel)%nat ->
  exists h',
    Itinerary.clear (Reservation.destroy fuel) it h = Val (tt, h')
    /\ h' !! it = Some (OItinerary []).
Proof.
  intros Ho Hd. inversion Ho as [| | | |? ps ? fps Hp Hl Hn]; subst.
  destruct (destroy_each_owns (Reservation.destroy fuel) ps ss h fps Hl)
    as (h1 & E & Hout & Hin).
  { apply List.Forall_forall. intros t Ht. apply destroy_owns.
    pose proof (depth_element t ss Ht). lia. }
  unfold Itinerary.clear, Itinerary.Reservations. mrun. rewrite E.
  unfold store. mred. rewrite (Hout it Hn), Hp.
  eexists. split; [reflexivity|]. apply lookup_insert_eq.
Qed.

(** C2. An Itinerary that was just constructed, or just cleared, holds no
    element; an Itinerary that holds no element has [isEmpty() == true] and
    [getCost() == 0]; and after [addReservation] has been called on it for
    each of the reservations r1..rn, in this order, its [getCost()] is
    [0 + getCost(r1) + ... + getCost(rn)], summed from the left in [double]. *)
Theorem C2_itinerary_getCost_is_sum :
  (forall (h0 : heap) (it : loc) (o : obj),
     h0 !! it = Some o ->
     exists h, Itinerary.ctor it h0 = Val (tt, h)
               /\ h !! it = Some (OItinerary []))
  /\ (forall (h0 : heap) (it : loc) (ss : list state) (fi : gset loc),
        owns h0 it (SItinerary ss) fi ->
        exists n0 : nat, forall fuel : nat, (n0 <= fuel)%nat ->
          exists h, Itinerary.clear (Reservation.destroy fuel) it h0
                    = Val (tt, h)
                    /\ h !! it = Some (OItinerary []))
  /\ (forall (h : heap) (it : loc),
        h !! it = Some (OItinerary []) ->
        Itinerary.isEmpty it h = Val true
        /\ (forall fuel, Reservation.getCost (S fuel) it h = Val 0%float)
        /\ (forall items : list loc,
              Forall (fun r => exists s fr, owns h r s fr /\ it ∉ fr) items ->
              exists n0 : nat, forall fuel : nat, (n0 <= fuel)%nat ->
                exists (h' : heap) (costs : list double),
                  Forall2 (fun r c => Reservation.getCost fuel r h = Val c)
                    items costs
                  /\ Itinerary.addReservations (Reservation.clone fuel) it
                       (Some <$> items) h = Val (tt, h')
                  /\ Reservation.getCost fuel it h'
                     = Val (fold_left PrimFloat.add costs 0%float))).
Proof.
  split; [|split].
  - intros h0 it o Hcell. unfold Itinerary.ctor, store. rewrite Hcell.
    eexists. split; [reflexivity|]. apply lookup_insert_eq.
  - intros h0 it ss fi Ho. exists (depth (SItinerary ss)). intros fuel Hf.
    eapply clear_owns; eauto.
  - intros h it Hcell. split; [|split].
    + unfold Itinerary.isEmpty, Itinerary.Reservations. rewrite Hcell.
      reflexivity.
    + intros fuel. simpl. rewrite Hcell.
      unfold Itinerary.getCost, Itinerary.Reservations. rewrite Hcell.
      reflexivity.
    + intros items Hitems.
      destruct (items_states h it items Hitems) as (ts & Hts).
      exists (S (depth (SItinerary ts))). intros fuel Hf.
      assert (forall t, In t ts -> (depth t < fuel)%nat) as Hdt.
      { intros t Ht. pose proof (depth_element t ts Ht). lia. }
      destruct (addReservations_owns (Reservation.clone fuel) items ts h it
                  [] [] ∅)
        as (h' & cs & fcs & E & Hcell' & Hl' & Hfcs & Hkeep); auto.
      { constructor. }
      { set_solver. }
      { apply List.Forall_forall. intros t Ht. apply clone_owns. auto. }
      exists h', (map cost_of ts). split; [|split; [exact E|]].
      * clear - Hts Hdt. induction Hts as [|r t rs ts (fr & Ho & _) _ IH].
        -- constructor.
        -- constructor.
           ++ eapply getCost_owns; eauto. apply Hdt. left. reflexivity.
           ++ apply IH. intros t' Ht'. apply Hdt. right. exact Ht'.
      * simpl in Hcell', Hl'.
        assert (it ∈ dom h) as Hdom by (apply elem_of_dom; eauto).
        assert (owns h' it (SItinerary ts) ({[it]} ∪ (∅ ∪ fcs))) as Ho'.
        { apply owns_itinerary with (ps := cs); auto. set_solver. }
        rewrite (getCost_owns fuel h' it _ _ Ho') by lia.
        simpl. rewrite fold_left_costs. reflexivity.
Qed.

Lemma C2_witness :
  Itinerary.isEmpty 1%positive example_store = Val true
  /\ Reservation.getCost 1 1%positive example_store = Val 0%float
  /\ exists n0 : nat, forall fuel : nat, (n0 <= fuel)%nat ->
       exists (h' : heap) (costs : list double),
         Forall2 (fun r c => Reservation.getCost fuel r example_store = Val c)
           [2%positive; 5%positive] costs
         /\ Itinerary.addReservations (Reservation.clone fuel) 1%positive
              (Some <$> [2%positive; 5%positive]) example_store
            = Val (tt, h')
         /\ Reservation.getCost fuel 1%positive h'
            = Val (fold_left PrimFloat.add costs 0%float).
Proof.
  destruct (proj2 (proj2 C2_itinerary_getCost_is_sum) example_store
              1%positive eq_refl) as (He & Hz & Hsum).
  split; [exact He|]. split; [exact (Hz O)|].
  apply Hsum. repeat constructor.
  - exists example_canada, {[2%positive; 3%positive; 4%positive]}.
    split; [exact example_owns_canada|clear; set_solver].
  - exists example_hilton, {[5%positive; 6%positive; 7%positive]}.
    split; [exact example_owns_hilton|clear; set_solver].
Defined.

(** ** C7 *)

(** The move assignment of the Canada adapter changes nothing: the
    destination keeps its own two records, whatever [other] is. *)
Lemma Canada_move_assign_keeps (h : heap) (this other : loc) (a b : ptr) :
  h !! this = Some (OCanadaFlightReservation a b) ->
  CanadaFlightReservation.move_assign this other h = Val (tt, h).
Proof.
  intros Hthis. unfold CanadaFlightReservation.move_assign.
  destruct (Pos.eqb this other); [reflexivity|].
  unfold CanadaFlightReservation.members, store. mrun.
  rewrite insert_id by exact Hthis. reflexivity.
Qed.

(** The move constructors of the two flight adapters leave in the members of
    the new object whatever its storage held, and do not read [other]. *)
Lemma Canada_move_ctor_keeps (h : heap) (this other : loc) (u1 u2 : ptr) :
  h !! this = Some (OCanadaFlightReservation u1 u2) ->
  CanadaFlightReservation.move_ctor this other h = Val (tt, h).
Proof.
  intros Hthis. unfold CanadaFlightReservation.move_ctor,
    CanadaFlightReservation.members, store. mrun.
  rewrite insert_id by exact Hthis. reflexivity.
Qed.

Lemma Turkish_move_ctor_keeps (h : heap) (this other : loc) (u1 u2 : ptr) :
  h !! this = Some (OTurkishFlightReservation u1 u2) ->
  TurkishFlightReservation.move_ctor this other h = Val (tt, h).
Proof.
  intros Hthis. unfold TurkishFlightReservation.move_ctor,
    TurkishFlightReservation.members, store. mrun.
  rewrite insert_id by exact Hthis. reflexivity.
Qed.

(** C7, at a failing input. In [example_store] the Canada adapter at 12 holds
    the records 13 and 14 (cost 250) and the Canada adapter at 2 holds the
    records 3 and 4 (cost 600). After the move assignment of 2 into 12, the
    store is as before: 12 still holds its own records and costs 250, and 2
    still owns its records. A Canada or Turkish adapter move-constructed
    from 2 or 9 in new storage holds nothing of its source: its members are
    the null pointers the storage held, its [getCost] dereferences null, and
    the source keeps its records. The Hilton adapter shows what was meant:
    move-constructed from 5 it holds the records 6 and 7 and costs 1800, and
    5 is left with null members. *)
Theorem C7_flight_move_does_not_transfer :
  CanadaFlightReservation.move_assign 12%positive 2%positive example_store
  = Val (tt, example_store)
  /\ CanadaFlightReservation.members 12%positive example_store
     = Val (Some 13%positive, Some 14%positive)
  /\ CanadaFlightReservation.getCost 12%positive example_store
     = Val 250%float
  /\ CanadaFlightReservation.getCost 2%positive example_store = Val 600%float
  /\ (exists q h',
        (let* q := new (OCanadaFlightReservation None None) in
         CanadaFlightReservation.move_ctor q 2%positive ;; ret q)
          example_store = Val (q, h')
        /\ CanadaFlightReservation.members q h' = Val (None, None)
        /\ CanadaFlightReservation.getCost q h' = Undefined
        /\ CanadaFlightReservation.members 2%positive h'
           = Val (Some 3%positive, Some 4%positive))
  /\ (exists q h',
        (let* q := new (OTurkishFlightReservation None None) in
         TurkishFlightReservation.move_ctor q 9%positive ;; ret q)
          example_store = Val (q, h')
        /\ TurkishFlightReservation.members q h' = Val (None, None)
        /\ TurkishFlightReservation.getCost q h' = Undefined
        /\ TurkishFlightReservation.members 9%positive h'
           = Val (Some 10%positive, Some 11%positive))
  /\ (exists q h',
        (let* q := new (OHiltonHotelReservation None None) in
         HiltonHotelReservation.move_ctor q 5%positive ;; ret q)
          example_store = Val (q, h')
        /\ HiltonHotelReservation.members q h'
           = Val (Some 6%positive, Some 7%positive)
        /\ HiltonHotelReservation.getCost q h' = Val 1800%float
        /\ HiltonHotelReservation.members 5%positive h' = Val (None, None)).
Proof.
  split; [apply Canada_move_assign_keeps with (a := Some 13%positive)
                                              (b := Some 14%positive);
          reflexivity|].
  split; [reflexivity|]. split; [reflexivity|]. split; [reflexivity|].
  split; [|split]; do 2 eexists;
    (split; [vm_compute; reflexivity|]); repeat split; reflexivity.
Qed.

(** ** C8 *)

(** The copy assignment of a well-formed Itinerary [b] to a well-formed
    Itinerary [a] that shares no cell with it: [a] ends with its own elements
    followed by clones of those of [b]. *)
Lemma copy_assign_appends (h : heap) (a b : loc) (ssa ssb : list state)
  (fa fb : gset loc) (fuel : nat) :
  owns h a (SItinerary ssa) fa -> owns h b (SItinerary ssb) fb ->
  fa ## fb -> (depth (SItinerary ssb) <= fuel)%nat ->
  exists h' fa',
    Itinerary.copy_assign (Reservation.clone fuel) a b h = Val (tt, h')
    /\ owns h' a (SItinerary (ssa ++ ssb)) fa'
    /\ owns h' b (SItinerary ssb) fb.
Proof.
  intros Ha Hb Hdisj Hd.
  inversion Ha as [| | | |? psa ? fpa Hpa Hla Hna]; subst.
  inversion Hb as [| | | |? psb ? fpb Hpb Hlb Hnb]; subst.
  assert (a <> b) as Hab by (intros ->; set_solver).
  unfold Itinerary.copy_assign.
  destruct (Pos.eqb_spec a b) as [?|_]; [contradiction|].
  unfold Itinerary.Reservations. mrun.
  destruct (addReservations_owns (Reservation.clone fuel) psb ssb h a
              psa ssa fpa Hpa Hla Hna)
    as (h' & cs & fcs & E & Hcell' & Hl' & Hfcs & Hkeep).
  { eapply Forall2_impl; [apply (owns_list_elements h psb ssb fpb Hlb)|].
    intros r t (f & Hr & Hf). exists f. split; auto. set_solver. }
  { apply List.Forall_forall. intros t Ht. apply clone_owns.
    pose proof (depth_element t ssb Ht). lia. }
  exists h', ({[a]} ∪ (fpa ∪ fcs)). split; [exact E|]. split.
  - apply owns_itinerary with (ps := psa ++ cs); auto.
    assert (a ∈ dom h) by (apply elem_of_dom; eauto). set_solver.
  - eapply owns_frame_mut; [exact Hb|]. intros l Hin.
    destruct (owns_dom_mut h b _ _ Hb l Hin) as [o Hlo].
    rewrite Hlo. apply Hkeep; auto. intros ->. set_solver.
Qed.

(** C8, at a failing input. In [example_store] the Itinerary at 8 holds one
    element (a Turkish flight, cost 250) and the Itinerary at 15 holds one
    element (a Marriott room, cost 640). After the copy assignment of 15 into
    8, the Itinerary at 8 holds two elements, the one it had and a clone of
    the one of 15, and costs 890, while 15 holds one element and costs 640. *)
Theorem C8_copy_assign_keeps_prior_elements :
  exists h' c,
    Itinerary.copy_assign (Reservation.clone 1) 8%positive 15%positive
      example_store = Val (tt, h')
    /\ Itinerary.Reservations 8%positive h'
       = Val [Some 9%positive; Some c]
    /\ Itinerary.Reservations 15%positive h' = Val [Some 16%positive]
    /\ Reservation.getCost 2 8%positive h' = Val 890%float
    /\ Reservation.getCost 2 15%positive h' = Val 640%float.
Proof.
  do 2 eexists. split; [vm_compute; reflexivity|].
  repeat split; reflexivity.
Qed.

(** ** Choices below 1 on a newly constructed builder *)

(** On a newly constructed MakeReservation the merged
    list holds 4 flights (6 rooms). The choices 0 and -2 are neither the
    sentinel nor above the size of the list, so the guard lets them through,
    and the vector is indexed at -1 and at -3, out of its bounds: the result
    is undefined, whatever else was typed. With no adapter registered the
    merged list is empty and the choice 0 indexes it at -1 as well. *)
Example choice_below_one_on_new_builder :
  forall (from from_date to to_date country city : string)
         (adults children infants nights : Z),
    (MakeReservation.ctor 1%positive ;;
     MakeReservation.reservingFlight 1%positive
       (MakeReservation.mk_flight_input from from_date to to_date adults
          children infants 0)) raw_builder_store = Undefined
    /\ (MakeReservation.ctor 1%positive ;;
        MakeReservation.reservingFlight 1%positive
          (MakeReservation.mk_flight_input from from_date to to_date adults
             children infants (-2))) raw_builder_store = Undefined
    /\ (MakeReservation.ctor 1%positive ;;
        MakeReservation.reservingRoom 1%positive
          (MakeReservation.mk_room_input country city from_date to_date
             adults children nights 0)) raw_builder_store = Undefined
    /\ (MakeReservation.ctor 1%positive ;;
        MakeReservation.reservingRoom 1%positive
          (MakeReservation.mk_room_input country city from_date to_date
             adults children nights (-2))) raw_builder_store = Undefined
    /\ MakeReservation.reservingFlight 1%positive
         (MakeReservation.mk_flight_input from from_date to to_date adults
            children infants 0) empty_builder_store = Undefined
    /\ MakeReservation.reservingRoom 1%positive
         (MakeReservation.mk_room_input country city from_date to_date
            adults children nights 0) empty_builder_store = Undefined.
Proof.
  intros. repeat split; vm_compute; reflexivity.
Qed.

(** ** The builder after its constructor *)

Lemma builder_store_ctor :
  MakeReservation.ctor 1%positive raw_builder_store = Val (tt, builder_store).
Proof. vm_compute. reflexivity. Qed.

(** ** C9 *)

Lemma push_back_each_app {A B : Type} (tag : A -> B) (available : list A) :
  forall out, push_back_each tag available out = out ++ map tag available.
Proof.
  induction available as [|x rest IH]; intros out; simpl.
  - rewrite app_nil_r. reflexivity.
  - rewrite IH, <- app_assoc. reflexivity.
Qed.

Lemma getAvailableFlights_appends (h : heap) (airport : ptr)
  (flights : list FoundFlightInfo.t) :
  flight_adapter h airport ->
  FlightReservation_getAvailableFlights airport flights h
  = Val (flights ++ flight_offers h airport).
Proof.
  intros (l & -> & [(a & b & Hl)|(a & b & Hl)]);
    unfold FlightReservation_getAvailableFlights, flight_offers; rewrite Hl.
  - unfold CanadaFlightReservation.getAvailableFlights.
    rewrite push_back_each_app. reflexivity.
  - unfold TurkishFlightReservation.getAvailableFlights.
    rewrite push_back_each_app. reflexivity.
Qed.

Lemma getAvailableRooms_appends (h : heap) (hotel : ptr)
  (rooms : list FoundRoomInfo.t) :
  hotel_adapter h hotel ->
  HotelReservation_getAvailableRooms hotel rooms h
  = Val (rooms ++ room_offers h hotel).
Proof.
  intros (l & -> & [(a & b & v & Hl & Ha)|(a & b & v & Hl & Ha)]);
    unfold HotelReservation_getAvailableRooms, room_offers; rewrite Hl.
  - unfold HiltonHotelReservation.getAvailableRooms,
      HiltonHotelReservation.members, deref. mrun.
    rewrite push_back_each_app. reflexivity.
  - unfold MarriottHotelReservation.getAvailableRooms,
      MarriottHotelReservation.members, deref. mrun.
    rewrite push_back_each_app. reflexivity.
Qed.

Lemma collect_flights_merges (h : heap) (airports : list ptr) :
  Forall (flight_adapter h) airports ->
  forall flights,
    MakeReservation.collect_flights airports flights h
    = Val (flights ++ flat_map (flight_offers h) airports).
Proof.
  induction 1 as [|airport rest Ha _ IH]; intros flights; simpl.
  - rewrite app_nil_r. reflexivity.
  - rewrite (getAvailableFlights_appends h airport flights Ha).
    cbn [rbind]. rewrite IH, <- app_assoc. reflexivity.
Qed.

Lemma collect_rooms_merges (h : heap) (hotels : list ptr) :
  Forall (hotel_adapter h) hotels ->
  forall rooms,
    MakeReservation.collect_rooms hotels rooms h
    = Val (rooms ++ flat_map (room_offers h) hotels).
Proof.
  induction 1 as [|hotel rest Ha _ IH]; intros rooms; simpl.
  - rewrite app_nil_r. reflexivity.
  - rewrite (getAvailableRooms_appends h hotel rooms Ha).
    cbn [rbind]. rewrite IH, <- app_assoc. reflexivity.
Qed.

Lemma length_flat_map_sum {A B : Type} (f : A -> list B) (l : list A) :
  length (flat_map f l) = list_sum (map (fun x => length (f x)) l).
Proof.
  induction l as [|x l IH]; simpl; auto.
  rewrite length_app, IH. reflexivity.
Qed.

(** C9. [getAvailableFlights] and [getAvailableRooms] return the collection
    they are given with the vendor's offers appended at its end, each tagged
    with the brand of the adapter; nothing that was in the collection is
    removed or changed. Called in turn on k registered adapters, they leave
    the collection extended by the offers of each adapter in turn, so its
    size grows by the sum over the adapters of the number m_j of offers of
    adapter j. *)
Theorem C9_getAvailable_appends :
  forall (h : heap) (airports hotels : list ptr)
         (flights : list FoundFlightInfo.t) (rooms : list FoundRoomInfo.t),
    Forall (flight_adapter h) airports ->
    Forall (hotel_adapter h) hotels ->
    (forall airport, In airport airports ->
       FlightReservation_getAvailableFlights airport flights h
       = Val (flights ++ flight_offers h airport))
    /\ (forall hotel, In hotel hotels ->
          HotelReservation_getAvailableRooms hotel rooms h
          = Val (rooms ++ room_offers h hotel))
    /\ (forall this fs,
          CanadaFlightReservation.getAvailableFlights this fs h
          = Val (fs ++ map CanadaFlightReservation.tag
                          AirCanadaOnlineAPI.getFlights)
          /\ TurkishFlightReservation.getAvailableFlights this fs h
             = Val (fs ++ map TurkishFlightReservation.tag
                             TurkishAirlineOnlineAPI.getAvailableFlights))
    /\ (forall f, FoundFlightInfo.airline (CanadaFlightReservation.tag f)
                  = "Canada"%string)
    /\ (forall f, FoundFlightInfo.airline (TurkishFlightReservation.tag f)
                  = "Turkish"%string)
    /\ (forall r, FoundRoomInfo.hotel (HiltonHotelReservation.tag r)
                  = "Hilton"%string)
    /\ (forall r, FoundRoomInfo.hotel (MarriottHotelReservation.tag r)
                  = "Marriott"%string)
    /\ (exists merged,
          MakeReservation.collect_flights airports flights h = Val merged
          /\ merged = flights ++ flat_map (flight_offers h) airports
          /\ length merged
             = (length flights
                + list_sum (map (fun j => length (flight_offers h j))
                              airports))%nat)
    /\ (exists merged,
          MakeReservation.collect_rooms hotels rooms h = Val merged
          /\ merged = rooms ++ flat_map (room_offers h) hotels
          /\ length merged
             = (length rooms
                + list_sum (map (fun j => length (room_offers h j))
                              hotels))%nat).
Proof.
  intros h airports hotels flights rooms Hf Hh.
  rewrite List.Forall_forall in Hf, Hh.
  split; [intros; apply getAvailableFlights_appends; auto|].
  split; [intros; apply getAvailableRooms_appends; auto|].
  split.
  { intros this fs. unfold CanadaFlightReservation.getAvailableFlights,
      TurkishFlightReservation.getAvailableFlights.
    rewrite !push_back_each_app. split; reflexivity. }
  do 4 (split; [reflexivity|]).
  rewrite <- List.Forall_forall in Hf, Hh.
  split; eexists; (split; [|split; [reflexivity|]]).
  - apply collect_flights_merges; auto.
  - rewrite length_app, length_flat_map_sum. reflexivity.
  - apply collect_rooms_merges; auto.
  - rewrite length_app, length_flat_map_sum. reflexivity.
Qed.

Lemma builder_store_airports :
  Forall (flight_adapter builder_store) [Some 2%positive; Some 5%positive].
Proof.
  repeat constructor.
  - exists 2%positive. split; [reflexivity|]. left.
    exists (Some 3%positive), (Some 4%positive). reflexivity.
  - exists 5%positive. split; [reflexivity|]. right.
    exists (Some 6%positive), (Some 7%positive). reflexivity.
Defined.

Lemma builder_store_hotels :
  Forall (hotel_adapter builder_store) [Some 8%positive; Some 11%positive].
Proof.
  repeat constructor.
  - exists 8%positive. split; [reflexivity|]. left.
    exists 9%positive, (Some 10%positive), HiltonCustomerInfo.default.
    split; reflexivity.
  - exists 11%positive. split; [reflexivity|]. right.
    exists 12%positive, (Some 13%positive), MarriottCustomerInfo.default.
    split; reflexivity.
Defined.

Lemma C9_witness :
  (exists merged,
     MakeReservation.collect_flights [Some 2%positive; Some 5%positive] []
       builder_store = Val merged
     /\ merged
        = [] ++ flat_map (flight_offers builder_store)
                  [Some 2%positive; Some 5%positive]
     /\ length merged
        = (length (@nil FoundFlightInfo.t)
           + list_sum (map (fun j => length (flight_offers builder_store j))
                         [Some 2%positive; Some 5%positive]))%nat)
  /\ (exists merged,
        MakeReservation.collect_rooms [Some 8%positive; Some 11%positive] []
          builder_store = Val merged
        /\ merged
           = [] ++ flat_map (room_offers builder_store)
                     [Some 8%positive; Some 11%positive]
        /\ length merged
           = (length (@nil FoundRoomInfo.t)
              + list_sum (map (fun j => length (room_offers builder_store j))
                            [Some 8%positive; Some 11%positive]))%nat).
Proof.
  exact (proj2 (proj2 (proj2 (proj2 (proj2 (proj2 (proj2
           (C9_getAvailable_appends builder_store
              [Some 2%positive; Some 5%positive]
              [Some 8%positive; Some 11%positive] [] []
              builder_store_airports builder_store_hotels)))))))).
Defined.

(** The merged list of a newly constructed builder: the four flights of the
    scenario, in registration order. *)
Example builder_store_merged_flights :
  MakeReservation.collect_flights [Some 2%positive; Some 5%positive] []
    builder_store
  = Val [ FoundFlightInfo.mk "Canada" 200%float "25-01-2022" "10-02-2022";
          FoundFlightInfo.mk "Canada" 250%float "29-01-2022" "10-02-2022";
          FoundFlightInfo.mk "Turkish" 200%float "25-01-2022" "10-02-2022";
          FoundFlightInfo.mk "Turkish" 250%float "29-01-2022" "10-02-2022" ].
Proof. reflexivity. Qed.

(** ** C10 *)

(** C10. For a brand that is none of "Canada", "Turkish", "Hilton" and
    "Marriott", [ReservationFactory] returns the null pointer and leaves
    the store as it was: no adapter is constructed. *)
Theorem C10_factory_unmatched_brand :
  forall (h : heap) (this : loc) (m : MakeReservation.members_t)
         (brand : string),
    MakeReservation.members this h = Val m ->
    brand <> "Canada"%string -> brand <> "Turkish"%string ->
    brand <> "Hilton"%string -> brand <> "Marriott"%string ->
    MakeReservation.ReservationFactory this brand h = Val (None, h).
Proof.
  intros h this m brand Hm H1 H2 H3 H4.
  unfold MakeReservation.ReservationFactory. mred. rewrite Hm. mred.
  repeat match goal with
         | |- context [String.eqb brand ?s] =>
             destruct (String.eqb_spec brand s); [contradiction|]
         end.
  reflexivity.
Qed.

Lemma C10_witness :
  MakeReservation.ReservationFactory 1%positive "Lufthansa" builder_store
  = Val (None, builder_store).
Proof.
  apply (C10_factory_unmatched_brand builder_store 1%positive
           (MakeReservation.mk_members [Some 2%positive; Some 5%positive]
              [Some 8%positive; Some 11%positive] None None None None)
           "Lufthansa"); [reflexivity|discriminate..].
Defined.

(** ** Binary64 facts: products by an [int] do not overflow *)

Lemma Zdigits2_log2 (m : Z) : 0 < m -> Zdigits2 m = Z.log2 m + 1.
Proof.
  destruct m as [|p|p]; try lia. intros _. simpl.
  assert (forall q, digits2_pos q = Pos.size q) as Hs
    by (induction q; simpl; congruence).
  destruct p as [q|q|]; simpl; rewrite ?Hs; lia.
Qed.

Lemma Zdigits2_nonneg (m : Z) : 0 <= Zdigits2 m.
Proof. destruct m; simpl; lia. Qed.

Lemma Zdigits2_mono (a b : Z) : 0 <= a <= b -> Zdigits2 a <= Zdigits2 b.
Proof.
  intros [Ha Hab]. destruct (Z.eq_dec a 0) as [->|Hne].
  - apply Zdigits2_nonneg.
  - rewrite !Zdigits2_log2 by lia.
    pose proof (Z.log2_le_mono a b Hab). lia.
Qed.

Lemma Zdigits2_succ (a : Z) : 0 <= a -> Zdigits2 (a + 1) <= Zdigits2 a + 1.
Proof.
  intros Ha. destruct (Z.eq_dec a 0) as [->|Hne]; [simpl; lia|].
  rewrite !Zdigits2_log2 by lia.
  pose proof (Z.log2_succ_le a). unfold Z.succ in *. lia.
Qed.

Lemma Zdigits2_mul (a b : Z) :
  0 < a -> 0 < b -> Zdigits2 (a * b) <= Zdigits2 a + Zdigits2 b.
Proof.
  intros Ha Hb. rewrite !Zdigits2_log2 by nia.
  pose proof (Z.log2_mul_above a b). lia.
Qed.

Lemma shr_1_bound (mrs : shr_record) :
  0 <= shr_m mrs -> 0 <= shr_m (shr_1 mrs) <= shr_m mrs.
Proof.
  destruct mrs as [m r s]. simpl.
  destruct m as [|[p|p|]|p]; simpl; lia.
Qed.

Lemma iter_shr_1_bound (k : positive) :
  forall mrs, 0 <= shr_m mrs ->
              0 <= shr_m (@SpecFloat.iter_pos shr_record shr_1 k mrs) <= shr_m mrs.
Proof.
  induction k as [k IH|k IH|]; intros mrs Hm; simpl.
  - pose proof (shr_1_bound mrs Hm) as H1.
    pose proof (IH (shr_1 mrs) (proj1 H1)) as H2.
    pose proof (IH _ (proj1 H2)). lia.
  - pose proof (IH mrs Hm) as H1. pose proof (IH _ (proj1 H1)). lia.
  - apply shr_1_bound. exact Hm.
Qed.

Lemma shr_fexp_bound (m e : Z) (l : location) :
  0 <= m ->
  0 <= shr_m (fst (shr_fexp prec emax m e l)) <= m
  /\ snd (shr_fexp prec emax m e l)
     = Z.max e (fexp prec emax (Zdigits2 m + e)).
Proof.
  intros Hm. unfold shr_fexp, shr.
  assert (shr_m (shr_record_of_loc m l) = m) as Hrec
    by (destruct l as [|[]]; reflexivity).
  destruct (fexp prec emax (Zdigits2 m + e) - e) as [|k|k] eqn:Hk; simpl.
  - rewrite Hrec. lia.
  - pose proof (iter_shr_1_bound k (shr_record_of_loc m l)) as Hb.
    rewrite Hrec in Hb. split; [apply Hb; exact Hm|lia].
  - rewrite Hrec. lia.
Qed.

Lemma round_nearest_even_bound (m : Z) (l : location) :
  m <= round_nearest_even m l <= m + 1.
Proof.
  unfold round_nearest_even. destruct l as [|[]]; try lia.
  destruct (Z.even m); lia.
Qed.

(** Rounding a mantissa of at most [Dm] digits with exponent at most [E]
    overflows neither to an infinity nor to a NaN, provided the bound [e2]
    on the resulting exponent fits the format. *)
Lemma binary_round_aux_bound (sx : bool) (mx ex : Z) (lx : location)
  (Dm E E2 : Z) :
  0 <= mx -> Zdigits2 mx <= Dm -> ex <= E ->
  (let e1 := Z.max E (Z.max (Dm + E - 53) (-1074)) in
   Z.max e1 (Z.max (Dm + 1 + e1 - 53) (-1074)) <= E2) ->
  E2 <= 971 ->
  exp_le E2 (binary_round_aux prec emax sx mx ex lx).
Proof.
  intros Hm HD HE He2 HE2. cbv zeta in He2. unfold binary_round_aux.
  pose proof (shr_fexp_bound mx ex lx Hm) as [Hm1 He1].
  destruct (shr_fexp prec emax mx ex lx) as [mrs1 e1'] eqn:Hs1.
  simpl in Hm1, He1.
  pose proof (round_nearest_even_bound (shr_m mrs1)
                (loc_of_shr_record mrs1)) as Hr.
  set (m2 := round_nearest_even (shr_m mrs1) (loc_of_shr_record mrs1)) in *.
  assert (0 <= m2) as Hm2 by lia.
  pose proof (shr_fexp_bound m2 e1' loc_Exact Hm2) as [Hm3 He3].
  destruct (shr_fexp prec emax m2 e1' loc_Exact) as [mrs2 e2'] eqn:Hs2.
  simpl in Hm3, He3.
  assert (Zdigits2 m2 <= Dm + 1) as HD2.
  { pose proof (Zdigits2_mono m2 (shr_m mrs1 + 1) ltac:(lia)).
    pose proof (Zdigits2_succ (shr_m mrs1) ltac:(lia)).
    pose proof (Zdigits2_mono (shr_m mrs1) mx ltac:(lia)). lia. }
  assert (e2' <= E2) as Hb2.
  { rewrite He3, He1. unfold fexp, SpecFloat.emin, prec, emax. lia. }
  destruct (shr_m mrs2) as [|p|p] eqn:Hp; simpl; try lia.
  destruct (Z.leb_spec e2' (emax - prec)) as [?|Hgt]; simpl; [lia|].
  unfold emax, prec in Hgt. lia.
Qed.

Lemma digits2_pos_iter_xO (k d : positive) :
  Zpos (digits2_pos (Pos.iter xO k d)) = Zpos (digits2_pos k) + Zpos d.
Proof.
  induction d as [|d IH] using Pos.peano_ind.
  - simpl. lia.
  - rewrite Pos.iter_succ. simpl. lia.
Qed.

(** The conversion of an [int] is zero, or finite with negative exponent. *)
(** The conversion of an [int] is the rounding of its value. *)
Lemma double_of_int_spec (n : Z) :
  is_int n ->
  Prim2SF (double_of_int n) = binary_normalize prec emax n 0 false.
Proof.
  unfold is_int, INT_MIN, INT_MAX, double_of_int. intros Hn.
  destruct (Z.ltb_spec n 0) as [Hneg|Hnn].
  - rewrite FloatAxioms.opp_spec, FloatAxioms.of_uint63_spec,
      Uint63.of_Z_spec.
    rewrite Z.mod_small by (change wB with (2 ^ 63); lia).
    destruct n as [|p|p]; try lia. simpl.
    unfold binary_round.
    destruct (shl_align p 0 (fexp prec emax (Z.pos (digits2_pos p) + 0)))
      as [mz ez].
    unfold binary_round_aux.
    destruct (shr_fexp prec emax (Z.pos mz) ez loc_Exact) as [mrs1 e1].
    destruct (shr_fexp prec emax _ e1 loc_Exact) as [mrs2 e2].
    destruct (shr_m mrs2); try reflexivity.
    destruct (e2 <=? emax - prec); reflexivity.
  - rewrite FloatAxioms.of_uint63_spec, Uint63.of_Z_spec.
    rewrite Z.mod_small by (change wB with (2 ^ 63); lia). reflexivity.
Qed.

Lemma double_of_int_exp (n : Z) :
  is_int n -> exp_le 0 (Prim2SF (double_of_int n)).
Proof.
  unfold is_int, INT_MIN, INT_MAX. intros Hn.
  assert (forall k, 0 <= k <= 2 ^ 31 ->
            exp_le 0 (Prim2SF (of_uint63 (Uint63.of_Z k)))) as Hpos.
  { intros k Hk. rewrite FloatAxioms.of_uint63_spec, Uint63.of_Z_spec.
    rewrite Z.mod_small by (change wB with (2 ^ 63); lia).
    destruct k as [|p|p]; [exact I| |lia].
    unfold binary_normalize, binary_round, shl_align.
    assert (Zpos (digits2_pos p) <= 32) as HD.
    { change (Zpos (digits2_pos p)) with (Zdigits2 (Zpos p)).
      rewrite Zdigits2_log2 by lia.
      pose proof (Z.log2_le_mono (Zpos p) (2 ^ 31) ltac:(lia)).
      rewrite Z.log2_pow2 in H by lia. lia. }
    assert (1 <= Zpos (digits2_pos p)) as HD1 by lia.
    assert (fexp prec emax (Zpos (digits2_pos p) + 0)
            = Zpos (digits2_pos p) - 53) as Hf
      by (unfold fexp, SpecFloat.emin, prec, emax; lia).
    rewrite Hf.
    destruct (Zpos (digits2_pos p) - 53 - 0) as [|d|d] eqn:Hd; try lia.
    apply (binary_round_aux_bound false _ _ loc_Exact 53 (-21)); try lia.
    change (Zdigits2 (Zpos (Pos.iter xO p d)))
      with (Zpos (digits2_pos (Pos.iter xO p d))).
    rewrite digits2_pos_iter_xO. lia. }
  unfold double_of_int. destruct (Z.ltb_spec n 0) as [Hneg|Hnn].
  - rewrite FloatAxioms.opp_spec. specialize (Hpos (- n) ltac:(lia)).
    destruct (Prim2SF (of_uint63 (Uint63.of_Z (- n)))); simpl in *; auto.
  - apply Hpos. lia.
Qed.

Lemma valid_digits (x : float) s m e :
  Prim2SF x = S754_finite s m e -> Zpos (digits2_pos m) <= 53.
Proof.
  intros Hx. pose proof (Prim2SF_valid x) as Hv. rewrite Hx in Hv.
  simpl in Hv. unfold bounded, canonical_mantissa in Hv.
  apply andb_prop in Hv as [Hc _]. apply Z.eqb_eq in Hc.
  unfold fexp, SpecFloat.emin, prec, emax in Hc. lia.
Qed.

(** A product of two floats with exponents at most 0 is zero or finite. *)
Lemma mul_exp (x y : float) :
  exp_le 0 (Prim2SF x) -> exp_le 0 (Prim2SF y) ->
  exp_le 107 (Prim2SF (x * y)).
Proof.
  intros Hx Hy. rewrite FloatAxioms.mul_spec. unfold SF64mul, SFmul.
  destruct (Prim2SF x) as [sx|sx| |sx mx ex] eqn:Ex; simpl in Hx; try tauto;
    destruct (Prim2SF y) as [sy|sy| |sy my ey] eqn:Ey; simpl in Hy;
    try tauto; try exact I.
  pose proof (valid_digits x _ _ _ Ex). pose proof (valid_digits y _ _ _ Ey).
  apply (binary_round_aux_bound _ _ _ loc_Exact 106 0); try lia.
  pose proof (Zdigits2_mul (Zpos mx) (Zpos my) ltac:(lia) ltac:(lia)) as Hd.
  simpl in Hd |- *. lia.
Qed.

(** With no room needed, the cost of a hotel reservation compares equal to
    zero, for a price of exponent at most 0 and any [int] number of nights. *)
Lemma hotel_cost_no_rooms (p : double) (n : Z) :
  exp_le 0 (Prim2SF p) -> is_int n ->
  (hotel_cost p n 0 =? 0)%float = true.
Proof.
  intros Hp Hn. unfold hotel_cost.
  change (double_of_int 0) with 0%float.
  pose proof (mul_exp p (double_of_int n) Hp (double_of_int_exp n Hn)) as Hm.
  rewrite FloatAxioms.eqb_spec, FloatAxioms.mul_spec.
  change (Prim2SF 0) with (S754_zero false).
  destruct (Prim2SF (p * double_of_int n)); simpl in Hm; try tauto;
    reflexivity.
Qed.

(** ** The adapters constructed by the factory *)

Lemma Hilton_ctor2_owns (h : heap) (q info room : loc) (o : obj)
  (i : CustomerInfo.t) (r : FoundRoomInfo.t) :
  h !! q = Some o -> q <> info -> q <> room ->
  h !! info = Some (VCustomerInfo i) ->
  h !! room = Some (VFoundRoomInfo r) ->
  exists h' fq,
    HiltonHotelReservation.ctor2 q (Some info) (Some room) h = Val (tt, h')
    /\ owns h' q (SHilton (hilton_criteria i) (hilton_room r)) fq.
Proof.
  intros Hq Hqi Hqr Hi Hr.
  unfold HiltonHotelReservation.ctor2, HiltonHotelReservation.ctor,
    HiltonHotelReservation.setCustomerInfo,
    HiltonHotelReservation.setChosenRoomInfo. mred.
  alloc a Ha. mred. alloc b Hb.
  unfold store, HiltonHotelReservation.members, deref, assign. mrun.
  do 2 eexists. split; [reflexivity|].
  apply owns_hilton with (a := a) (b := b); lookups; reflexivity.
Qed.

Lemma Marriott_ctor2_owns (h : heap) (q info room : loc) (o : obj)
  (i : CustomerInfo.t) (r : FoundRoomInfo.t) :
  h !! q = Some o -> q <> info -> q <> room ->
  h !! info = Some (VCustomerInfo i) ->
  h !! room = Some (VFoundRoomInfo r) ->
  exists h' fq,
    MarriottHotelReservation.ctor2 q (Some info) (Some room) h = Val (tt, h')
    /\ owns h' q (SMarriott (marriott_criteria i) (marriott_room r)) fq.
Proof.
  intros Hq Hqi Hqr Hi Hr.
  unfold MarriottHotelReservation.ctor2, MarriottHotelReservation.ctor,
    MarriottHotelReservation.setCustomerInfo,
    MarriottHotelReservation.setChosenRoomInfo. mred.
  alloc a Ha. mred. alloc b Hb.
  unfold store, MarriottHotelReservation.members, deref, assign. mrun.
  do 2 eexists. split; [reflexivity|].
  apply owns_marriott with (a := a) (b := b); lookups; reflexivity.
Qed.

(** The factory on the two hotel brands: a new adapter that holds the
    criteria and the chosen room of the builder. *)
Lemma factory_hotel (h : heap) (this info room : loc)
  (m : MakeReservation.members_t) (i : CustomerInfo.t)
  (r : FoundRoomInfo.t) :
  MakeReservation.members this h = Val m ->
  MakeReservation.customer_info m = Some info ->
  MakeReservation.chosen_room m = Some room ->
  h !! info = Some (VCustomerInfo i) ->
  h !! room = Some (VFoundRoomInfo r) ->
  FoundRoomInfo.hotel r = "Hilton"%string
  \/ FoundRoomInfo.hotel r = "Marriott"%string ->
  exists q h' fq s,
    MakeReservation.ReservationFactory this (FoundRoomInfo.hotel r) h
    = Val (Some q, h')
    /\ owns h' q s fq
    /\ (s = SHilton (hilton_criteria i) (hilton_room r)
        \/ s = SMarriott (marriott_criteria i) (marriott_room r)).
Proof.
  intros Hm Hci Hcr Hi Hr Hbrand.
  unfold MakeReservation.ReservationFactory. mred. rewrite Hm. mred.
  rewrite Hci, Hcr.
  destruct Hbrand as [-> | ->]; cbn [String.eqb Ascii.eqb Bool.eqb andb];
    mred.
  - alloc q Hq.
    destruct (Hilton_ctor2_owns (<[q := OHiltonHotelReservation None None]> h)
                q info room (OHiltonHotelReservation None None) i r)
      as (h' & fq & E & Ho);
      [lookups; (reflexivity || congruence)..|].
    mred. rewrite E. mred. exists q, h', fq. eexists. eauto.
  - alloc q Hq.
    destruct (Marriott_ctor2_owns
                (<[q := OMarriottHotelReservation None None]> h)
                q info room (OMarriottHotelReservation None None) i r)
      as (h' & fq & E & Ho);
      [lookups; (reflexivity || congruence)..|].
    mred. rewrite E. mred. exists q, h', fq. eexists. eauto.
Qed.




(** ** The builder and its workflows *)

Lemma hotel_adapter_preserved (h h' : heap) (p : ptr) :
  hotel_adapter h p ->
  (forall l o, h !! l = Some o -> hotel_cell o -> h' !! l = Some o) ->
  hotel_adapter h' p /\ room_offers h' p = room_offers h p.
Proof.
  intros (l & -> & [(a & b & v & Hl & Ha)|(a & b & v & Hl & Ha)]) Hkeep.
  - split.
    + exists l. split; [reflexivity|]. left. exists a, b, v.
      split; apply Hkeep; auto; exact I.
    + unfold room_offers. rewrite Hl, (Hkeep l _ Hl I). reflexivity.
  - split.
    + exists l. split; [reflexivity|]. right. exists a, b, v.
      split; apply Hkeep; auto; exact I.
    + unfold room_offers. rewrite Hl, (Hkeep l _ Hl I). reflexivity.
Qed.

Lemma hotel_adapters_preserved (h h' : heap) (hotels : list ptr) :
  Forall (hotel_adapter h) hotels ->
  (forall l o, h !! l = Some o -> hotel_cell o -> h' !! l = Some o) ->
  Forall (hotel_adapter h') hotels
  /\ flat_map (room_offers h') hotels = flat_map (room_offers h) hotels.
Proof.
  induction 1 as [|p ps Hp _ IH]; intros Hkeep; simpl.
  - split; [constructor|reflexivity].
  - destruct (hotel_adapter_preserved h h' p Hp Hkeep) as [Hp' Ep].
    destruct (IH Hkeep) as [Hps' Eps].
    split; [constructor; auto|]. rewrite Ep, Eps. reflexivity.
Qed.

(** Every room a registered adapter offers carries one of the two hotel
    brands and one of the vendors' prices, all below 2^53. *)
Lemma room_offers_brand_price (h : heap) (hotels : list ptr)
  (r : FoundRoomInfo.t) :
  In r (flat_map (room_offers h) hotels) ->
  (FoundRoomInfo.hotel r = "Hilton"%string
   \/ FoundRoomInfo.hotel r = "Marriott"%string)
  /\ exp_le 0 (Prim2SF (FoundRoomInfo.price_for_night r)).
Proof.
  rewrite in_flat_map. intros (p & _ & Hin).
  unfold room_offers in Hin.
  destruct p as [l|]; [|contradiction].
  destruct (h !! l) as [[]|]; try contradiction; simpl in Hin;
    repeat (destruct Hin as [<-|Hin]; [split; [auto|vm_compute; discriminate]|]);
    contradiction.
Qed.

(** The projections of the members of a builder. *)
Ltac builder_fields :=
  cbn [MakeReservation.Airports MakeReservation.Hotels
       MakeReservation.passenger_info MakeReservation.customer_info
       MakeReservation.chosen_flight MakeReservation.chosen_room].

(** One allocation after a [delete]: the new address is the one released,
    or one that was not in use before. *)
Ltac alloc_reuse l Hl :=
  match goal with
  | |- context [new ?o ?h] =>
      let E := fresh "E" in
      destruct (new_fresh o h) as (l & Hl & E); rewrite E; clear E;
      repeat match type of Hl with
             | delete _ _ !! _ = None =>
                 apply lookup_delete_None in Hl; destruct Hl as [Hl|Hl]
             end;
      try split_fresh Hl
  end.

(** The loop over the registered hotels, in a store that keeps the cells of
    the adapters of [h0]. *)
Ltac collect_hotels h0 Hhotels :=
  match goal with
  | |- context [MakeReservation.collect_rooms ?hs ?acc ?H] =>
      let HF := fresh "HF" in
      let HE := fresh "HE" in
      destruct (hotel_adapters_preserved h0 H hs Hhotels) as [HF HE];
      [ let l := fresh "l" in
        let o := fresh "o" in
        let Hl := fresh "Hl" in
        let Hc := fresh "Hc" in
        intros l o Hl Hc; destruct o; try contradiction; lookups; reflexivity
      | rewrite (collect_rooms_merges H hs HF), HE; cbn [app] ]
  end.

Lemma reservingRoom_run (h : heap) (this : loc)
  (m : MakeReservation.members_t) (i : MakeReservation.room_input) :
  builder h this m ->
  exists h1 ci cr civ,
    MakeReservation.reservingRoom this i h
    = (let merged := flat_map (room_offers h) (MakeReservation.Hotels m) in
       let choice := MakeReservation.in_room_choice i in
       if (choice =? -1) || (choice >? int_of_size merged)
       then Val (None, h1)
       else match index merged (int_wrap (choice - 1)) with
            | Val room =>
                MakeReservation.ReservationFactory this
                  (FoundRoomInfo.hotel room)
                  (<[cr := VFoundRoomInfo room]> h1)
            | Undefined => Undefined
            | OutOfFuel => OutOfFuel
            end)
    /\ h1 !! this
       = Some (OMakeReservation (MakeReservation.Airports m)
                 (MakeReservation.Hotels m)
                 (MakeReservation.passenger_info m) (Some ci)
                 (MakeReservation.chosen_flight m) (Some cr))
    /\ h1 !! ci = Some (VCustomerInfo civ)
    /\ CustomerInfo.needed_rooms civ = 0
    /\ CustomerInfo.number_of_nights civ = MakeReservation.in_number_of_nights i
    /\ ci <> cr /\ this <> cr /\ this <> ci.
Proof.
  intros (Hm & _ & Hhotels & _ & Hci & _ & Hcr).
  destruct m as [airports hotels pi oci cf ocr]. simpl in *.
  unfold MakeReservation.members in Hm.
  destruct (h !! this) as [[]|] eqn:Hthis; try discriminate.
  injection Hm as -> -> -> -> -> ->.
  unfold MakeReservation.reservingRoom, MakeReservation.members. mrun.
  alloc ci Hnci. mred. builder_fields.
  destruct oci as [old|]; [destruct (Hci old eq_refl) as [v Hold]|];
    (destruct ocr as [old2|]; [destruct (Hcr old2 eq_refl) as [v2 Hold2]|]);
    clear Hci Hcr;
    unfold reset, free, MakeReservation.set_members, store, assign, deref;
    mrun; alloc_reuse cr Hncr; mrun; builder_fields; mrun;
    collect_hotels h Hhotels; mrun;
    (eexists; exists ci, cr; eexists;
     split;
     [ cbv zeta;
       match goal with
       | |- context [if ?c then _ else _] => destruct c
       end; [reflexivity|];
       match goal with
       | |- context [index ?v ?k] => destruct (index v k)
       end; mrun; reflexivity
     | split; [lookups; reflexivity|];
       split; [lookups; reflexivity|];
       repeat split; try reflexivity; ne ]).
Qed.

Lemma flight_adapter_preserved (h h' : heap) (p : ptr) :
  flight_adapter h p ->
  (forall l o, h !! l = Some o -> flight_cell o -> h' !! l = Some o) ->
  flight_adapter h' p /\ flight_offers h' p = flight_offers h p.
Proof.
  intros (l & -> & [(a & b & Hl)|(a & b & Hl)]) Hkeep.
  - split.
    + exists l. split; [reflexivity|]. left. exists a, b.
      apply Hkeep; auto; exact I.
    + unfold flight_offers. rewrite Hl, (Hkeep l _ Hl I). reflexivity.
  - split.
    + exists l. split; [reflexivity|]. right. exists a, b.
      apply Hkeep; auto; exact I.
    + unfold flight_offers. rewrite Hl, (Hkeep l _ Hl I). reflexivity.
Qed.

Lemma flight_adapters_preserved (h h' : heap) (airports : list ptr) :
  Forall (flight_adapter h) airports ->
  (forall l o, h !! l = Some o -> flight_cell o -> h' !! l = Some o) ->
  Forall (flight_adapter h') airports
  /\ flat_map (flight_offers h') airports
     = flat_map (flight_offers h) airports.
Proof.
  induction 1 as [|p ps Hp _ IH]; intros Hkeep; simpl.
  - split; [constructor|reflexivity].
  - destruct (flight_adapter_preserved h h' p Hp Hkeep) as [Hp' Ep].
    destruct (IH Hkeep) as [Hps' Eps].
    split; [constructor; auto|]. rewrite Ep, Eps. reflexivity.
Qed.

Lemma flight_offers_brand (h : heap) (airports : list ptr)
  (f : FoundFlightInfo.t) :
  In f (flat_map (flight_offers h) airports) ->
  FoundFlightInfo.airline f = "Canada"%string
  \/ FoundFlightInfo.airline f = "Turkish"%string.
Proof.
  rewrite in_flat_map. intros (p & _ & Hin).
  unfold flight_offers in Hin.
  destruct p as [l|]; [|contradiction].
  destruct (h !! l) as [[]|]; try contradiction; simpl in Hin;
    repeat (destruct Hin as [<-|Hin]; [auto|]); contradiction.
Qed.

(** The loop over the registered airports, in a store that keeps the cells
    of the adapters of [h0]. *)
Ltac collect_airports h0 Hairports :=
  match goal with
  | |- context [MakeReservation.collect_flights ?hs ?acc ?H] =>
      let HF := fresh "HF" in
      let HE := fresh "HE" in
      destruct (flight_adapters_preserved h0 H hs Hairports) as [HF HE];
      [ let l := fresh "l" in
        let o := fresh "o" in
        let Hl := fresh "Hl" in
        let Hc := fresh "Hc" in
        intros l o Hl Hc; destruct o; try contradiction; lookups; reflexivity
      | rewrite (collect_flights_merges H hs HF), HE; cbn [app] ]
  end.

Lemma reservingFlight_run (h : heap) (this : loc)
  (m : MakeReservation.members_t) (i : MakeReservation.flight_input) :
  builder h this m ->
  exists h1 pi cf piv,
    MakeReservation.reservingFlight this i h
    = (let merged :=
         flat_map (flight_offers h) (MakeReservation.Airports m) in
       let choice := MakeReservation.in_flight_choice i in
       if (choice =? -1) || (choice >? int_of_size merged)
       then Val (None, h1)
       else match index merged (int_wrap (choice - 1)) with
            | Val flight =>
                MakeReservation.ReservationFactory this
                  (FoundFlightInfo.airline flight)
                  (<[cf := VFoundFlightInfo flight]> h1)
            | Undefined => Undefined
            | OutOfFuel => OutOfFuel
            end)
    /\ h1 !! this
       = Some (OMakeReservation (MakeReservation.Airports m)
                 (MakeReservation.Hotels m) (Some pi)
                 (MakeReservation.customer_info m) (Some cf)
                 (MakeReservation.chosen_room m))
    /\ h1 !! pi = Some (VPassengerInfo piv)
    /\ PassengerInfo.adults piv = MakeReservation.in_adults i
    /\ PassengerInfo.children piv = MakeReservation.in_children i
    /\ PassengerInfo.infants piv = MakeReservation.in_infants i
    /\ pi <> cf /\ this <> cf /\ this <> pi.
Proof.
  intros (Hm & Hairports & _ & Hpi & _ & Hcf & _).
  destruct m as [airports hotels opi ci ocf cr]. simpl in *.
  unfold MakeReservation.members in Hm.
  destruct (h !! this) as [[]|] eqn:Hthis; try discriminate.
  injection Hm as -> -> -> -> -> ->.
  unfold MakeReservation.reservingFlight, MakeReservation.members. mrun.
  alloc pi Hnpi. mred. builder_fields.
  destruct opi as [old|]; [destruct (Hpi old eq_refl) as [v Hold]|];
    (destruct ocf as [old2|]; [destruct (Hcf old2 eq_refl) as [v2 Hold2]|]);
    clear Hpi Hcf;
    unfold reset, free, MakeReservation.set_members, store, assign, deref;
    mrun; alloc_reuse cf Hncf; mrun; builder_fields; mrun;
    collect_airports h Hairports; mrun;
    (eexists; exists pi, cf; eexists;
     split;
     [ cbv zeta;
       match goal with
       | |- context [if ?c then _ else _] => destruct c
       end; [reflexivity|];
       match goal with
       | |- context [index ?v ?k] => destruct (index v k)
       end; mrun; reflexivity
     | split; [lookups; reflexivity|];
       split; [lookups; reflexivity|];
       repeat split; try reflexivity; ne ]).
Qed.

Lemma index_negative {A : Type} (v : list A) (k : Z) :
  k < 0 -> index v k = Undefined.
Proof.
  unfold index. intros Hk. destruct (Z.ltb_spec k 0); [reflexivity|lia].
Qed.

Lemma index_In {A : Type} (v : list A) (k : Z) (x : A) :
  index v k = Val x -> In x v.
Proof.
  unfold index. destruct (k <? 0); [discriminate|].
  destruct (nth_error v (Z.to_nat k)) eqn:E; [|discriminate].
  intros [= <-]. eapply nth_error_In; eauto.
Qed.

Lemma index_in_range {A : Type} (v : list A) (k : Z) :
  0 <= k < int_of_size v -> exists x, index v k = Val x.
Proof.
  unfold index, int_of_size. intros Hk.
  destruct (Z.ltb_spec k 0); [lia|].
  destruct (nth_error v (Z.to_nat k)) eqn:E; [eauto|].
  apply nth_error_None in E. lia.
Qed.

Lemma builder_store_builder :
  builder builder_store 1%positive
    (MakeReservation.mk_members [Some 2%positive; Some 5%positive]
       [Some 8%positive; Some 11%positive] None None None None).
Proof.
  split; [reflexivity|].
  split; [exact builder_store_airports|].
  split; [exact builder_store_hotels|].
  repeat split; intros l Hl; discriminate Hl.
Defined.

(** ** C3 *)

(** C3, in general. On every well-formed builder, with any number of
    adapters registered (none included), an [int] choice below 1 other than
    the sentinel -1 passes the guard of [reservingFlight] and of
    [reservingRoom], which has no lower bound, and the merged vector is
    indexed at [choice - 1], a negative index: the behaviour is undefined,
    where the workflow should return no reservation. *)
Theorem C3_choice_below_one_is_out_of_bounds :
  forall (h : heap) (this : loc) (m : MakeReservation.members_t)
         (fi : MakeReservation.flight_input)
         (ri : MakeReservation.room_input),
    builder h this m ->
    INT_MIN < MakeReservation.in_flight_choice fi < 1 ->
    MakeReservation.in_flight_choice fi <> -1 ->
    INT_MIN < MakeReservation.in_room_choice ri < 1 ->
    MakeReservation.in_room_choice ri <> -1 ->
    MakeReservation.reservingFlight this fi h = Undefined
    /\ MakeReservation.reservingRoom this ri h = Undefined.
Proof.
  intros h this m fi ri Hb Hf Hf1 Hr Hr1. unfold INT_MIN in *. split.
  - destruct (reservingFlight_run h this m fi Hb) as (h1 & ? & ? & ? & E & _).
    cbv zeta in E. rewrite E.
    destruct (Z.eqb_spec (MakeReservation.in_flight_choice fi) (-1));
      [contradiction|].
    destruct (Z.gtb_spec (MakeReservation.in_flight_choice fi)
                (int_of_size (flat_map (flight_offers h)
                                (MakeReservation.Airports m))));
      [unfold int_of_size in *; lia|].
    cbn [orb]. rewrite int_wrap_in_range
      by (unfold is_int, INT_MIN, INT_MAX; lia).
    rewrite index_negative by lia. reflexivity.
  - destruct (reservingRoom_run h this m ri Hb) as (h1 & ? & ? & ? & E & _).
    cbv zeta in E. rewrite E.
    destruct (Z.eqb_spec (MakeReservation.in_room_choice ri) (-1));
      [contradiction|].
    destruct (Z.gtb_spec (MakeReservation.in_room_choice ri)
                (int_of_size (flat_map (room_offers h)
                                (MakeReservation.Hotels m))));
      [unfold int_of_size in *; lia|].
    cbn [orb]. rewrite int_wrap_in_range
      by (unfold is_int, INT_MIN, INT_MAX; lia).
    rewrite index_negative by lia. reflexivity.
Qed.

Lemma C3_witness :
  MakeReservation.reservingFlight 1%positive
    (MakeReservation.mk_flight_input "Toronto" "2025-01-25" "Istanbul"
       "2025-02-10" 2 1 0 0) builder_store = Undefined
  /\ MakeReservation.reservingRoom 1%positive
       (MakeReservation.mk_room_input "Egypt" "Cairo" "2025-01-25"
          "2025-01-28" 2 1 3 (-2)) builder_store = Undefined.
Proof.
  apply (C3_choice_below_one_is_out_of_bounds builder_store 1%positive _
           (MakeReservation.mk_flight_input "Toronto" "2025-01-25" "Istanbul"
              "2025-02-10" 2 1 0 0)
           (MakeReservation.mk_room_input "Egypt" "Cairo" "2025-01-25"
              "2025-01-28" 2 1 3 (-2)) builder_store_builder);
    unfold INT_MIN; simpl; lia.
Defined.

(** ** C4 *)

(** C4. On a well-formed builder, with [int] inputs: a choice within 1..N of
    the merged list makes [reservingRoom] return a hotel reservation; and
    every reservation [reservingRoom] returns is a hotel adapter whose
    [needed_rooms] is 0, the default the workflow never overwrites, so its
    [getCost()] compares equal to 0, whatever the price of the chosen room
    and the number of nights typed. *)
Theorem C4_reservingRoom_costs_nothing :
  forall (h : heap) (this : loc) (m : MakeReservation.members_t)
         (i : MakeReservation.room_input),
    builder h this m ->
    is_int (MakeReservation.in_number_of_nights i) ->
    is_int (MakeReservation.in_room_choice i) ->
    (1 <= MakeReservation.in_room_choice i
          <= int_of_size (flat_map (room_offers h) (MakeReservation.Hotels m))
     -> exists q h',
          MakeReservation.reservingRoom this i h = Val (Some q, h'))
    /\ (forall q h',
          MakeReservation.reservingRoom this i h = Val (Some q, h') ->
          exists c s fq,
            Reservation.getCost 1 q h' = Val c
            /\ (c =? 0)%float = true
            /\ owns h' q s fq
            /\ needed_rooms_of s = Some 0).
Proof.
  intros h this m i Hb Hnights Hchoice.
  destruct (reservingRoom_run h this m i Hb)
    as (h1 & ci & cr & civ & E & Hthis1 & Hci1 & Hrooms & Hn & N1 & N2 & N3).
  cbv zeta in E. rewrite E. clear E.
  set (merged := flat_map (room_offers h) (MakeReservation.Hotels m)) in *.
  set (choice := MakeReservation.in_room_choice i) in *.
  assert (forall room, In room merged ->
            exists q h' fq s,
              MakeReservation.ReservationFactory this
                (FoundRoomInfo.hotel room) (<[cr := VFoundRoomInfo room]> h1)
              = Val (Some q, h')
              /\ owns h' q s fq
              /\ (s = SHilton (hilton_criteria civ) (hilton_room room)
                  \/ s = SMarriott (marriott_criteria civ)
                           (marriott_room room))) as Hfactory.
  { intros room Hin.
    destruct (room_offers_brand_price h _ room Hin) as [Hbrand _].
    eapply factory_hotel with (info := ci) (room := cr).
    - unfold MakeReservation.members. lookups. reflexivity.
    - reflexivity.
    - reflexivity.
    - lookups. reflexivity.
    - lookups. reflexivity.
    - exact Hbrand. }
  split.
  - intros Hrange.
    destruct (Z.eqb_spec choice (-1)) as [?|_]; [lia|].
    destruct (Z.gtb_spec choice (int_of_size merged)) as [?|_]; [lia|].
    cbn [orb].
    assert (int_wrap (choice - 1) = choice - 1) as ->.
    { apply int_wrap_in_range. unfold is_int, INT_MIN, INT_MAX in *. lia. }
    destruct (index_in_range merged (choice - 1)) as [room Hroom]; [lia|].
    rewrite Hroom. destruct (Hfactory room (index_In _ _ _ Hroom))
      as (q & h' & _ & _ & Ef & _). eauto.
  - intros q h' Hrun.
    destruct ((choice =? -1) || (choice >? int_of_size merged));
      [discriminate|].
    destruct (index merged (int_wrap (choice - 1))) as [room| |] eqn:Hroom;
      try discriminate.
    pose proof (index_In _ _ _ Hroom) as Hin.
    destruct (Hfactory room Hin) as (q0 & h0 & fq & s & Ef & Ho & Hs).
    rewrite Ef in Hrun. injection Hrun as -> ->.
    destruct (room_offers_brand_price h _ room Hin) as [_ Hprice].
    exists (cost_of s), s, fq.
    split; [apply (getCost_owns 1 h' q s fq Ho);
            destruct Hs as [-> | ->]; simpl; lia|].
    split; [|split; [exact Ho|]].
    + destruct Hs as [-> | ->]; simpl; rewrite Hrooms, Hn;
        apply hotel_cost_no_rooms; assumption.
    + destruct Hs as [-> | ->]; simpl; rewrite Hrooms; reflexivity.
Qed.

Lemma C4_witness :
  (exists q h',
     MakeReservation.reservingRoom 1%positive
       (MakeReservation.mk_room_input "Egypt" "Cairo" "2025-01-25"
          "2025-01-28" 2 1 3 2) builder_store = Val (Some q, h'))
  /\ (forall q h',
        MakeReservation.reservingRoom 1%positive
          (MakeReservation.mk_room_input "Egypt" "Cairo" "2025-01-25"
             "2025-01-28" 2 1 3 2) builder_store = Val (Some q, h') ->
        exists c s fq,
          Reservation.getCost 1 q h' = Val c
          /\ (c =? 0)%float = true
          /\ owns h' q s fq
          /\ needed_rooms_of s = Some 0).
Proof.
  assert (is_int 3) as H3 by (unfold is_int, INT_MIN, INT_MAX; lia).
  assert (is_int 2) as H2 by (unfold is_int, INT_MIN, INT_MAX; lia).
  destruct (C4_reservingRoom_costs_nothing builder_store 1%positive _
              (MakeReservation.mk_room_input "Egypt" "Cairo" "2025-01-25"
                 "2025-01-28" 2 1 3 2) builder_store_builder H3 H2)
    as [Hsome Hzero].
  split; [|exact Hzero].
  apply Hsome. vm_compute. split; discriminate.
Defined.

(** ** The workflow on choices it accepts and on choices it turns down *)



(** X2. On a well-formed builder, the sentinel -1 and every choice above
    the size of the merged list make [reservingFlight] and [reservingRoom]
    return no reservation. *)
Theorem reserving_aborts :
  forall (h : heap) (this : loc) (m : MakeReservation.members_t)
         (fi : MakeReservation.flight_input)
         (ri : MakeReservation.room_input),
    builder h this m ->
    (MakeReservation.in_flight_choice fi = -1
     \/ MakeReservation.in_flight_choice fi
        > int_of_size (flat_map (flight_offers h)
                         (MakeReservation.Airports m)) ->
     exists h', MakeReservation.reservingFlight this fi h = Val (None, h'))
    /\ (MakeReservation.in_room_choice ri = -1
        \/ MakeReservation.in_room_choice ri
           > int_of_size (flat_map (room_offers h)
                            (MakeReservation.Hotels m)) ->
        exists h', MakeReservation.reservingRoom this ri h = Val (None, h')).
Proof.
  intros h this m fi ri Hb. split; intros Hc.
  - destruct (reservingFlight_run h this m fi Hb) as (h1 & ? & ? & ? & E & _).
    cbv zeta in E. rewrite E. exists h1.
    destruct (Z.eqb_spec (MakeReservation.in_flight_choice fi) (-1));
      [reflexivity|].
    destruct (Z.gtb_spec (MakeReservation.in_flight_choice fi)
                (int_of_size (flat_map (flight_offers h)
                                (MakeReservation.Airports m))));
      [reflexivity|lia].
  - destruct (reservingRoom_run h this m ri Hb) as (h1 & ? & ? & ? & E & _).
    cbv zeta in E. rewrite E. exists h1.
    destruct (Z.eqb_spec (MakeReservation.in_room_choice ri) (-1));
      [reflexivity|].
    destruct (Z.gtb_spec (MakeReservation.in_room_choice ri)
                (int_of_size (flat_map (room_offers h)
                                (MakeReservation.Hotels m))));
      [reflexivity|lia].
Qed.

Lemma reserving_aborts_witness :
  (exists h',
     MakeReservation.reservingFlight 1%positive
       (MakeReservation.mk_flight_input "Toronto" "2025-01-25" "Istanbul"
          "2025-02-10" 2 1 0 (-1)) builder_store = Val (None, h'))
  /\ (exists h',
        MakeReservation.reservingRoom 1%positive
          (MakeReservation.mk_room_input "Egypt" "Cairo" "2025-01-25"
             "2025-01-28" 2 1 3 7) builder_store = Val (None, h')).
Proof.
  destruct (reserving_aborts builder_store 1%positive _
              (MakeReservation.mk_flight_input "Toronto" "2025-01-25"
                 "Istanbul" "2025-02-10" 2 1 0 (-1))
              (MakeReservation.mk_room_input "Egypt" "Cairo" "2025-01-25"
                 "2025-01-28" 2 1 3 7) builder_store_builder)
    as [Hf Hr].
  split; [apply Hf; left; reflexivity|apply Hr; right; reflexivity].
Defined.

(** ** The scenarios of the specification *)

(** Toronto to Istanbul, 2 adults and 1 child, first flight of the merged
    list: a Canada reservation that costs 200 * 3. *)
Example scenario_flight :
  exists q h',
    MakeReservation.reservingFlight 1%positive
      (MakeReservation.mk_flight_input "Toronto" "2025-01-25" "Istanbul"
         "2025-02-10" 2 1 0 1) builder_store = Val (Some q, h')
    /\ (exists a b, h' !! q = Some (OCanadaFlightReservation a b))
    /\ Reservation.getCost 1 q h' = Val 600%float.
Proof.
  do 2 eexists. split; [vm_compute; reflexivity|].
  split; [do 2 eexists|]; reflexivity.
Qed.

(** One flight that costs 600 and one hotel room that costs 1800, added to
    an empty Itinerary: it costs 2400. *)
Example scenario_itinerary :
  exists h',
    Itinerary.addReservations (Reservation.clone 1) 1%positive
      [Some 2%positive; Some 5%positive] example_store = Val (tt, h')
    /\ Reservation.getCost 2 1%positive h' = Val 2400%float.
Proof. eexists. split; [vm_compute; reflexivity|reflexivity]. Qed.

(** * More stores to run the theorems on *)

Lemma example_owns_hilton1 :
  owns hotels_store 1%positive example_hilton
    {[1%positive; 2%positive; 3%positive]}.
Proof. apply owns_hilton; reflexivity. Defined.

Lemma example_owns_hilton2 :
  owns hotels_store 4%positive example_hilton2
    {[4%positive; 5%positive; 6%positive]}.
Proof. apply owns_hilton; reflexivity. Defined.

Lemma example_owns_canada2 :
  owns example_store 12%positive example_canada2
    {[12%positive; 13%positive; 14%positive]}.
Proof. apply owns_canada; reflexivity. Defined.

Lemma example_owns_itinerary15 :
  owns example_store 15%positive (SItinerary [example_marriott])
    ({[15%positive]}
     ∪ ({[16%positive; 17%positive; 18%positive]} ∪ ∅)).
Proof.
  apply owns_itinerary with (ps := [16%positive]).
  - reflexivity.
  - apply owns_cons; [apply owns_marriott; reflexivity|apply owns_nil
                     |set_solver].
  - set_solver.
Defined.

Lemma trip_store_builder : itinerary_builder trip_store trip_builder
                             trip_members [] ({[20%positive]} ∪ ∅).
Proof.
  exists 20%positive, 1%positive.
  split; [reflexivity|]. split; [reflexivity|]. split.
  - apply owns_itinerary with (ps := []);
      [reflexivity|apply owns_nil|set_solver].
  - split; [reflexivity|]. split.
    { repeat constructor.
      - exists 2%positive. split; [reflexivity|]. left.
        exists (Some 3%positive), (Some 4%positive). reflexivity.
      - exists 5%positive. split; [reflexivity|]. right.
        exists (Some 6%positive), (Some 7%positive). reflexivity. }
    split.
    { repeat constructor.
      - exists 8%positive. split; [reflexivity|]. left.
        exists 9%positive, (Some 10%positive), HiltonCustomerInfo.default.
        split; reflexivity.
      - exists 11%positive. split; [reflexivity|]. right.
        exists 12%positive, (Some 13%positive), MarriottCustomerInfo.default.
        split; reflexivity. }
    repeat split; intros l Hl; discriminate Hl.
Defined.



(** * Copies and moves of the adapters *)

Ltac adapter_unfold :=
  unfold CanadaFlightReservation.copy_assign,
    TurkishFlightReservation.copy_assign, HiltonHotelReservation.copy_assign,
    MarriottHotelReservation.copy_assign,
    TurkishFlightReservation.copy_members,
    HiltonHotelReservation.copy_members,
    MarriottHotelReservation.copy_members,
    TurkishFlightReservation.move_assign, HiltonHotelReservation.move_assign,
    MarriottHotelReservation.move_assign,
    HiltonHotelReservation.move_ctor, MarriottHotelReservation.move_ctor,
    CanadaFlightReservation.members, TurkishFlightReservation.members,
    HiltonHotelReservation.members, MarriottHotelReservation.members,
    store, deref, assign, reset, free.

(** The three cells of an adapter are distinct when they hold what an
    adapter's cells hold. *)
Ltac two_adapters Hd Hx :=
  inversion Hd as [? a b ? ? Hp Ha Hb|? a b ? ? Hp Ha Hb
                  |? a b ? ? Hp Ha Hb|? a b ? ? Hp Ha Hb|]; subst;
  inversion Hx as [? a' b' ? ? Hp' Ha' Hb'|? a' b' ? ? Hp' Ha' Hb'
                  |? a' b' ? ? Hp' Ha' Hb'|? a' b' ? ? Hp' Ha' Hb'|]; subst.

(** X3. Copy assignment of an adapter from another adapter of its class:
    the destination keeps its own two cells, which now hold copies of the
    records of the source; the source and every other cell are as they
    were, and no cell is allocated or released. Assigning an adapter to
    itself changes nothing. *)
Theorem adapter_copy_assign_copies_records :
  forall (h : heap) (dst x : loc) (sd sx : state) (fd fx : gset loc),
    owns h dst sd fd -> owns h x sx fx -> fd ## fx ->
    let copied (copy_assign : loc -> loc -> M unit) :=
      exists h',
        copy_assign dst x h = Val (tt, h')
        /\ owns h' dst sx fd /\ owns h' x sx fx
        /\ dom h' = dom h
        /\ (forall l, l ∉ fd -> h' !! l = h !! l)
        /\ copy_assign x x h = Val (tt, h) in
    match sd, sx with
    | SCanada _ _, SCanada _ _ => copied CanadaFlightReservation.copy_assign
    | STurkish _ _, STurkish _ _ => copied TurkishFlightReservation.copy_assign
    | SHilton _ _, SHilton _ _ => copied HiltonHotelReservation.copy_assign
    | SMarriott _ _, SMarriott _ _ =>
        copied MarriottHotelReservation.copy_assign
    | _, _ => True
    end.
Proof.
  intros h dst x sd sx fd fx Hd Hx Hdisj copied. subst copied.
  assert (dst <> x) as Hne.
  { intros ->. apply (Hdisj x); eapply owns_root; eauto. }
  two_adapters Hd Hx; try exact I;
    (assert (a <> a')
       by (intros E; apply (Hdisj a); [|rewrite E]; set_solver));
    (assert (a <> b') by (clear - Hdisj; set_solver));
    (assert (b <> a') by (clear - Hdisj; set_solver));
    (assert (b <> b') by (clear - Hdisj; set_solver));
    (assert (a <> b) by congruence);
    (assert (dst <> a) by congruence); (assert (dst <> b) by congruence);
    (assert (dst <> a') by congruence); (assert (dst <> b') by congruence);
    (assert (x <> a) by congruence); (assert (x <> b) by congruence);
    adapter_unfold;
    (destruct (Pos.eqb_spec dst x) as [?|_]; [contradiction|]);
    rewrite Pos.eqb_refl; mrun;
    (eexists; split; [reflexivity|]);
    (split; [constructor; lookups; reflexivity|]);
    (split; [constructor; lookups; reflexivity|]);
    (split; [rewrite !dom_insert_L;
             assert (a ∈ dom h) as Ha1 by (apply elem_of_dom; eauto);
             assert (b ∈ dom h) as Hb1 by (apply elem_of_dom; eauto);
             clear - Ha1 Hb1; set_solver|]);
    (split; [|reflexivity]);
    intros l Hl; rewrite !lookup_insert_ne by (clear - Hl; set_solver);
    reflexivity.
Qed.

Lemma adapter_copy_assign_copies_records_witness :
  exists h',
    CanadaFlightReservation.copy_assign 12%positive 2%positive example_store
    = Val (tt, h')
    /\ owns h' 12%positive example_canada
         {[12%positive; 13%positive; 14%positive]}
    /\ owns h' 2%positive example_canada
         {[2%positive; 3%positive; 4%positive]}
    /\ dom h' = dom example_store
    /\ (forall l, l ∉ ({[12%positive; 13%positive; 14%positive]} : gset loc) ->
                  h' !! l = example_store !! l)
    /\ CanadaFlightReservation.copy_assign 2%positive 2%positive
         example_store = Val (tt, example_store).
Proof.
  apply (adapter_copy_assign_copies_records example_store 12%positive
           2%positive example_canada2 example_canada _ _
           example_owns_canada2 example_owns_canada).
  set_solver.
Defined.

(** X4. Move assignment of a Turkish, Hilton or Marriott adapter from
    another adapter of its class: the destination takes over the two record
    objects of the source (the same cells, not copies), the records it held
    before are deleted, and the source is left with two null members, so
    that its [getCost()] dereferences a null pointer. Every other cell is as
    it was. Moving an adapter to itself changes nothing. *)
Theorem adapter_move_assign_transfers :
  forall (h : heap) (dst x : loc) (sd sx : state) (fd fx : gset loc),
    owns h dst sd fd -> owns h x sx fx -> fd ## fx ->
    let moved (move_assign : loc -> loc -> M unit)
              (members : loc -> R (ptr * ptr)) (getCost : loc -> R double) :=
      exists h' a b,
        move_assign dst x h = Val (tt, h')
        /\ members x h = Val (Some a, Some b)
        /\ members dst h' = Val (Some a, Some b)
        /\ members x h' = Val (None, None)
        /\ owns h' dst sx {[dst; a; b]}
        /\ getCost x h' = Undefined
        /\ (forall l, l ∈ fd -> l <> dst -> h' !! l = None)
        /\ (forall l, l ∉ fd -> l <> x -> h' !! l = h !! l)
        /\ move_assign x x h = Val (tt, h) in
    match sd, sx with
    | STurkish _ _, STurkish _ _ =>
        moved TurkishFlightReservation.move_assign
          TurkishFlightReservation.members TurkishFlightReservation.getCost
    | SHilton _ _, SHilton _ _ =>
        moved HiltonHotelReservation.move_assign
          HiltonHotelReservation.members HiltonHotelReservation.getCost
    | SMarriott _ _, SMarriott _ _ =>
        moved MarriottHotelReservation.move_assign
          MarriottHotelReservation.members MarriottHotelReservation.getCost
    | _, _ => True
    end.
Proof.
  intros h dst x sd sx fd fx Hd Hx Hdisj moved. subst moved.
  assert (dst <> x) as Hne.
  { intros ->. apply (Hdisj x); eapply owns_root; eauto. }
  two_adapters Hd Hx; try exact I;
    (assert (a <> a')
       by (intros E; apply (Hdisj a); [|rewrite E]; set_solver));
    (assert (a <> b') by (clear - Hdisj; set_solver));
    (assert (b <> a') by (clear - Hdisj; set_solver));
    (assert (b <> b') by (clear - Hdisj; set_solver));
    (assert (a <> b) by congruence);
    (assert (dst <> a) by congruence); (assert (dst <> b) by congruence);
    (assert (dst <> a') by congruence); (assert (dst <> b') by congruence);
    (assert (x <> a) by congruence); (assert (x <> b) by congruence);
    (assert (x <> a') by congruence); (assert (x <> b') by congruence);
    unfold TurkishFlightReservation.getCost, HiltonHotelReservation.getCost,
      MarriottHotelReservation.getCost;
    adapter_unfold;
    (destruct (Pos.eqb_spec dst x) as [?|_]; [contradiction|]);
    rewrite Pos.eqb_refl; mrun;
    (eexists; exists a', b'; split; [reflexivity|]);
    (split; [reflexivity|]); mrun;
    (split; [reflexivity|]); (split; [reflexivity|]);
    (split; [constructor; lookups; reflexivity|]);
    (split; [reflexivity|]);
    (split; [|split; [|reflexivity]]);
    [ intros l Hl Hld;
      assert (l = a \/ l = b) as [->| ->] by (clear - Hl Hld; set_solver);
      lookups; reflexivity
    | intros l Hl Hlx;
      assert (l <> dst /\ l <> a /\ l <> b) as (? & ? & ?)
        by (clear - Hl; set_solver);
      lookups; reflexivity
    | intros l Hl Hld;
      assert (l = a \/ l = b) as [->| ->] by (clear - Hl Hld; set_solver);
      lookups; reflexivity
    | intros l Hl Hlx;
      assert (l <> dst /\ l <> a /\ l <> b) as (? & ? & ?)
        by (clear - Hl; set_solver);
      lookups; reflexivity
    | intros l Hl Hld;
      assert (l = a \/ l = b) as [->| ->] by (clear - Hl Hld; set_solver);
      lookups; reflexivity
    | intros l Hl Hlx;
      assert (l <> dst /\ l <> a /\ l <> b) as (? & ? & ?)
        by (clear - Hl; set_solver);
      lookups; reflexivity ].
Qed.

Lemma adapter_move_assign_transfers_witness :
  exists h' a b,
    HiltonHotelReservation.move_assign 4%positive 1%positive hotels_store
    = Val (tt, h')
    /\ HiltonHotelReservation.members 1%positive hotels_store
       = Val (Some a, Some b)
    /\ HiltonHotelReservation.members 4%positive h' = Val (Some a, Some b)
    /\ HiltonHotelReservation.members 1%positive h' = Val (None, None)
    /\ owns h' 4%positive example_hilton {[4%positive; a; b]}
    /\ HiltonHotelReservation.getCost 1%positive h' = Undefined
    /\ (forall l, l ∈ ({[4%positive; 5%positive; 6%positive]} : gset loc) ->
                  l <> 4%positive -> h' !! l = None)
    /\ (forall l, l ∉ ({[4%positive; 5%positive; 6%positive]} : gset loc) ->
                  l <> 1%positive -> h' !! l = hotels_store !! l)
    /\ HiltonHotelReservation.move_assign 1%positive 1%positive hotels_store
       = Val (tt, hotels_store).
Proof.
  apply (adapter_move_assign_transfers hotels_store 4%positive 1%positive
           example_hilton2 example_hilton _ _ example_owns_hilton2
           example_owns_hilton1).
  set_solver.
Defined.

(** X5. The move constructors of the two hotel adapters: the new adapter
    takes over the two record objects of the source, whatever its storage
    held, and the source is left with two null members. No cell is
    allocated, released or copied. *)
Theorem hotel_move_ctor_transfers :
  forall (h : heap) (q x : loc) (o : obj) (sx : state) (fx : gset loc),
    owns h x sx fx -> h !! q = Some o -> q ∉ fx ->
    let moved (move_ctor : loc -> loc -> M unit)
              (members : loc -> R (ptr * ptr)) :=
      exists h' a b,
        move_ctor q x h = Val (tt, h')
        /\ members x h = Val (Some a, Some b)
        /\ members x h' = Val (None, None)
        /\ owns h' q sx {[q; a; b]}
        /\ dom h' = dom h
        /\ (forall l, l <> q -> l <> x -> h' !! l = h !! l) in
    match sx with
    | SHilton _ _ =>
        moved HiltonHotelReservation.move_ctor HiltonHotelReservation.members
    | SMarriott _ _ =>
        moved MarriottHotelReservation.move_ctor
          MarriottHotelReservation.members
    | _ => True
    end.
Proof.
  intros h q x o sx fx Hx Hq Hn moved. subst moved.
  inversion Hx as [| |? a b ? ? Hp Ha Hb|? a b ? ? Hp Ha Hb|]; subst;
    try exact I;
    (assert (q <> x /\ q <> a /\ q <> b) as (? & ? & ?)
       by (clear - Hn; set_solver));
    (assert (x <> a) by congruence); (assert (x <> b) by congruence);
    adapter_unfold; mrun;
    (eexists; exists a, b; split; [reflexivity|]);
    (split; [reflexivity|]); mrun; (split; [reflexivity|]);
    (split; [constructor; lookups; reflexivity|]);
    (split; [rewrite !dom_insert_L;
             assert (q ∈ dom h) as Hq1 by (apply elem_of_dom; eauto);
             assert (x ∈ dom h) as Hx1 by (apply elem_of_dom; eauto);
             clear - Hq1 Hx1; set_solver|]);
    intros l ? ?; lookups; reflexivity.
Qed.

Lemma hotel_move_ctor_transfers_witness :
  exists h' a b,
    HiltonHotelReservation.move_ctor 7%positive 1%positive hotels_store
    = Val (tt, h')
    /\ HiltonHotelReservation.members 1%positive hotels_store
       = Val (Some a, Some b)
    /\ HiltonHotelReservation.members 1%positive h' = Val (None, None)
    /\ owns h' 7%positive example_hilton {[7%positive; a; b]}
    /\ dom h' = dom hotels_store
    /\ (forall l, l <> 7%positive -> l <> 1%positive ->
                  h' !! l = hotels_store !! l).
Proof.
  apply (hotel_move_ctor_transfers hotels_store 7%positive 1%positive
           (OHiltonHotelReservation None None) example_hilton _
           example_owns_hilton1 eq_refl).
  set_solver.
Defined.

(** X6. An adapter whose members are null, as a hotel adapter is after it
    was moved from. Its [getCost()] and [getDetails()] dereference a null
    pointer, for every class. [clone()] goes through the copy constructor:
    the one of the Hilton adapter dereferences the null members, while the
    ones of the Marriott and Turkish adapters test them first, and yield an
    adapter with default-valued records. *)
Theorem moved_from_adapter :
  forall (h : heap) (x : loc),
    (h !! x = Some (OHiltonHotelReservation None None) ->
       HiltonHotelReservation.getCost x h = Undefined
       /\ HiltonHotelReservation.getDetails x h = Undefined
       /\ HiltonHotelReservation.clone x h = Undefined
       /\ Reservation.clone 1 x h = Undefined)
    /\ (h !! x = Some (OMarriottHotelReservation None None) ->
          MarriottHotelReservation.getCost x h = Undefined
          /\ MarriottHotelReservation.getDetails x h = Undefined
          /\ exists q h' fq,
               MarriottHotelReservation.clone x h = Val (q, h')
               /\ owns h' q (SMarriott MarriottCustomerInfo.default
                               MarriottFoundRoom.default) fq
               /\ h ⊆ h')
    /\ (h !! x = Some (OTurkishFlightReservation None None) ->
          TurkishFlightReservation.getCost x h = Undefined
          /\ TurkishFlightReservation.getDetails x h = Undefined
          /\ exists q h' fq,
               TurkishFlightReservation.clone x h = Val (q, h')
               /\ owns h' q (STurkish TurkishCustomerInfo.default
                               TurkishFlight.default) fq
               /\ h ⊆ h').
Proof.
  intros h x. split; [|split]; intros Hx.
  - unfold HiltonHotelReservation.getDetails, HiltonHotelReservation.getCost,
      HiltonHotelReservation.members, deref. rewrite Hx.
    split; [reflexivity|]. split; [reflexivity|].
    assert (HiltonHotelReservation.clone x h = Undefined) as E.
    { unfold HiltonHotelReservation.clone, HiltonHotelReservation.copy_ctor,
        HiltonHotelReservation.copy_members, HiltonHotelReservation.ctor. mred.
      alloc q Hq. mred. alloc a Ha. mred. alloc b Hb.
      assert (q <> x) by congruence. assert (a <> x) by congruence.
      assert (b <> x) by congruence.
      unfold store, HiltonHotelReservation.members, deref, assign. mrun.
      reflexivity. }
    split; [exact E|]. simpl. rewrite Hx. exact E.
  - unfold MarriottHotelReservation.getDetails,
      MarriottHotelReservation.getCost, MarriottHotelReservation.members,
      deref. rewrite Hx.
    split; [reflexivity|]. split; [reflexivity|].
    unfold MarriottHotelReservation.clone, MarriottHotelReservation.copy_ctor,
      MarriottHotelReservation.copy_members, MarriottHotelReservation.ctor.
    mred. alloc q Hq. mred. alloc a Ha. mred. alloc b Hb.
    assert (q <> x) by congruence. assert (a <> x) by congruence.
    assert (b <> x) by congruence.
    unfold store, MarriottHotelReservation.members, deref, assign. mrun.
    exists q. eexists. exists {[q; a; b]}. split; [reflexivity|]. split.
    + constructor; lookups; reflexivity.
    + apply map_subseteq_spec; intros ? ? ?; lookups; auto.
  - unfold TurkishFlightReservation.getDetails,
      TurkishFlightReservation.getCost, TurkishFlightReservation.members,
      deref. rewrite Hx.
    split; [reflexivity|]. split; [reflexivity|].
    unfold TurkishFlightReservation.clone, TurkishFlightReservation.copy_ctor,
      TurkishFlightReservation.copy_members, TurkishFlightReservation.ctor.
    mred. alloc q Hq. mred. alloc a Ha. mred. alloc b Hb.
    assert (q <> x) by congruence. assert (a <> x) by congruence.
    assert (b <> x) by congruence.
    unfold store, TurkishFlightReservation.members, deref, assign. mrun.
    exists q. eexists. exists {[q; a; b]}. split; [reflexivity|]. split.
    + constructor; lookups; reflexivity.
    + apply map_subseteq_spec; intros ? ? ?; lookups; auto.
Qed.

Lemma moved_from_adapter_witness :
  (HiltonHotelReservation.getCost 1%positive moved_store = Undefined
   /\ HiltonHotelReservation.getDetails 1%positive moved_store = Undefined
   /\ HiltonHotelReservation.clone 1%positive moved_store = Undefined
   /\ Reservation.clone 1 1%positive moved_store = Undefined)
  /\ (MarriottHotelReservation.getCost 2%positive moved_store = Undefined
      /\ MarriottHotelReservation.getDetails 2%positive moved_store
         = Undefined
      /\ exists q h' fq,
           MarriottHotelReservation.clone 2%positive moved_store = Val (q, h')
           /\ owns h' q (SMarriott MarriottCustomerInfo.default
                           MarriottFoundRoom.default) fq
           /\ moved_store ⊆ h')
  /\ (TurkishFlightReservation.getCost 3%positive moved_store = Undefined
      /\ TurkishFlightReservation.getDetails 3%positive moved_store
         = Undefined
      /\ exists q h' fq,
           TurkishFlightReservation.clone 3%positive moved_store = Val (q, h')
           /\ owns h' q (STurkish TurkishCustomerInfo.default
                           TurkishFlight.default) fq
           /\ moved_store ⊆ h').
Proof.
  split; [|split].
  - exact (proj1 (moved_from_adapter moved_store 1%positive) eq_refl).
  - exact (proj1 (proj2 (moved_from_adapter moved_store 2%positive)) eq_refl).
  - exact (proj2 (proj2 (moved_from_adapter moved_store 3%positive)) eq_refl).
Defined.

(** X7. On a well-formed adapter, [makeReservation()] reports success for the
    four classes; [cancelReservation()] reports success for the two hotel
    adapters and failure for the two flight adapters, whose vendor calls
    return false. *)
Theorem adapter_make_and_cancel :
  forall (h : heap) (x : loc) (s : state) (fx : gset loc),
    owns h x s fx ->
    match s with
    | SCanada _ _ =>
        CanadaFlightReservation.makeReservation x h = Val true
        /\ CanadaFlightReservation.cancelReservation x h = Val false
    | STurkish _ _ =>
        TurkishFlightReservation.makeReservation x h = Val true
        /\ TurkishFlightReservation.cancelReservation x h = Val false
    | SHilton _ _ =>
        HiltonHotelReservation.makeReservation x h = Val true
        /\ HiltonHotelReservation.cancelReservation x h = Val true
    | SMarriott _ _ =>
        MarriottHotelReservation.makeReservation x h = Val true
        /\ MarriottHotelReservation.cancelReservation x h = Val true
    | SItinerary _ => True
    end.
Proof.
  intros h x s fx Hx.
  inversion Hx as [? a b ? ? Hp Ha Hb|? a b ? ? Hp Ha Hb
                  |? a b ? ? Hp Ha Hb|? a b ? ? Hp Ha Hb|]; subst;
    try exact I;
    unfold CanadaFlightReservation.makeReservation,
      CanadaFlightReservation.cancelReservation,
      TurkishFlightReservation.makeReservation,
      TurkishFlightReservation.cancelReservation,
      HiltonHotelReservation.makeReservation,
      HiltonHotelReservation.cancelReservation,
      MarriottHotelReservation.makeReservation,
      MarriottHotelReservation.cancelReservation;
    adapter_unfold; run_reader; split; reflexivity.
Qed.

Lemma adapter_make_and_cancel_witness :
  (CanadaFlightReservation.makeReservation 2%positive example_store = Val true
   /\ CanadaFlightReservation.cancelReservation 2%positive example_store
      = Val false)
  /\ (HiltonHotelReservation.makeReservation 5%positive example_store
      = Val true
      /\ HiltonHotelReservation.cancelReservation 5%positive example_store
         = Val true).
Proof.
  split.
  - exact (adapter_make_and_cancel example_store 2%positive example_canada _
             example_owns_canada).
  - exact (adapter_make_and_cancel example_store 5%positive example_hilton _
             example_owns_hilton).
Defined.

(** * The Itinerary: moves, copies, destruction *)

Lemma fmap_Some_inj (ps qs : list loc) :
  Some <$> ps = Some <$> qs -> ps = qs.
Proof.
  intros E. eapply (list_fmap_eq_inj Some); [|exact E].
  intros ? ? [=]; auto.
Qed.

Lemma destroy_all (fuel : nat) (ss : list state) :
  (depth (SItinerary ss) <= fuel)%nat ->
  Forall (destroy_ok (Reservation.destroy fuel)) ss.
Proof.
  intros Hd. apply List.Forall_forall. intros t Ht. apply destroy_owns.
  pose proof (depth_element t ss Ht). lia.
Qed.

(** X8. [delete] on a well-formed reservation, through the virtual
    destructor: every cell the reservation owns is released, down through
    nested Itineraries, and no other cell is touched. *)
Theorem delete_releases_the_owned_cells :
  forall (h : heap) (p : loc) (s : state) (fp : gset loc),
    owns h p s fp ->
    exists n0 : nat, forall fuel : nat, (n0 <= fuel)%nat ->
      exists h',
        Reservation.destroy fuel p h = Val (tt, h')
        /\ (forall l, l ∈ fp -> h' !! l = None)
        /\ (forall l, l ∉ fp -> h' !! l = h !! l)
        /\ dom h' = dom h ∖ fp.
Proof.
  intros h p s fp Ho. exists (S (depth s)). intros fuel Hf.
  destruct (destroy_owns fuel s ltac:(lia) h p fp Ho) as (h' & E & Hout & Hin).
  exists h'. split; [exact E|]. split; [exact Hin|]. split; [exact Hout|].
  apply set_eq. intros l. rewrite elem_of_difference, !elem_of_dom.
  destruct (decide (l ∈ fp)) as [Hl|Hl].
  - rewrite (Hin l Hl). split; [intros [? [=]]|intros [_ ?]; contradiction].
  - rewrite (Hout l Hl). tauto.
Qed.

Lemma delete_releases_the_owned_cells_witness :
  exists n0 : nat, forall fuel : nat, (n0 <= fuel)%nat ->
    exists h',
      Reservation.destroy fuel 8%positive example_store = Val (tt, h')
      /\ (forall l,
            l ∈ ({[8%positive]}
                 ∪ ({[9%positive; 10%positive; 11%positive]} ∪ ∅)
                 : gset loc) -> h' !! l = None)
      /\ (forall l,
            l ∉ ({[8%positive]}
                 ∪ ({[9%positive; 10%positive; 11%positive]} ∪ ∅)
                 : gset loc) -> h' !! l = example_store !! l)
      /\ dom h'
         = dom example_store
           ∖ ({[8%positive]}
              ∪ ({[9%positive; 10%positive; 11%positive]} ∪ ∅)).
Proof.
  exact (delete_releases_the_owned_cells example_store 8%positive _ _
           example_owns_itinerary).
Defined.

(** X9. [clear()] on a well-formed Itinerary destroys its elements: the
    Itinerary is left empty, every cell its elements owned is released, and
    no other cell is touched. *)
Theorem clear_releases_the_elements :
  forall (h : heap) (it : loc) (ss : list state) (fi : gset loc),
    owns h it (SItinerary ss) fi ->
    exists n0 : nat, forall fuel : nat, (n0 <= fuel)%nat ->
      exists h',
        Itinerary.clear (Reservation.destroy fuel) it h = Val (tt, h')
        /\ owns h' it (SItinerary []) ({[it]} ∪ ∅)
        /\ Itinerary.isEmpty it h' = Val true
        /\ (forall l, l ∈ fi -> l <> it -> h' !! l = None)
        /\ (forall l, l ∉ fi -> h' !! l = h !! l).
Proof.
  intros h it ss fi Ho. exists (depth (SItinerary ss)). intros fuel Hf.
  inversion Ho as [| | | |? ps ? fps Hp Hl Hn]; subst.
  destruct (destroy_each_owns (Reservation.destroy fuel) ps ss h fps Hl
              (destroy_all fuel ss Hf)) as (h1 & E & Hout & Hin).
  unfold Itinerary.clear, Itinerary.Reservations. mrun. rewrite E.
  unfold store. mred. rewrite (Hout it Hn), Hp.
  eexists. split; [reflexivity|].
  split. { apply owns_itinerary with (ps := []).
           - apply lookup_insert_eq.
           - constructor.
           - set_solver. }
  split. { unfold Itinerary.isEmpty, Itinerary.Reservations.
           rewrite lookup_insert_eq. reflexivity. }
  split.
  - intros l Hl1 Hl2. rewrite lookup_insert_ne by auto. apply Hin.
    clear - Hl1 Hl2. set_solver.
  - intros l Hl1. rewrite lookup_insert_ne by (clear - Hl1; set_solver).
    apply Hout. clear - Hl1. set_solver.
Qed.

Lemma clear_releases_the_elements_witness :
  exists n0 : nat, forall fuel : nat, (n0 <= fuel)%nat ->
    exists h',
      Itinerary.clear (Reservation.destroy fuel) 8%positive example_store
      = Val (tt, h')
      /\ owns h' 8%positive (SItinerary []) ({[8%positive]} ∪ ∅)
      /\ Itinerary.isEmpty 8%positive h' = Val true
      /\ (forall l,
            l ∈ ({[8%positive]}
                 ∪ ({[9%positive; 10%positive; 11%positive]} ∪ ∅)
                 : gset loc) -> l <> 8%positive -> h' !! l = None)
      /\ (forall l,
            l ∉ ({[8%positive]}
                 ∪ ({[9%positive; 10%positive; 11%positive]} ∪ ∅)
                 : gset loc) -> h' !! l = example_store !! l).
Proof.
  exact (clear_releases_the_elements example_store 8%positive _ _
           example_owns_itinerary).
Defined.

(** X10. Move assignment of a well-formed Itinerary [b] to a well-formed
    Itinerary [a] that shares no cell with it: [a] takes over the vector of
    [b], with the same element objects and not clones of them; the elements
    [a] held before are destroyed and their cells released; [b] is left
    empty. Moving an Itinerary to itself changes nothing. *)
Theorem itinerary_move_assign_transfers :
  forall (h : heap) (a b : loc) (ssa ssb : list state) (fa fb : gset loc),
    owns h a (SItinerary ssa) fa -> owns h b (SItinerary ssb) fb ->
    fa ## fb ->
    exists n0 : nat, forall fuel : nat, (n0 <= fuel)%nat ->
      exists h' rs fa',
        Itinerary.move_assign (Reservation.destroy fuel) a b h = Val (tt, h')
        /\ Itinerary.Reservations b h = Val rs
        /\ Itinerary.Reservations a h' = Val rs
        /\ Itinerary.Reservations b h' = Val []
        /\ owns h' a (SItinerary ssb) fa'
        /\ fa' ∪ {[b]} = {[a]} ∪ fb
        /\ (forall l, l ∈ fa -> l <> a -> h' !! l = None)
        /\ (forall l, l ∉ fa -> l <> b -> h' !! l = h !! l)
        /\ Itinerary.move_assign (Reservation.destroy fuel) a a h
           = Val (tt, h).
Proof.
  intros h a b ssa ssb fa fb Ha Hb Hdisj.
  exists (depth (SItinerary ssa)). intros fuel Hf.
  inversion Ha as [| | | |? psa ? fpa Hpa Hla Hna]; subst.
  inversion Hb as [| | | |? psb ? fpb Hpb Hlb Hnb]; subst.
  assert (a <> b) as Hab by (intros ->; clear - Hdisj; set_solver).
  assert (b ∉ fpa) as Hbna by (clear - Hdisj; set_solver).
  assert (a ∉ fpb) as Hanb by (clear - Hdisj; set_solver).
  unfold Itinerary.move_assign. rewrite Pos.eqb_refl.
  destruct (Pos.eqb_spec a b) as [?|_]; [contradiction|].
  unfold Itinerary.Reservations, store. mrun.
  set (h2 := <[b := OItinerary []]> (<[a := OItinerary (Some <$> psb)]> h)).
  assert (owns_list h2 psa ssa fpa) as Hla2.
  { eapply owns_list_frame; [exact Hla|]. intros l Hl. unfold h2.
    rewrite !lookup_insert_ne; auto; intros ->; contradiction. }
  destruct (destroy_each_owns (Reservation.destroy fuel) psa ssa h2 fpa Hla2
              (destroy_all fuel ssa Hf)) as (h3 & E & Hout & Hin).
  rewrite E. exists h3, (Some <$> psb), ({[a]} ∪ fpb).
  assert (h3 !! a = Some (OItinerary (Some <$> psb))) as Ha3.
  { rewrite (Hout a Hna). unfold h2. lookups. reflexivity. }
  assert (h3 !! b = Some (OItinerary [])) as Hb3.
  { rewrite (Hout b Hbna). unfold h2. lookups. reflexivity. }
  split; [reflexivity|]. split; [reflexivity|].
  rewrite Ha3, Hb3. split; [reflexivity|]. split; [reflexivity|].
  split.
  { apply owns_itinerary with (ps := psb); auto.
    eapply owns_list_frame; [exact Hlb|]. intros l Hl.
    rewrite Hout by (clear - Hdisj Hl; set_solver). unfold h2.
    rewrite !lookup_insert_ne; auto; intros ->; contradiction. }
  split. { clear - Hnb Hanb Hab. set_solver. }
  split; [|split; [|reflexivity]].
  - intros l Hl Hla'. apply Hin. clear - Hl Hla'. set_solver.
  - intros l Hl Hlb'. rewrite Hout by (clear - Hl; set_solver). unfold h2.
    rewrite !lookup_insert_ne; auto. intros ->. clear - Hl. set_solver.
Qed.

Lemma itinerary_move_assign_transfers_witness :
  exists n0 : nat, forall fuel : nat, (n0 <= fuel)%nat ->
    exists h' rs fa',
      Itinerary.move_assign (Reservation.destroy fuel) 8%positive 15%positive
        example_store = Val (tt, h')
      /\ Itinerary.Reservations 15%positive example_store = Val rs
      /\ Itinerary.Reservations 8%positive h' = Val rs
      /\ Itinerary.Reservations 15%positive h' = Val []
      /\ owns h' 8%positive (SItinerary [example_marriott]) fa'
      /\ fa' ∪ {[15%positive]}
         = {[8%positive]}
           ∪ ({[15%positive]}
              ∪ ({[16%positive; 17%positive; 18%positive]} ∪ ∅))
      /\ (forall l,
            l ∈ ({[8%positive]}
                 ∪ ({[9%positive; 10%positive; 11%positive]} ∪ ∅)
                 : gset loc) -> l <> 8%positive -> h' !! l = None)
      /\ (forall l,
            l ∉ ({[8%positive]}
                 ∪ ({[9%positive; 10%positive; 11%positive]} ∪ ∅)
                 : gset loc) -> l <> 15%positive ->
            h' !! l = example_store !! l)
      /\ Itinerary.move_assign (Reservation.destroy fuel) 8%positive
           8%positive example_store = Val (tt, example_store).
Proof.
  apply (itinerary_move_assign_transfers example_store 8%positive 15%positive
           _ _ _ _ example_owns_itinerary example_owns_itinerary15).
  set_solver.
Defined.

(** X11. The move constructor of Itinerary: the new Itinerary takes over the
    vector of the source, with the same element objects, and the source is
    left empty. *)
Theorem itinerary_move_ctor_transfers :
  forall (h : heap) (q b : loc) (o : obj) (ssb : list state) (fb : gset loc),
    owns h b (SItinerary ssb) fb -> h !! q = Some o -> q ∉ fb ->
    exists h' rs fq,
      Itinerary.move_ctor q b h = Val (tt, h')
      /\ Itinerary.Reservations b h = Val rs
      /\ Itinerary.Reservations q h' = Val rs
      /\ Itinerary.Reservations b h' = Val []
      /\ owns h' q (SItinerary ssb) fq
      /\ fq ∪ {[b]} = {[q]} ∪ fb
      /\ (forall l, l <> q -> l <> b -> h' !! l = h !! l).
Proof.
  intros h q b o ssb fb Hb Hq Hn.
  inversion Hb as [| | | |? psb ? fpb Hpb Hlb Hnb]; subst.
  assert (q <> b) as Hqb by (clear - Hn; set_solver).
  assert (q ∉ fpb) as Hqn by (clear - Hn; set_solver).
  unfold Itinerary.move_ctor, Itinerary.Reservations, store. mrun.
  eexists. exists (Some <$> psb), ({[q]} ∪ fpb).
  split; [reflexivity|]. split; [reflexivity|]. mrun.
  split; [reflexivity|]. split; [reflexivity|].
  split.
  { apply owns_itinerary with (ps := psb); auto.
    - lookups. reflexivity.
    - eapply owns_list_frame; [exact Hlb|]. intros l Hl.
      rewrite !lookup_insert_ne; auto; intros ->; contradiction. }
  split. { clear - Hnb Hqn Hqb. set_solver. }
  intros l ? ?. lookups. reflexivity.
Qed.

Lemma itinerary_move_ctor_transfers_witness :
  exists h' rs fq,
    Itinerary.move_ctor 1%positive 8%positive example_store = Val (tt, h')
    /\ Itinerary.Reservations 8%positive example_store = Val rs
    /\ Itinerary.Reservations 1%positive h' = Val rs
    /\ Itinerary.Reservations 8%positive h' = Val []
    /\ owns h' 1%positive (SItinerary [example_turkish]) fq
    /\ fq ∪ {[8%positive]}
       = {[1%positive]}
         ∪ ({[8%positive]}
            ∪ ({[9%positive; 10%positive; 11%positive]} ∪ ∅))
    /\ (forall l, l <> 1%positive -> l <> 8%positive ->
                  h' !! l = example_store !! l).
Proof.
  apply (itinerary_move_ctor_transfers example_store 1%positive 8%positive
           (OItinerary []) _ _ example_owns_itinerary eq_refl).
  set_solver.
Defined.

Lemma fold_left_add_app (ssa ssb : list state) (z : double) :
  fold_left (fun a s' => (a + cost_of s')%float) (ssa ++ ssb) z
  = fold_left (fun a s' => (a + cost_of s')%float) ssb
      (fold_left (fun a s' => (a + cost_of s')%float) ssa z).
Proof. apply fold_left_app. Qed.

Lemma depth_app (ssa ssb : list state) :
  depth (SItinerary (ssa ++ ssb))
  = Nat.max (depth (SItinerary ssa)) (depth (SItinerary ssb)).
Proof.
  simpl. rewrite map_app, list_max_app. lia.
Qed.



(** X13. What [getDetails] of a well-formed Itinerary writes: a header with
    the number of its elements; then, for each element in order, what the
    element's own [getDetails] writes to the stream, followed by a line feed
    that goes to [std::cout] whatever the stream is; then a line with the
    value of its [getCost()], and a rule. *)
Theorem itinerary_getDetails_layout :
  forall (h : heap) (it : loc) (ps : list loc) (ss : list state)
         (fi : gset loc),
    owns h it (SItinerary ss) fi ->
    h !! it = Some (OItinerary (Some <$> ps)) ->
    exists n0 : nat, forall fuel : nat, (n0 <= fuel)%nat ->
      exists (outs : list output) (c : double),
        Forall2 (fun p out => Reservation.getDetails fuel p h = Val out)
          ps outs
        /\ Reservation.getCost fuel it h = Val c
        /\ Reservation.getDetails fuel it h
           = Val (put [ Str "Itinerary of "; Size (length ps);
                        Str (" sub-reservations: " ++ LF) ]
                  ++ flat_map (fun out => out ++ [(to_cout, Str LF)]) outs
                  ++ put [ Str (LF ++ "Itinerary Cost: "); Dbl c ]
                  ++ put [ Str (LF ++ "----------------------------------"
                                ++ LF) ]).
Proof.
  intros h it ps ss fi Ho Hcell.
  exists (S (depth (SItinerary ss))). intros fuel Hf.
  inversion Ho as [| | | |? ps' ? fps Hp Hl Hn]; subst.
  assert (ps' = ps) as ->.
  { rewrite Hcell in Hp. injection Hp as Hp. symmetry.
    apply fmap_Some_inj. exact Hp. }
  exists (map details_of ss), (cost_of (SItinerary ss)).
  split; [|split].
  - assert (forall t, In t ss -> (depth t < fuel)%nat) as Hdt.
    { intros t Ht. pose proof (depth_element t ss Ht). lia. }
    clear - Hl Hdt. induction Hl as [|q qs s ss fq fqs Hq Hqs IH D].
    + constructor.
    + constructor.
      * eapply getDetails_owns; eauto. apply Hdt. left. reflexivity.
      * apply IH. intros t Ht. apply Hdt. right. exact Ht.
  - eapply getCost_owns; eauto; lia.
  - rewrite (getDetails_owns fuel h it _ _ Ho) by lia.
    cbn [details_of]. unfold Itinerary.details.
    rewrite (owns_list_length _ _ _ _ Hl).
    do 3 f_equal. clear. induction ss as [|s ss IH]; simpl; [reflexivity|].
    rewrite IH. reflexivity.
Qed.

Lemma itinerary_getDetails_layout_witness :
  exists n0 : nat, forall fuel : nat, (n0 <= fuel)%nat ->
    exists (outs : list output) (c : double),
      Forall2 (fun p out =>
                 Reservation.getDetails fuel p example_store = Val out)
        [9%positive] outs
      /\ Reservation.getCost fuel 8%positive example_store = Val c
      /\ Reservation.getDetails fuel 8%positive example_store
         = Val (put [ Str "Itinerary of "; Size (length [9%positive]);
                      Str (" sub-reservations: " ++ LF) ]
                ++ flat_map (fun out => out ++ [(to_cout, Str LF)]) outs
                ++ put [ Str (LF ++ "Itinerary Cost: "); Dbl c ]
                ++ put [ Str (LF ++ "----------------------------------"
                              ++ LF) ]).
Proof.
  exact (itinerary_getDetails_layout example_store 8%positive [9%positive]
           _ _ example_owns_itinerary eq_refl).
Defined.

(** * The workflow keeps the builder well-formed *)

(** The closing steps shared by the four adapters built by the factory. *)
Ltac adapter_made q a b :=
  exists q; eexists; exists {[q; a; b]};
  split; [reflexivity|];
  split; [constructor; lookups; reflexivity|];
  split; [apply map_subseteq_spec; intros ? ? ?; lookups; auto|];
  repeat match goal with
         | H : _ !! _ = None |- _ => apply not_elem_of_dom in H
         end;
  split; [set_solver|];
  rewrite !dom_insert_L; set_solver.

Lemma Canada_made (h : heap) (info flight : loc) (i : PassengerInfo.t)
  (f : FoundFlightInfo.t) :
  h !! info = Some (VPassengerInfo i) ->
  h !! flight = Some (VFoundFlightInfo f) ->
  exists q h' fq,
    (let* q := new (OCanadaFlightReservation None None) in
     CanadaFlightReservation.ctor2 q (Some info) (Some flight) ;;
     ret (Some q)) h = Val (Some q, h')
    /\ owns h' q (SCanada (canada_criteria i) (canada_flight f)) fq
    /\ h ⊆ h' /\ fq ## dom h /\ dom h' = dom h ∪ fq.
Proof.
  intros Hi Hf.
  unfold CanadaFlightReservation.ctor2, CanadaFlightReservation.ctor,
    CanadaFlightReservation.setCustomerInfo,
    CanadaFlightReservation.setChosenFlight. mred.
  alloc q Hq. mred. alloc a Ha. mred. alloc b Hb.
  unfold store, CanadaFlightReservation.members, deref, assign. mrun.
  adapter_made q a b.
Qed.

Lemma Turkish_made (h : heap) (info flight : loc) (i : PassengerInfo.t)
  (f : FoundFlightInfo.t) :
  h !! info = Some (VPassengerInfo i) ->
  h !! flight = Some (VFoundFlightInfo f) ->
  exists q h' fq,
    (let* q := new (OTurkishFlightReservation None None) in
     TurkishFlightReservation.ctor2 q (Some info) (Some flight) ;;
     ret (Some q)) h = Val (Some q, h')
    /\ owns h' q (STurkish (turkish_criteria i) (turkish_flight f)) fq
    /\ h ⊆ h' /\ fq ## dom h /\ dom h' = dom h ∪ fq.
Proof.
  intros Hi Hf.
  unfold TurkishFlightReservation.ctor2, TurkishFlightReservation.ctor,
    TurkishFlightReservation.setCustomerInfo,
    TurkishFlightReservation.setChosenFlight. mred.
  alloc q Hq. mred. alloc a Ha. mred. alloc b Hb.
  unfold store, TurkishFlightReservation.members, deref, assign. mrun.
  adapter_made q a b.
Qed.

Lemma Hilton_made (h : heap) (info room : loc) (i : CustomerInfo.t)
  (r : FoundRoomInfo.t) :
  h !! info = Some (VCustomerInfo i) ->
  h !! room = Some (VFoundRoomInfo r) ->
  exists q h' fq,
    (let* q := new (OHiltonHotelReservation None None) in
     HiltonHotelReservation.ctor2 q (Some info) (Some room) ;;
     ret (Some q)) h = Val (Some q, h')
    /\ owns h' q (SHilton (hilton_criteria i) (hilton_room r)) fq
    /\ h ⊆ h' /\ fq ## dom h /\ dom h' = dom h ∪ fq.
Proof.
  intros Hi Hf.
  unfold HiltonHotelReservation.ctor2, HiltonHotelReservation.ctor,
    HiltonHotelReservation.setCustomerInfo,
    HiltonHotelReservation.setChosenRoomInfo. mred.
  alloc q Hq. mred. alloc a Ha. mred. alloc b Hb.
  unfold store, HiltonHotelReservation.members, deref, assign. mrun.
  adapter_made q a b.
Qed.

Lemma Marriott_made (h : heap) (info room : loc) (i : CustomerInfo.t)
  (r : FoundRoomInfo.t) :
  h !! info = Some (VCustomerInfo i) ->
  h !! room = Some (VFoundRoomInfo r) ->
  exists q h' fq,
    (let* q := new (OMarriottHotelReservation None None) in
     MarriottHotelReservation.ctor2 q (Some info) (Some room) ;;
     ret (Some q)) h = Val (Some q, h')
    /\ owns h' q (SMarriott (marriott_criteria i) (marriott_room r)) fq
    /\ h ⊆ h' /\ fq ## dom h /\ dom h' = dom h ∪ fq.
Proof.
  intros Hi Hf.
  unfold MarriottHotelReservation.ctor2, MarriottHotelReservation.ctor,
    MarriottHotelReservation.setCustomerInfo,
    MarriottHotelReservation.setChosenRoomInfo. mred.
  alloc q Hq. mred. alloc a Ha. mred. alloc b Hb.
  unfold store, MarriottHotelReservation.members, deref, assign. mrun.
  adapter_made q a b.
Qed.

Lemma factory_flight_fresh (h : heap) (this info flight : loc)
  (m : MakeReservation.members_t) (i : PassengerInfo.t)
  (f : FoundFlightInfo.t) :
  MakeReservation.members this h = Val m ->
  MakeReservation.passenger_info m = Some info ->
  MakeReservation.chosen_flight m = Some flight ->
  h !! info = Some (VPassengerInfo i) ->
  h !! flight = Some (VFoundFlightInfo f) ->
  FoundFlightInfo.airline f = "Canada"%string
  \/ FoundFlightInfo.airline f = "Turkish"%string ->
  exists q h' fq,
    MakeReservation.ReservationFactory this (FoundFlightInfo.airline f) h
    = Val (Some q, h')
    /\ owns h' q (flight_state i f) fq
    /\ h ⊆ h' /\ fq ## dom h /\ dom h' = dom h ∪ fq.
Proof.
  intros Hm Hpi Hcf Hi Hf Hbrand.
  unfold MakeReservation.ReservationFactory, flight_state. mred.
  rewrite Hm. mred. rewrite Hpi, Hcf.
  destruct Hbrand as [-> | ->]; cbn [String.eqb Ascii.eqb Bool.eqb andb].
  - apply (Canada_made h info flight i f Hi Hf).
  - apply (Turkish_made h info flight i f Hi Hf).
Qed.

Lemma factory_hotel_fresh (h : heap) (this info room : loc)
  (m : MakeReservation.members_t) (i : CustomerInfo.t)
  (r : FoundRoomInfo.t) :
  MakeReservation.members this h = Val m ->
  MakeReservation.customer_info m = Some info ->
  MakeReservation.chosen_room m = Some room ->
  h !! info = Some (VCustomerInfo i) ->
  h !! room = Some (VFoundRoomInfo r) ->
  FoundRoomInfo.hotel r = "Hilton"%string
  \/ FoundRoomInfo.hotel r = "Marriott"%string ->
  exists q h' fq,
    MakeReservation.ReservationFactory this (FoundRoomInfo.hotel r) h
    = Val (Some q, h')
    /\ owns h' q (room_state i r) fq
    /\ h ⊆ h' /\ fq ## dom h /\ dom h' = dom h ∪ fq.
Proof.
  intros Hm Hci Hcr Hi Hr Hbrand.
  unfold MakeReservation.ReservationFactory, room_state. mred.
  rewrite Hm. mred. rewrite Hci, Hcr.
  destruct Hbrand as [-> | ->]; cbn [String.eqb Ascii.eqb Bool.eqb andb].
  - apply (Hilton_made h info room i r Hi Hr).
  - apply (Marriott_made h info room i r Hi Hr).
Qed.

(** The domain of a store built by updates of another. *)
Ltac dom_updates :=
  rewrite ?dom_insert_L, ?dom_delete_L;
  repeat match goal with
         | H : _ !! _ = Some _ |- _ =>
             apply (elem_of_dom_2 (D := gset loc)) in H
         | H : _ !! _ = None |- _ => clear H
         end;
  set_solver.

Lemma reservingFlight_frame (h : heap) (this : loc)
  (m : MakeReservation.members_t) (i : MakeReservation.flight_input) :
  builder h this m ->
  exists h1 pi cf,
    MakeReservation.reservingFlight this i h
    = (let merged :=
         flat_map (flight_offers h) (MakeReservation.Airports m) in
       let choice := MakeReservation.in_flight_choice i in
       if (choice =? -1) || (choice >? int_of_size merged)
       then Val (None, h1)
       else match index merged (int_wrap (choice - 1)) with
            | Val flight =>
                MakeReservation.ReservationFactory this
                  (FoundFlightInfo.airline flight)
                  (<[cf := VFoundFlightInfo flight]> h1)
            | Undefined => Undefined
            | OutOfFuel => OutOfFuel
            end)
    /\ h1 !! this
       = Some (OMakeReservation (MakeReservation.Airports m)
                 (MakeReservation.Hotels m) (Some pi)
                 (MakeReservation.customer_info m) (Some cf)
                 (MakeReservation.chosen_room m))
    /\ h1 !! pi = Some (VPassengerInfo (typed_passenger i))
    /\ h1 !! cf = Some (VFoundFlightInfo FoundFlightInfo.default)
    /\ (forall l o, h !! l = Some o -> l <> this ->
          Some l <> MakeReservation.passenger_info m ->
          Some l <> MakeReservation.chosen_flight m -> h1 !! l = Some o)
    /\ dom h1 ⊆ {[pi; cf]} ∪ dom h
    /\ h !! pi = None
    /\ (h !! cf = None \/ Some cf = MakeReservation.passenger_info m).
Proof.
  intros (Hm & Hairports & _ & Hpi & _ & Hcf & _).
  destruct m as [airports hotels opi ci ocf cr]. simpl in *.
  unfold MakeReservation.members in Hm.
  destruct (h !! this) as [[]|] eqn:Hthis; try discriminate.
  injection Hm as -> -> -> -> -> ->.
  unfold MakeReservation.reservingFlight, MakeReservation.members. mrun.
  alloc pi Hnpi. mred. builder_fields.
  destruct opi as [old|]; [destruct (Hpi old eq_refl) as [v Hold]|];
    (destruct ocf as [old2|]; [destruct (Hcf old2 eq_refl) as [v2 Hold2]|]);
    clear Hpi Hcf;
    unfold reset, free, MakeReservation.set_members, store, assign, deref;
    mrun; alloc_reuse cf Hncf; mrun; builder_fields; mrun;
    collect_airports h Hairports; mrun;
    (eexists; exists pi, cf;
     split;
     [ cbv zeta;
       match goal with
       | |- context [if ?c then _ else _] => destruct c
       end; [reflexivity|];
       match goal with
       | |- context [index ?v ?k] => destruct (index v k)
       end; mrun; reflexivity
     | split; [lookups; reflexivity|];
       split; [lookups; reflexivity|];
       split; [lookups; reflexivity|];
       split; [intros l o Hl ? ? ?; lookups; reflexivity|];
       split; [dom_updates|];
       split; [assumption|];
       first [left; assumption | right; congruence] ]).
Qed.

Lemma reservingRoom_frame (h : heap) (this : loc)
  (m : MakeReservation.members_t) (i : MakeReservation.room_input) :
  builder h this m ->
  exists h1 ci cr,
    MakeReservation.reservingRoom this i h
    = (let merged := flat_map (room_offers h) (MakeReservation.Hotels m) in
       let choice := MakeReservation.in_room_choice i in
       if (choice =? -1) || (choice >? int_of_size merged)
       then Val (None, h1)
       else match index merged (int_wrap (choice - 1)) with
            | Val room =>
                MakeReservation.ReservationFactory this
                  (FoundRoomInfo.hotel room)
                  (<[cr := VFoundRoomInfo room]> h1)
            | Undefined => Undefined
            | OutOfFuel => OutOfFuel
            end)
    /\ h1 !! this
       = Some (OMakeReservation (MakeReservation.Airports m)
                 (MakeReservation.Hotels m)
                 (MakeReservation.passenger_info m) (Some ci)
                 (MakeReservation.chosen_flight m) (Some cr))
    /\ h1 !! ci = Some (VCustomerInfo (typed_customer i))
    /\ h1 !! cr = Some (VFoundRoomInfo FoundRoomInfo.default)
    /\ (forall l o, h !! l = Some o -> l <> this ->
          Some l <> MakeReservation.customer_info m ->
          Some l <> MakeReservation.chosen_room m -> h1 !! l = Some o)
    /\ dom h1 ⊆ {[ci; cr]} ∪ dom h
    /\ h !! ci = None
    /\ (h !! cr = None \/ Some cr = MakeReservation.customer_info m).
Proof.
  intros (Hm & _ & Hhotels & _ & Hci & _ & Hcr).
  destruct m as [airports hotels pi oci cf ocr]. simpl in *.
  unfold MakeReservation.members in Hm.
  destruct (h !! this) as [[]|] eqn:Hthis; try discriminate.
  injection Hm as -> -> -> -> -> ->.
  unfold MakeReservation.reservingRoom, MakeReservation.members. mrun.
  alloc ci Hnci. mred. builder_fields.
  destruct oci as [old|]; [destruct (Hci old eq_refl) as [v Hold]|];
    (destruct ocr as [old2|]; [destruct (Hcr old2 eq_refl) as [v2 Hold2]|]);
    clear Hci Hcr;
    unfold reset, free, MakeReservation.set_members, store, assign, deref;
    mrun; alloc_reuse cr Hncr; mrun; builder_fields; mrun;
    collect_hotels h Hhotels; mrun;
    (eexists; exists ci, cr;
     split;
     [ cbv zeta;
       match goal with
       | |- context [if ?c then _ else _] => destruct c
       end; [reflexivity|];
       match goal with
       | |- context [index ?v ?k] => destruct (index v k)
       end; mrun; reflexivity
     | split; [lookups; reflexivity|];
       split; [lookups; reflexivity|];
       split; [lookups; reflexivity|];
       split; [intros l o Hl ? ? ?; lookups; reflexivity|];
       split; [dom_updates|];
       split; [assumption|];
       first [left; assumption | right; congruence] ]).
Qed.

(** The cells of a well-formed builder are kept by a store that keeps every
    cell but those of reservations that were not in use. *)
Lemma builder_kept (h h' : heap) (this : loc)
  (m m' : MakeReservation.members_t) :
  builder h this m ->
  MakeReservation.members this h' = Val m' ->
  MakeReservation.Airports m' = MakeReservation.Airports m ->
  MakeReservation.Hotels m' = MakeReservation.Hotels m ->
  (forall l o, h !! l = Some o -> flight_cell o \/ hotel_cell o ->
     h' !! l = Some o) ->
  (forall l, MakeReservation.passenger_info m' = Some l ->
     exists v, h' !! l = Some (VPassengerInfo v)) ->
  (forall l, MakeReservation.customer_info m' = Some l ->
     exists v, h' !! l = Some (VCustomerInfo v)) ->
  (forall l, MakeReservation.chosen_flight m' = Some l ->
     exists v, h' !! l = Some (VFoundFlightInfo v)) ->
  (forall l, MakeReservation.chosen_room m' = Some l ->
     exists v, h' !! l = Some (VFoundRoomInfo v)) ->
  builder h' this m'
  /\ flat_map (flight_offers h') (MakeReservation.Airports m')
     = flat_map (flight_offers h) (MakeReservation.Airports m)
  /\ flat_map (room_offers h') (MakeReservation.Hotels m')
     = flat_map (room_offers h) (MakeReservation.Hotels m).
Proof.
  intros (Hm & Hairports & Hhotels & _) Hm' Ea Eh Hkeep H1 H2 H3 H4.
  destruct (flight_adapters_preserved h h' _ Hairports) as [HF1 HF2].
  { intros l o Hl Hc. apply Hkeep; auto. }
  destruct (hotel_adapters_preserved h h' _ Hhotels) as [HH1 HH2].
  { intros l o Hl Hc. apply Hkeep; auto. }
  rewrite Ea, Eh. repeat split; auto; rewrite ?Ea, ?Eh; auto.
Qed.

(** A cell of a well-formed builder that is not the builder itself nor one
    of its two flight working records is none of these three cells. *)
Lemma flight_records_apart (h h1 : heap) (this : loc)
  (m : MakeReservation.members_t) :
  builder h this m ->
  (forall l o, h !! l = Some o -> l <> this ->
     Some l <> MakeReservation.passenger_info m ->
     Some l <> MakeReservation.chosen_flight m -> h1 !! l = Some o) ->
  forall l o, h !! l = Some o ->
    match o with
    | OMakeReservation _ _ _ _ _ _ | VPassengerInfo _ | VFoundFlightInfo _ =>
        False
    | _ => True
    end ->
    h1 !! l = Some o.
Proof.
  intros (Hm & _ & _ & Hpi & _ & Hcf & _) Hframe l o Hl Ho.
  unfold MakeReservation.members in Hm.
  apply Hframe; auto.
  - intros ->. rewrite Hl in Hm. destruct o; try discriminate; contradiction.
  - intros E; symmetry in E. destruct (Hpi l E) as [v Hv]. rewrite Hl in Hv.
    injection Hv as ->. contradiction.
  - intros E; symmetry in E. destruct (Hcf l E) as [v Hv]. rewrite Hl in Hv.
    injection Hv as ->. contradiction.
Qed.

Lemma room_records_apart (h h1 : heap) (this : loc)
  (m : MakeReservation.members_t) :
  builder h this m ->
  (forall l o, h !! l = Some o -> l <> this ->
     Some l <> MakeReservation.customer_info m ->
     Some l <> MakeReservation.chosen_room m -> h1 !! l = Some o) ->
  forall l o, h !! l = Some o ->
    match o with
    | OMakeReservation _ _ _ _ _ _ | VCustomerInfo _ | VFoundRoomInfo _ =>
        False
    | _ => True
    end ->
    h1 !! l = Some o.
Proof.
  intros (Hm & _ & _ & _ & Hci & _ & Hcr) Hframe l o Hl Ho.
  unfold MakeReservation.members in Hm.
  apply Hframe; auto.
  - intros ->. rewrite Hl in Hm. destruct o; try discriminate; contradiction.
  - intros E; symmetry in E. destruct (Hci l E) as [v Hv]. rewrite Hl in Hv.
    injection Hv as ->. contradiction.
  - intros E; symmetry in E. destruct (Hcr l E) as [v Hv]. rewrite Hl in Hv.
    injection Hv as ->. contradiction.
Qed.

(** Whenever [reservingFlight] returns, on a well-formed builder, the
    builder is well-formed again, with the same adapters registered and the
    same offers, and it holds the criteria typed in a new PassengerInfo
    record. No cell in use is changed but the builder's own and its two
    previous working records, which are released. When a reservation is
    returned, it is a well-formed adapter in the state given by the
    criteria typed and the flight chosen, it shares no cell with the
    builder, and the only cells added to the store are the two working
    records and the cells of that adapter. *)
Lemma reservingFlight_spec :
  forall (h : heap) (this : loc) (m : MakeReservation.members_t)
         (i : MakeReservation.flight_input) (r : ptr) (h' : heap),
    builder h this m ->
    MakeReservation.reservingFlight this i h = Val (r, h') ->
    exists pi cf,
      builder h' this
        (MakeReservation.mk_members (MakeReservation.Airports m)
           (MakeReservation.Hotels m) (Some pi)
           (MakeReservation.customer_info m) (Some cf)
           (MakeReservation.chosen_room m))
      /\ flat_map (flight_offers h') (MakeReservation.Airports m)
         = flat_map (flight_offers h) (MakeReservation.Airports m)
      /\ flat_map (room_offers h') (MakeReservation.Hotels m)
         = flat_map (room_offers h) (MakeReservation.Hotels m)
      /\ h' !! pi = Some (VPassengerInfo (typed_passenger i))
      /\ (forall l o, h !! l = Some o -> l <> this ->
            Some l <> MakeReservation.passenger_info m ->
            Some l <> MakeReservation.chosen_flight m -> h' !! l = Some o)
      /\ match r with
         | None => dom h' ⊆ {[pi; cf]} ∪ dom h
         | Some q =>
             exists flight fq,
               index (flat_map (flight_offers h) (MakeReservation.Airports m))
                 (int_wrap (MakeReservation.in_flight_choice i - 1))
               = Val flight
               /\ h' !! cf = Some (VFoundFlightInfo flight)
               /\ owns h' q (flight_state (typed_passenger i) flight) fq
               /\ (this ∉ fq) /\ (pi ∉ fq) /\ (cf ∉ fq)
               /\ dom h' ⊆ {[pi; cf]} ∪ fq ∪ dom h
               /\ (forall l, l ∈ fq ->
                     h !! l = None
                     \/ Some l = MakeReservation.passenger_info m
                     \/ Some l = MakeReservation.chosen_flight m)
         end.
Proof.
  intros h this m i r h' Hb Hrun.
  destruct (reservingFlight_frame h this m i Hb)
    as (h1 & pi & cf & E & Hthis1 & Hpi1 & Hcf1 & Hframe & Hdom & Hfpi
        & Hfcf).
  cbv zeta in E. rewrite E in Hrun. clear E. exists pi, cf.
  pose proof (flight_records_apart h h1 this m Hb Hframe) as Hkept.
  pose proof Hb as (_ & _ & _ & _ & Hci & _ & Hcr).
  set (m' := MakeReservation.mk_members (MakeReservation.Airports m)
               (MakeReservation.Hotels m) (Some pi)
               (MakeReservation.customer_info m) (Some cf)
               (MakeReservation.chosen_room m)).
  assert (pi <> cf) as Hpc by congruence.
  assert (this <> cf) as Htc by congruence.
  assert (this <> pi) as Htp by congruence.
  destruct ((MakeReservation.in_flight_choice i =? -1)
            || (MakeReservation.in_flight_choice i
                >? int_of_size (flat_map (flight_offers h)
                                  (MakeReservation.Airports m)))).
  - injection Hrun as <- <-.
    destruct (builder_kept h h1 this m m' Hb) as (Hb1 & Ef & Er);
      try reflexivity.
    + unfold MakeReservation.members. rewrite Hthis1. reflexivity.
    + intros l o Hl Hc. apply Hkept; auto.
      destruct o; destruct Hc as [Hc|Hc]; try contradiction; exact I.
    + intros l [= <-]. eauto.
    + intros l Hl. destruct (Hci l Hl) as [v Hv]. exists v.
      apply (Hkept l _ Hv). exact I.
    + intros l [= <-]. eauto.
    + intros l Hl. destruct (Hcr l Hl) as [v Hv]. exists v.
      apply (Hkept l _ Hv). exact I.
    + auto 10.
  - destruct (index (flat_map (flight_offers h) (MakeReservation.Airports m))
                (int_wrap (MakeReservation.in_flight_choice i - 1)))
      as [flight| |] eqn:Hflight; try discriminate.
    set (h2 := <[cf := VFoundFlightInfo flight]> h1) in *.
    destruct (factory_flight_fresh h2 this pi cf m' (typed_passenger i) flight)
      as (q & h3 & fq & Ef & Ho & Hsub & Hfq & Hdom3).
    + unfold MakeReservation.members, h2. lookups. reflexivity.
    + reflexivity.
    + reflexivity.
    + unfold h2. lookups. reflexivity.
    + unfold h2. lookups. reflexivity.
    + eapply flight_offers_brand, index_In, Hflight.
    + rewrite Ef in Hrun. injection Hrun as <- <-.
      assert (forall l o, h1 !! l = Some o -> l <> cf -> h3 !! l = Some o)
        as Hkeep3.
      { intros l o Hl Hne. eapply lookup_weaken; [|exact Hsub].
        unfold h2. lookups. reflexivity. }
      assert (dom h2 = dom h1) as Hdom2.
      { unfold h2. rewrite dom_insert_L.
        apply (elem_of_dom_2 (D := gset loc)) in Hcf1.
        clear - Hcf1. set_solver. }
      destruct (builder_kept h h3 this m m' Hb) as (Hb3 & Ef3 & Er3);
        try reflexivity.
      * unfold MakeReservation.members.
        rewrite (Hkeep3 this _ Hthis1 Htc). reflexivity.
      * intros l o Hl Hc. apply Hkeep3.
        -- apply Hkept; auto.
           destruct o; destruct Hc as [Hc|Hc]; try contradiction; exact I.
        -- intros ->. pose proof (Hkept cf o Hl) as Hk.
           destruct o; destruct Hc as [Hc|Hc]; try contradiction;
             specialize (Hk I); congruence.
      * intros l [= <-]. exists (typed_passenger i). apply Hkeep3; auto.
      * intros l Hl. destruct (Hci l Hl) as [v Hv]. exists v.
        apply Hkeep3; [apply (Hkept l _ Hv); exact I|].
        intros ->. pose proof (Hkept cf _ Hv I). congruence.
      * intros l [= <-]. exists flight. eapply lookup_weaken; [|exact Hsub].
        unfold h2. lookups. reflexivity.
      * intros l Hl. destruct (Hcr l Hl) as [v Hv]. exists v.
        apply Hkeep3; [apply (Hkept l _ Hv); exact I|].
        intros ->. pose proof (Hkept cf _ Hv I). congruence.
      * split; [exact Hb3|]. split; [exact Ef3|]. split; [exact Er3|].
        split; [apply Hkeep3; auto|].
        split.
        { intros l o Hl H1 H2 H3. apply Hkeep3; [apply Hframe; auto|].
          intros ->. destruct Hfcf as [Hfcf|Hfcf]; congruence. }
        exists flight, fq. split; [reflexivity|].
        split. { eapply lookup_weaken; [|exact Hsub].
                 unfold h2. lookups. reflexivity. }
        split; [exact Ho|].
        apply (elem_of_dom_2 (D := gset loc)) in Hthis1 as Hd1.
        apply (elem_of_dom_2 (D := gset loc)) in Hpi1 as Hd2.
        apply (elem_of_dom_2 (D := gset loc)) in Hcf1 as Hd3.
        split; [clear - Hfq Hdom2 Hd1; set_solver|].
        split; [clear - Hfq Hdom2 Hd2; set_solver|].
        split; [clear - Hfq Hdom2 Hd3; set_solver|].
        split; [clear - Hdom3 Hdom2 Hdom; set_solver|].
        intros l Hl.
        assert (h1 !! l = None) as Hl1.
        { apply not_elem_of_dom. clear - Hfq Hdom2 Hl. set_solver. }
        destruct (h !! l) as [o|] eqn:Hlo; [right|left; reflexivity].
        destruct (decide (Some l = MakeReservation.passenger_info m));
          [left; assumption|].
        destruct (decide (Some l = MakeReservation.chosen_flight m));
          [right; assumption|].
        assert (l <> this) by congruence.
        rewrite (Hframe l o Hlo) in Hl1 by assumption. discriminate.
Qed.

(** Whenever [reservingRoom] returns, on a well-formed builder, the
    builder is well-formed again, with the same adapters registered and the
    same offers, and it holds the criteria typed, with [needed_rooms] at its
    default, in a new CustomerInfo record. No cell in use is changed but
    the builder's own and its two previous working records, which are
    released. When a reservation is returned, it is a well-formed adapter in
    the state given by the criteria typed and the room chosen, it shares no
    cell with the builder, and the only cells added to the store are the two
    working records and the cells of that adapter. *)
Lemma reservingRoom_spec :
  forall (h : heap) (this : loc) (m : MakeReservation.members_t)
         (i : MakeReservation.room_input) (r : ptr) (h' : heap),
    builder h this m ->
    MakeReservation.reservingRoom this i h = Val (r, h') ->
    exists ci cr,
      builder h' this
        (MakeReservation.mk_members (MakeReservation.Airports m)
           (MakeReservation.Hotels m) (MakeReservation.passenger_info m)
           (Some ci) (MakeReservation.chosen_flight m) (Some cr))
      /\ flat_map (flight_offers h') (MakeReservation.Airports m)
         = flat_map (flight_offers h) (MakeReservation.Airports m)
      /\ flat_map (room_offers h') (MakeReservation.Hotels m)
         = flat_map (room_offers h) (MakeReservation.Hotels m)
      /\ h' !! ci = Some (VCustomerInfo (typed_customer i))
      /\ (forall l o, h !! l = Some o -> l <> this ->
            Some l <> MakeReservation.customer_info m ->
            Some l <> MakeReservation.chosen_room m -> h' !! l = Some o)
      /\ match r with
         | None => dom h' ⊆ {[ci; cr]} ∪ dom h
         | Some q =>
             exists room fq,
               index (flat_map (room_offers h) (MakeReservation.Hotels m))
                 (int_wrap (MakeReservation.in_room_choice i - 1))
               = Val room
               /\ h' !! cr = Some (VFoundRoomInfo room)
               /\ owns h' q (room_state (typed_customer i) room) fq
               /\ (this ∉ fq) /\ (ci ∉ fq) /\ (cr ∉ fq)
               /\ dom h' ⊆ {[ci; cr]} ∪ fq ∪ dom h
               /\ (forall l, l ∈ fq ->
                     h !! l = None
                     \/ Some l = MakeReservation.customer_info m
                     \/ Some l = MakeReservation.chosen_room m)
         end.
Proof.
  intros h this m i r h' Hb Hrun.
  destruct (reservingRoom_frame h this m i Hb)
    as (h1 & ci & cr & E & Hthis1 & Hci1 & Hcr1 & Hframe & Hdom & Hfci
        & Hfcr).
  cbv zeta in E. rewrite E in Hrun. clear E. exists ci, cr.
  pose proof (room_records_apart h h1 this m Hb Hframe) as Hkept.
  pose proof Hb as (_ & _ & _ & Hpi & _ & Hcf & _).
  set (m' := MakeReservation.mk_members (MakeReservation.Airports m)
               (MakeReservation.Hotels m) (MakeReservation.passenger_info m)
               (Some ci) (MakeReservation.chosen_flight m) (Some cr)).
  assert (ci <> cr) as Hpc by congruence.
  assert (this <> cr) as Htc by congruence.
  assert (this <> ci) as Htp by congruence.
  destruct ((MakeReservation.in_room_choice i =? -1)
            || (MakeReservation.in_room_choice i
                >? int_of_size (flat_map (room_offers h)
                                  (MakeReservation.Hotels m)))).
  - injection Hrun as <- <-.
    destruct (builder_kept h h1 this m m' Hb) as (Hb1 & Ef & Er);
      try reflexivity.
    + unfold MakeReservation.members. rewrite Hthis1. reflexivity.
    + intros l o Hl Hc. apply Hkept; auto.
      destruct o; destruct Hc as [Hc|Hc]; try contradiction; exact I.
    + intros l Hl. destruct (Hpi l Hl) as [v Hv]. exists v.
      apply (Hkept l _ Hv). exact I.
    + intros l [= <-]. eauto.
    + intros l Hl. destruct (Hcf l Hl) as [v Hv]. exists v.
      apply (Hkept l _ Hv). exact I.
    + intros l [= <-]. eauto.
    + auto 10.
  - destruct (index (flat_map (room_offers h) (MakeReservation.Hotels m))
                (int_wrap (MakeReservation.in_room_choice i - 1)))
      as [room| |] eqn:Hroom; try discriminate.
    set (h2 := <[cr := VFoundRoomInfo room]> h1) in *.
    destruct (factory_hotel_fresh h2 this ci cr m' (typed_customer i) room)
      as (q & h3 & fq & Ef & Ho & Hsub & Hfq & Hdom3).
    + unfold MakeReservation.members, h2. lookups. reflexivity.
    + reflexivity.
    + reflexivity.
    + unfold h2. lookups. reflexivity.
    + unfold h2. lookups. reflexivity.
    + eapply room_offers_brand_price, index_In, Hroom.
    + rewrite Ef in Hrun. injection Hrun as <- <-.
      assert (forall l o, h1 !! l = Some o -> l <> cr -> h3 !! l = Some o)
        as Hkeep3.
      { intros l o Hl Hne. eapply lookup_weaken; [|exact Hsub].
        unfold h2. lookups. reflexivity. }
      assert (dom h2 = dom h1) as Hdom2.
      { unfold h2. rewrite dom_insert_L.
        apply (elem_of_dom_2 (D := gset loc)) in Hcr1.
        clear - Hcr1. set_solver. }
      destruct (builder_kept h h3 this m m' Hb) as (Hb3 & Ef3 & Er3);
        try reflexivity.
      * unfold MakeReservation.members.
        rewrite (Hkeep3 this _ Hthis1 Htc). reflexivity.
      * intros l o Hl Hc. apply Hkeep3.
        -- apply Hkept; auto.
           destruct o; destruct Hc as [Hc|Hc]; try contradiction; exact I.
        -- intros ->. pose proof (Hkept cr o Hl) as Hk.
           destruct o; destruct Hc as [Hc|Hc]; try contradiction;
             specialize (Hk I); congruence.
      * intros l Hl. destruct (Hpi l Hl) as [v Hv]. exists v.
        apply Hkeep3; [apply (Hkept l _ Hv); exact I|].
        intros ->. pose proof (Hkept cr _ Hv I). congruence.
      * intros l [= <-]. exists (typed_customer i). apply Hkeep3; auto.
      * intros l Hl. destruct (Hcf l Hl) as [v Hv]. exists v.
        apply Hkeep3; [apply (Hkept l _ Hv); exact I|].
        intros ->. pose proof (Hkept cr _ Hv I). congruence.
      * intros l [= <-]. exists room. eapply lookup_weaken; [|exact Hsub].
        unfold h2. lookups. reflexivity.
      * split; [exact Hb3|]. split; [exact Ef3|]. split; [exact Er3|].
        split; [apply Hkeep3; auto|].
        split.
        { intros l o Hl H1 H2 H3. apply Hkeep3; [apply Hframe; auto|].
          intros ->. destruct Hfcr as [Hfcr|Hfcr]; congruence. }
        exists room, fq. split; [reflexivity|].
        split. { eapply lookup_weaken; [|exact Hsub].
                 unfold h2. lookups. reflexivity. }
        split; [exact Ho|].
        apply (elem_of_dom_2 (D := gset loc)) in Hthis1 as Hd1.
        apply (elem_of_dom_2 (D := gset loc)) in Hci1 as Hd2.
        apply (elem_of_dom_2 (D := gset loc)) in Hcr1 as Hd3.
        split; [clear - Hfq Hdom2 Hd1; set_solver|].
        split; [clear - Hfq Hdom2 Hd2; set_solver|].
        split; [clear - Hfq Hdom2 Hd3; set_solver|].
        split; [clear - Hdom3 Hdom2 Hdom; set_solver|].
        intros l Hl.
        assert (h1 !! l = None) as Hl1.
        { apply not_elem_of_dom. clear - Hfq Hdom2 Hl. set_solver. }
        destruct (h !! l) as [o|] eqn:Hlo; [right|left; reflexivity].
        destruct (decide (Some l = MakeReservation.customer_info m));
          [left; assumption|].
        destruct (decide (Some l = MakeReservation.chosen_room m));
          [right; assumption|].
        assert (l <> this) by congruence.
        rewrite (Hframe l o Hlo) in Hl1 by assumption. discriminate.
Qed.

(** The workflow returns: a reservation for a choice within 1..N, none for
    the sentinel and for a choice above N. *)
Lemma reservingFlight_returns (h : heap) (this : loc)
  (m : MakeReservation.members_t) (i : MakeReservation.flight_input) :
  builder h this m ->
  is_int (MakeReservation.in_flight_choice i) ->
  1 <= MakeReservation.in_flight_choice i
    <= int_of_size (flat_map (flight_offers h) (MakeReservation.Airports m)) ->
  exists q h', MakeReservation.reservingFlight this i h = Val (Some q, h').
Proof.
  intros Hb Hint Hrange.
  destruct (reservingFlight_frame h this m i Hb)
    as (h1 & pi & cf & E & Hthis1 & Hpi1 & Hcf1 & _).
  cbv zeta in E. rewrite E. clear E.
  destruct (Z.eqb_spec (MakeReservation.in_flight_choice i) (-1)) as [?|_];
    [lia|].
  destruct (Z.gtb_spec (MakeReservation.in_flight_choice i)
              (int_of_size (flat_map (flight_offers h)
                              (MakeReservation.Airports m)))) as [?|_];
    [lia|].
  cbn [orb]. rewrite int_wrap_in_range
    by (unfold is_int, INT_MIN, INT_MAX in *; lia).
  destruct (index_in_range
              (flat_map (flight_offers h) (MakeReservation.Airports m))
              (MakeReservation.in_flight_choice i - 1)) as [flight Hflight];
    [lia|].
  rewrite Hflight.
  assert (pi <> cf) by congruence. assert (this <> cf) by congruence.
  destruct (factory_flight_fresh (<[cf := VFoundFlightInfo flight]> h1) this
              pi cf
              (MakeReservation.mk_members (MakeReservation.Airports m)
                 (MakeReservation.Hotels m) (Some pi)
                 (MakeReservation.customer_info m) (Some cf)
                 (MakeReservation.chosen_room m)) (typed_passenger i) flight)
    as (q & h' & fq & Ef & _); try reflexivity.
  - unfold MakeReservation.members. lookups. reflexivity.
  - lookups. reflexivity.
  - lookups. reflexivity.
  - eapply flight_offers_brand, index_In, Hflight.
  - eauto.
Qed.

Lemma reservingRoom_returns (h : heap) (this : loc)
  (m : MakeReservation.members_t) (i : MakeReservation.room_input) :
  builder h this m ->
  is_int (MakeReservation.in_room_choice i) ->
  1 <= MakeReservation.in_room_choice i
    <= int_of_size (flat_map (room_offers h) (MakeReservation.Hotels m)) ->
  exists q h', MakeReservation.reservingRoom this i h = Val (Some q, h').
Proof.
  intros Hb Hint Hrange.
  destruct (reservingRoom_frame h this m i Hb)
    as (h1 & ci & cr & E & Hthis1 & Hci1 & Hcr1 & _).
  cbv zeta in E. rewrite E. clear E.
  destruct (Z.eqb_spec (MakeReservation.in_room_choice i) (-1)) as [?|_];
    [lia|].
  destruct (Z.gtb_spec (MakeReservation.in_room_choice i)
              (int_of_size (flat_map (room_offers h)
                              (MakeReservation.Hotels m)))) as [?|_];
    [lia|].
  cbn [orb]. rewrite int_wrap_in_range
    by (unfold is_int, INT_MIN, INT_MAX in *; lia).
  destruct (index_in_range
              (flat_map (room_offers h) (MakeReservation.Hotels m))
              (MakeReservation.in_room_choice i - 1)) as [room Hroom];
    [lia|].
  rewrite Hroom.
  assert (ci <> cr) by congruence. assert (this <> cr) by congruence.
  destruct (factory_hotel_fresh (<[cr := VFoundRoomInfo room]> h1) this
              ci cr
              (MakeReservation.mk_members (MakeReservation.Airports m)
                 (MakeReservation.Hotels m)
                 (MakeReservation.passenger_info m) (Some ci)
                 (MakeReservation.chosen_flight m) (Some cr))
              (typed_customer i) room)
    as (q & h' & fq & Ef & _); try reflexivity.
  - unfold MakeReservation.members. lookups. reflexivity.
  - lookups. reflexivity.
  - lookups. reflexivity.
  - eapply room_offers_brand_price, index_In, Hroom.
  - eauto.
Qed.

Lemma reservingFlight_aborts (h : heap) (this : loc)
  (m : MakeReservation.members_t) (i : MakeReservation.flight_input) :
  builder h this m ->
  MakeReservation.in_flight_choice i = -1
  \/ MakeReservation.in_flight_choice i
     > int_of_size (flat_map (flight_offers h) (MakeReservation.Airports m)) ->
  exists h', MakeReservation.reservingFlight this i h = Val (None, h').
Proof.
  intros Hb Hc.
  destruct (reservingFlight_frame h this m i Hb) as (h1 & ? & ? & E & _).
  cbv zeta in E. rewrite E. exists h1.
  destruct (Z.eqb_spec (MakeReservation.in_flight_choice i) (-1));
    [reflexivity|].
  destruct (Z.gtb_spec (MakeReservation.in_flight_choice i)
              (int_of_size (flat_map (flight_offers h)
                              (MakeReservation.Airports m))));
    [reflexivity|lia].
Qed.

Lemma reservingRoom_aborts (h : heap) (this : loc)
  (m : MakeReservation.members_t) (i : MakeReservation.room_input) :
  builder h this m ->
  MakeReservation.in_room_choice i = -1
  \/ MakeReservation.in_room_choice i
     > int_of_size (flat_map (room_offers h) (MakeReservation.Hotels m)) ->
  exists h', MakeReservation.reservingRoom this i h = Val (None, h').
Proof.
  intros Hb Hc.
  destruct (reservingRoom_frame h this m i Hb) as (h1 & ? & ? & E & _).
  cbv zeta in E. rewrite E. exists h1.
  destruct (Z.eqb_spec (MakeReservation.in_room_choice i) (-1));
    [reflexivity|].
  destruct (Z.gtb_spec (MakeReservation.in_room_choice i)
              (int_of_size (flat_map (room_offers h)
                              (MakeReservation.Hotels m))));
    [reflexivity|lia].
Qed.

(** One registered adapter: its storage, then its default constructor. *)
Ltac default_made :=
  match goal with
  | |- context [new ?o ?h] =>
      let q := fresh "q" in
      let Hq := fresh "Hq" in
      let E := fresh "E" in
      let a := fresh "a" in
      let Ha := fresh "Ha" in
      let b := fresh "b" in
      let Hb := fresh "Hb" in
      destruct (new_fresh o h) as (q & Hq & E);
      exists q, (<[q := o]> h); rewrite E;
      unfold CanadaFlightReservation.ctor, TurkishFlightReservation.ctor,
        HiltonHotelReservation.ctor, MarriottHotelReservation.ctor;
      mred; alloc a Ha; mred; alloc b Hb; unfold store; mrun;
      eexists; exists {[q; a; b]};
      split; [reflexivity|]; split; [reflexivity|];
      split; [constructor; lookups; reflexivity|];
      split; [apply map_subseteq_spec; intros ? ? ?; lookups; auto|];
      repeat match goal with
             | H : _ !! _ = None |- _ => apply not_elem_of_dom in H
             end;
      split; [set_solver|]; rewrite !dom_insert_L; set_solver
  end.

Lemma Canada_default_made (h : heap) :
  exists q h0 h' fq,
    new (OCanadaFlightReservation None None) h = Val (q, h0)
    /\ CanadaFlightReservation.ctor q h0 = Val (tt, h')
    /\ owns h' q
         (SCanada AirCanadaCustomerInfo.default AirCanadaFlight.default) fq
    /\ h ⊆ h' /\ fq ## dom h /\ dom h' = dom h ∪ fq.
Proof. default_made. Qed.

Lemma Turkish_default_made (h : heap) :
  exists q h0 h' fq,
    new (OTurkishFlightReservation None None) h = Val (q, h0)
    /\ TurkishFlightReservation.ctor q h0 = Val (tt, h')
    /\ owns h' q
         (STurkish TurkishCustomerInfo.default TurkishFlight.default) fq
    /\ h ⊆ h' /\ fq ## dom h /\ dom h' = dom h ∪ fq.
Proof. default_made. Qed.

Lemma Hilton_default_made (h : heap) :
  exists q h0 h' fq,
    new (OHiltonHotelReservation None None) h = Val (q, h0)
    /\ HiltonHotelReservation.ctor q h0 = Val (tt, h')
    /\ owns h' q (SHilton HiltonCustomerInfo.default HiltonRoom.default) fq
    /\ h ⊆ h' /\ fq ## dom h /\ dom h' = dom h ∪ fq.
Proof. default_made. Qed.

Lemma Marriott_default_made (h : heap) :
  exists q h0 h' fq,
    new (OMarriottHotelReservation None None) h = Val (q, h0)
    /\ MarriottHotelReservation.ctor q h0 = Val (tt, h')
    /\ owns h' q
         (SMarriott MarriottCustomerInfo.default MarriottFoundRoom.default)
         fq
    /\ h ⊆ h' /\ fq ## dom h /\ dom h' = dom h ∪ fq.
Proof. default_made. Qed.

(** A well-formed flight adapter can be registered as an airport, a
    well-formed hotel adapter as a hotel. *)
Lemma owns_flight_adapter (h : heap) (p : loc) (s : state) (fp : gset loc) :
  owns h p s fp ->
  match s with SCanada _ _ | STurkish _ _ => True | _ => False end ->
  flight_adapter h (Some p).
Proof.
  intros Ho Hs. exists p. split; [reflexivity|].
  inversion Ho; subst; try contradiction; [left|right]; eauto.
Qed.

Lemma owns_hotel_adapter (h : heap) (p : loc) (s : state) (fp : gset loc) :
  owns h p s fp ->
  match s with SHilton _ _ | SMarriott _ _ => True | _ => False end ->
  hotel_adapter h (Some p).
Proof.
  intros Ho Hs. exists p. split; [reflexivity|].
  inversion Ho; subst; try contradiction; [left|right]; eauto 10.
Qed.

(** The constructor of MakeReservation, on any store: the builder is
    well-formed, with its four working records null; a Canada and a Turkish
    adapter are registered as airports and a Hilton and a Marriott adapter
    as hotels, in this order, each well-formed with default-valued records,
    in cells that were not in use; the merged offers are those of Canada
    then Turkish, and those of Hilton then Marriott. No cell in use is
    changed but the storage of the builder. *)
Lemma MakeReservation_ctor_spec :
  forall (h : heap) (this : loc) (o : obj),
    h !! this = Some o ->
    exists h' canada turkish hilton marriott f1 f2 f3 f4,
      MakeReservation.ctor this h = Val (tt, h')
      /\ builder h' this
           (MakeReservation.mk_members [Some canada; Some turkish]
              [Some hilton; Some marriott] None None None None)
      /\ flat_map (flight_offers h') [Some canada; Some turkish]
         = map CanadaFlightReservation.tag AirCanadaOnlineAPI.getFlights
           ++ map TurkishFlightReservation.tag
                TurkishAirlineOnlineAPI.getAvailableFlights
      /\ flat_map (room_offers h') [Some hilton; Some marriott]
         = map HiltonHotelReservation.tag
             (HiltonHotelAPI.searchRooms HiltonCustomerInfo.default)
           ++ map MarriottHotelReservation.tag
                (MarriottHotelAPI.findRooms MarriottCustomerInfo.default)
      /\ owns h' canada
           (SCanada AirCanadaCustomerInfo.default AirCanadaFlight.default) f1
      /\ owns h' turkish
           (STurkish TurkishCustomerInfo.default TurkishFlight.default) f2
      /\ owns h' hilton
           (SHilton HiltonCustomerInfo.default HiltonRoom.default) f3
      /\ owns h' marriott
           (SMarriott MarriottCustomerInfo.default MarriottFoundRoom.default)
           f4
      /\ dom h' = dom h ∪ f1 ∪ f2 ∪ f3 ∪ f4
      /\ (forall l, l <> this -> l ∈ dom h -> h' !! l = h !! l).
Proof.
  intros h this o Hthis.
  destruct (Canada_default_made h)
    as (c & h0a & h1 & f1 & En1 & Ec1 & Ho1 & Hs1 & Hf1 & Hd1).
  destruct (Turkish_default_made h1)
    as (t & h0b & h2 & f2 & En2 & Ec2 & Ho2 & Hs2 & Hf2 & Hd2).
  destruct (Hilton_default_made h2)
    as (hi & h0c & h3 & f3 & En3 & Ec3 & Ho3 & Hs3 & Hf3 & Hd3).
  destruct (Marriott_default_made h3)
    as (ma & h0d & h4 & f4 & En4 & Ec4 & Ho4 & Hs4 & Hf4 & Hd4).
  assert (h ⊆ h4) as Hs by (do 3 (etrans; [eassumption|]); assumption).
  assert (h4 !! this = Some o) as Hthis4 by (eapply lookup_weaken; eauto).
  assert (this ∈ dom h) as Hdt by (apply elem_of_dom; eauto).
  unfold MakeReservation.ctor. mred.
  rewrite En1. mred. rewrite Ec1. mred. rewrite En2. mred. rewrite Ec2. mred.
  rewrite En3. mred. rewrite Ec3. mred. rewrite En4. mred. rewrite Ec4. mred.
  unfold store. rewrite Hthis4.
  set (m := OMakeReservation [Some c; Some t] [Some hi; Some ma] None None
              None None).
  assert (forall p s fp, owns h4 p s fp -> this ∉ fp ->
            owns (<[this := m]> h4) p s fp) as Hkeep.
  { intros p s fp Ho Hn. eapply owns_frame_mut; [exact Ho|].
    intros l Hl. rewrite lookup_insert_ne; auto. intros ->. auto. }
  assert (owns (<[this := m]> h4) c
            (SCanada AirCanadaCustomerInfo.default AirCanadaFlight.default)
            f1) as Ho1'.
  { apply Hkeep; [|clear - Hf1 Hdt; set_solver].
    eapply owns_weaken; [|exact Ho1]. do 2 (etrans; [eassumption|]).
    assumption. }
  assert (owns (<[this := m]> h4) t
            (STurkish TurkishCustomerInfo.default TurkishFlight.default)
            f2) as Ho2'.
  { apply Hkeep; [|clear - Hf2 Hd1 Hdt; set_solver].
    eapply owns_weaken; [|exact Ho2]. etrans; eassumption. }
  assert (owns (<[this := m]> h4) hi
            (SHilton HiltonCustomerInfo.default HiltonRoom.default) f3)
    as Ho3'.
  { apply Hkeep; [|clear - Hf3 Hd1 Hd2 Hdt; set_solver].
    eapply owns_weaken; [|exact Ho3]. assumption. }
  assert (owns (<[this := m]> h4) ma
            (SMarriott MarriottCustomerInfo.default
               MarriottFoundRoom.default) f4) as Ho4'.
  { apply Hkeep; [|clear - Hf4 Hd1 Hd2 Hd3 Hdt; set_solver]. exact Ho4. }
  exists (<[this := m]> h4), c, t, hi, ma, f1, f2, f3, f4.
  split; [reflexivity|].
  split.
  { split; [unfold MakeReservation.members; rewrite lookup_insert_eq;
            reflexivity|].
    split; [repeat constructor; eapply owns_flight_adapter; eauto; exact I|].
    split; [repeat constructor; eapply owns_hotel_adapter; eauto; exact I|].
    repeat split; intros l Hl; discriminate Hl. }
  split.
  { inversion Ho1'; inversion Ho2'; subst. unfold flat_map, flight_offers.
    use_lookups. rewrite app_nil_r. reflexivity. }
  split.
  { inversion Ho3'; inversion Ho4'; subst. unfold flat_map, room_offers.
    use_lookups. rewrite app_nil_r. reflexivity. }
  do 4 (split; [assumption|]).
  split.
  { rewrite dom_insert_L, Hd4, Hd3, Hd2, Hd1. clear - Hdt. set_solver. }
  intros l Hne Hl. apply elem_of_dom in Hl as [o' Hl].
  rewrite lookup_insert_ne by auto. rewrite Hl.
  eapply lookup_weaken; eauto.
Qed.

(** * Exact accounting of the cells a clone adds *)

Lemma clone_exact_ok (vclone : loc -> M loc) (s : state) :
  clone_exact vclone s -> clone_ok vclone s.
Proof.
  intros H h p fp Ho. destruct (H h p fp Ho) as (q & h' & fq & ? & ? & ? & ? & ?).
  exists q, h', fq. auto.
Qed.

Ltac adapter_clone_exact q a' b' :=
  exists q; eexists; exists {[q; a'; b']};
  split; [reflexivity|];
  split; [apply map_subseteq_spec; intros ? ? ?; lookups; auto|];
  split; [constructor; lookups; auto|];
  repeat match goal with
         | H : _ !! _ = None |- _ => apply not_elem_of_dom in H
         | H : _ !! _ = Some _ |- _ =>
             apply (elem_of_dom_2 (D := gset loc)) in H
         end;
  split; [set_solver|];
  rewrite !dom_insert_L; set_solver.

Lemma Canada_clone_exact ci cf :
  clone_exact CanadaFlightReservation.clone (SCanada ci cf).
Proof.
  intros h p fp Ho. inversion Ho as [? a b ? ? Hp Ha Hb| | | |]; subst.
  unfold CanadaFlightReservation.clone, CanadaFlightReservation.copy_ctor,
    CanadaFlightReservation.ctor. mred.
  alloc q Hq. mred. alloc a' Ha'. mred. alloc b' Hb'.
  unfold store, CanadaFlightReservation.members, deref, assign. mrun.
  adapter_clone_exact q a' b'.
Qed.

Lemma Turkish_clone_exact ci cf :
  clone_exact TurkishFlightReservation.clone (STurkish ci cf).
Proof.
  intros h p fp Ho. inversion Ho as [|? a b ? ? Hp Ha Hb| | |]; subst.
  unfold TurkishFlightReservation.clone, TurkishFlightReservation.copy_ctor,
    TurkishFlightReservation.copy_members, TurkishFlightReservation.ctor.
  mred. alloc q Hq. mred. alloc a' Ha'. mred. alloc b' Hb'.
  unfold store, TurkishFlightReservation.members, deref, assign. mrun.
  adapter_clone_exact q a' b'.
Qed.

Lemma Hilton_clone_exact ci cr :
  clone_exact HiltonHotelReservation.clone (SHilton ci cr).
Proof.
  intros h p fp Ho. inversion Ho as [| |? a b ? ? Hp Ha Hb| |]; subst.
  unfold HiltonHotelReservation.clone, HiltonHotelReservation.copy_ctor,
    HiltonHotelReservation.copy_members, HiltonHotelReservation.ctor.
  mred. alloc q Hq. mred. alloc a' Ha'. mred. alloc b' Hb'.
  unfold store, HiltonHotelReservation.members, deref, assign. mrun.
  adapter_clone_exact q a' b'.
Qed.

Lemma Marriott_clone_exact ci cr :
  clone_exact MarriottHotelReservation.clone (SMarriott ci cr).
Proof.
  intros h p fp Ho. inversion Ho as [| | |? a b ? ? Hp Ha Hb|]; subst.
  unfold MarriottHotelReservation.clone, MarriottHotelReservation.copy_ctor,
    MarriottHotelReservation.copy_members, MarriottHotelReservation.ctor.
  mred. alloc q Hq. mred. alloc a' Ha'. mred. alloc b' Hb'.
  unfold store, MarriottHotelReservation.members, deref, assign. mrun.
  adapter_clone_exact q a' b'.
Qed.

(** One [addReservation], with the cells it adds. *)
Lemma addReservation_exact (vclone : loc -> M loc) (h : heap)
  this ps ss fp item t fr :
  h !! this = Some (OItinerary (Some <$> ps)) ->
  owns_list h ps ss fp -> this ∉ fp ->
  owns h item t fr -> clone_exact vclone t ->
  exists h' c fc,
    Itinerary.addReservation vclone this (Some item) h = Val (tt, h')
    /\ h' !! this = Some (OItinerary (Some <$> (ps ++ [c])))
    /\ owns_list h' (ps ++ [c]) (ss ++ [t]) (fp ∪ fc)
    /\ fc ## dom h
    /\ (forall l o, h !! l = Some o -> l <> this -> h' !! l = Some o)
    /\ owns h' c t fc
    /\ dom h' = dom h ∪ fc.
Proof.
  intros Hthis Hl Hn Hitem Hok.
  destruct (Hok h item fr Hitem) as (c & h1 & fc & E & Hsub & Hc & Hfc & Hd).
  assert (this ∈ dom h) as Hdom by (apply elem_of_dom; eauto).
  assert (this ∉ fc) as Hnc by (clear - Hfc Hdom; set_solver).
  assert (h1 !! this = Some (OItinerary (Some <$> ps))) as Hthis1
    by (eapply lookup_weaken; eauto).
  unfold Itinerary.addReservation. mred. rewrite E. mred.
  unfold Itinerary.Reservations, store. mrun.
  eexists. exists c, fc. split; [reflexivity|].
  assert (owns (<[this := OItinerary ((Some <$> ps) ++ [Some c])]> h1) c t fc)
    as Hc2.
  { eapply owns_frame_mut; [exact Hc|].
    intros l Hin. rewrite lookup_insert_ne; auto. intros ->. auto. }
  split; [|split; [|split; [|split; [|split]]]].
  - lookups. rewrite fmap_app. reflexivity.
  - apply owns_list_snoc.
    + eapply owns_list_frame; [eapply owns_list_weaken; eauto|].
      intros l Hin. rewrite lookup_insert_ne; auto. intros ->. auto.
    + exact Hc2.
    + intros l H1 H2. apply (Hfc l); auto.
      apply elem_of_dom. eapply owns_list_dom; eauto.
  - auto.
  - intros l o Hlo Hne. rewrite lookup_insert_ne by auto.
    eapply lookup_weaken; eauto.
  - exact Hc2.
  - rewrite dom_insert_L, Hd. clear - Hdom. set_solver.
Qed.

Lemma addReservations_exact (vclone : loc -> M loc) :
  forall rs ts (h : heap) this ps ss fp,
    h !! this = Some (OItinerary (Some <$> ps)) ->
    owns_list h ps ss fp -> this ∉ fp ->
    Forall2 (fun r t => exists fr, owns h r t fr /\ this ∉ fr) rs ts ->
    Forall (clone_exact vclone) ts ->
    exists h' cs fcs,
      Itinerary.addReservations vclone this (Some <$> rs) h = Val (tt, h')
      /\ h' !! this = Some (OItinerary (Some <$> (ps ++ cs)))
      /\ owns_list h' (ps ++ cs) (ss ++ ts) (fp ∪ fcs)
      /\ fcs ## dom h
      /\ (forall l o, h !! l = Some o -> l <> this -> h' !! l = Some o)
      /\ dom h' = dom h ∪ fcs.
Proof.
  induction rs as [|r rs IH]; intros ts h this ps ss fp Hthis Hl Hn Hsrc Hok.
  - inversion Hsrc; subst. exists h, [], ∅. simpl.
    rewrite !app_nil_r. replace (fp ∪ ∅) with fp by set_solver.
    repeat split; auto; set_solver.
  - inversion Hsrc as [|? t ? ts' (fr & Hr & Hnr) Hrest]; subst.
    inversion Hok as [|? ? Hokt Hokts]; subst.
    destruct (addReservation_exact vclone h this ps ss fp r t fr)
      as (h1 & c & fc & E1 & Hthis1 & Hl1 & Hfc & Hkeep & _ & Hd1); auto.
    assert (this ∈ dom h) as Hdom by (apply elem_of_dom; eauto).
    assert (this ∉ fp ∪ fc) as Hn1 by (clear - Hn Hfc Hdom; set_solver).
    assert (Forall2 (fun r t => exists fr, owns h1 r t fr /\ this ∉ fr) rs ts')
      as Hsrc1.
    { eapply Forall2_impl; [exact Hrest|]. intros r' t' (f & Ho & Hnf).
      exists f. split; auto. eapply owns_frame_mut; [exact Ho|].
      intros l Hin. destruct (owns_dom_mut h r' t' f Ho l Hin) as [o Hlo].
      rewrite Hlo. apply Hkeep; auto. intros ->. auto. }
    destruct (IH ts' h1 this (ps ++ [c]) (ss ++ [t]) (fp ∪ fc))
      as (h2 & cs & fcs & E2 & Hthis2 & Hl2 & Hfcs & Hkeep2 & Hd2); auto.
    exists h2, (c :: cs), (fc ∪ fcs).
    rewrite fmap_cons. cbn [Itinerary.addReservations]. mred.
    rewrite E1. mred. rewrite E2.
    split; [reflexivity|]. split; [|split; [|split; [|split]]].
    + rewrite Hthis2. rewrite <- app_assoc. reflexivity.
    + replace (ps ++ c :: cs) with ((ps ++ [c]) ++ cs)
        by (rewrite <- app_assoc; reflexivity).
      replace (ss ++ t :: ts') with ((ss ++ [t]) ++ ts')
        by (rewrite <- app_assoc; reflexivity).
      replace (fp ∪ (fc ∪ fcs)) with (fp ∪ fc ∪ fcs) by set_solver.
      exact Hl2.
    + rewrite Hd1 in Hfcs. clear - Hfc Hfcs. set_solver.
    + intros l o Hlo Hne. apply Hkeep2; auto.
    + rewrite Hd2, Hd1. clear. set_solver.
Qed.

Lemma clone_exact_owns (fuel : nat) :
  forall s, (depth s < fuel)%nat -> clone_exact (Reservation.clone fuel) s.
Proof.
  induction fuel as [|n IH]; intros s Hd; [lia|].
  intros h p fp Ho.
  destruct s as [ci cf|ci cf|ci cr|ci cr|ss].
  - destruct (Canada_clone_exact ci cf h p fp Ho) as (q & h' & fq & E & R).
    inversion Ho; subst. exists q, h', fq. split; auto.
    simpl. use_lookups. exact E.
  - destruct (Turkish_clone_exact ci cf h p fp Ho) as (q & h' & fq & E & R).
    inversion Ho; subst. exists q, h', fq. split; auto.
    simpl. use_lookups. exact E.
  - destruct (Hilton_clone_exact ci cr h p fp Ho) as (q & h' & fq & E & R).
    inversion Ho; subst. exists q, h', fq. split; auto.
    simpl. use_lookups. exact E.
  - destruct (Marriott_clone_exact ci cr h p fp Ho) as (q & h' & fq & E & R).
    inversion Ho; subst. exists q, h', fq. split; auto.
    simpl. use_lookups. exact E.
  - inversion Ho as [| | | |? ps ? fps Hp Hl Hn]; subst.
    cbn [Reservation.clone]. rewrite Hp.
    unfold Itinerary.clone, Itinerary.copy_ctor, Itinerary.ctor. mred.
    alloc q Hq. unfold store, Itinerary.Reservations. mrun.
    rewrite insert_insert_eq.
    set (h1 := <[q := OItinerary []]> h).
    assert (h ⊆ h1) as Hsub by (apply insert_subseteq; auto).
    assert (q ∉ dom h) as Hqd by (apply not_elem_of_dom; auto).
    destruct (addReservations_exact (Reservation.clone n) ps ss h1 q [] [] ∅)
      as (h2 & cs & fcs & E & Hq2 & Hl2 & Hfcs & Hkeep & Hd2).
    + unfold h1. lookups. reflexivity.
    + constructor.
    + set_solver.
    + eapply Forall2_impl; [apply (owns_list_elements h ps ss fps Hl)|].
      intros r t (f & Hr & Hf). exists f. split.
      * eapply owns_weaken; eauto.
      * intros Hin. apply Hqd. apply elem_of_dom.
        eapply owns_dom_mut; eauto.
    + apply List.Forall_forall. intros t Hin. apply IH.
      pose proof (depth_element t ss Hin). lia.
    + rewrite E. mred. simpl in Hq2, Hl2.
      assert (dom h1 = {[q]} ∪ dom h) as Hd1 by (unfold h1; apply dom_insert_L).
      exists q, h2, ({[q]} ∪ fcs). split; [reflexivity|].
      split; [|split; [|split]].
      * apply map_subseteq_spec. intros l o Hlo. apply Hkeep.
        -- eapply lookup_weaken; eauto.
        -- intros ->. congruence.
      * replace (∅ ∪ fcs) with fcs in Hl2 by set_solver.
        apply owns_itinerary with (ps := cs); auto. set_solver.
      * set_solver.
      * rewrite Hd2, Hd1. clear. set_solver.
Qed.

Lemma owns_cell_kind (h : heap) :
  forall p s fp, owns h p s fp ->
    forall l, l ∈ fp -> exists o, h !! l = Some o /\ reservation_cell o.
Proof.
  apply (owns_mut h
    (fun p s fp => forall l, l ∈ fp ->
       exists o, h !! l = Some o /\ reservation_cell o)
    (fun ps ss fp => forall l, l ∈ fp ->
       exists o, h !! l = Some o /\ reservation_cell o)).
  1-4: intros p a b ci cf Hp Ha Hb l Hl;
       assert (l = p \/ l = a \/ l = b) as [E|[E|E]] by set_solver;
       rewrite E; eexists; (split; [eassumption|exact I]).
  - intros p ps ss fp Hp _ IH Hn l Hl.
    assert (l = p \/ l ∈ fp) as [E|?] by set_solver; [rewrite E|]; eauto.
    eexists. split; [eassumption|exact I].
  - intros l Hl. set_solver.
  - intros q qs s ss fq fqs _ IH1 _ IH2 D l Hl.
    assert (l ∈ fq \/ l ∈ fqs) as [?|?] by set_solver; eauto.
Qed.

Lemma destroy_dom (h h' : heap) (fp : gset loc) :
  (forall l, l ∉ fp -> h' !! l = h !! l) ->
  (forall l, l ∈ fp -> h' !! l = None) ->
  dom h' = dom h ∖ fp.
Proof.
  intros Hout Hin.
  apply set_eq. intros l. rewrite elem_of_difference, !elem_of_dom.
  destruct (decide (l ∈ fp)) as [Hl|Hl].
  - rewrite (Hin l Hl). split; [intros [? [=]]|intros [_ ?]; contradiction].
  - rewrite (Hout l Hl). tauto.
Qed.

Lemma depth_snoc_adapter (ss : list state) (s : state) :
  depth s = O ->
  depth (SItinerary (ss ++ [s])) = Nat.max (depth (SItinerary ss)) 1.
Proof. intros Hs. rewrite depth_app. simpl. rewrite Hs. lia. Qed.

(** A clone of a reservation is added to an Itinerary, then the reservation
    is destroyed. *)
Lemma add_then_destroy (fuel : nat) (h1 : heap) (i q : loc)
  (ss : list state) (s : state) (fi fq : gset loc) :
  owns h1 i (SItinerary ss) fi -> owns h1 q s fq -> fi ## fq ->
  (depth s < fuel)%nat ->
  exists h3 fc,
    (Itinerary.addReservation (Reservation.clone fuel) i (Some q) ;;
     Reservation.destroy fuel q) h1 = Val (tt, h3)
    /\ owns h3 i (SItinerary (ss ++ [s])) (fi ∪ fc)
    /\ fc ## dom h1
    /\ dom h3 = (dom h1 ∖ fq) ∪ fc
    /\ (forall l o, h1 !! l = Some o -> l ∉ fq -> l <> i -> h3 !! l = Some o)
    /\ Itinerary.isEmpty i h3 = Val false.
Proof.
  intros Hi Hq Hdisj Hd.
  inversion Hi as [| | | |? ps ? fp Hp Hl Hn]; subst.
  destruct (addReservation_exact (Reservation.clone fuel) h1 i ps ss fp q s fq
              Hp Hl Hn Hq (clone_exact_owns fuel s Hd))
    as (h2 & c & fc & E2 & Hthis2 & Hl2 & Hfc & Hkeep2 & Hoc & Hd2).
  assert (i ∉ fq) as Hiq by (clear - Hdisj; set_solver).
  assert (owns h2 q s fq) as Hq2.
  { eapply owns_frame_mut; [exact Hq|]. intros l Hin.
    destruct (owns_dom_mut h1 q s fq Hq l Hin) as [o Hlo].
    rewrite Hlo. apply Hkeep2; auto. intros ->. contradiction. }
  destruct (destroy_owns fuel s Hd h2 q fq Hq2) as (h3 & Ed & Hout & Hin).
  assert (fq ⊆ dom h1) as Hfq1.
  { intros l Hin'. apply elem_of_dom. eapply owns_dom_mut; eauto. }
  assert (i ∈ dom h1) as Hid by (apply elem_of_dom; eauto).
  exists h3, fc. mred. rewrite E2. mred. rewrite Ed.
  split; [reflexivity|].
  split.
  { replace ({[i]} ∪ fp ∪ fc) with ({[i]} ∪ (fp ∪ fc)) by set_solver.
    eapply owns_frame_mut.
    - apply owns_itinerary with (ps := ps ++ [c]); eauto.
      clear - Hn Hfc Hid. set_solver.
    - intros l Hin'. apply Hout. clear - Hin' Hdisj Hfc Hfq1. set_solver. }
  split; [exact Hfc|].
  split. { rewrite (destroy_dom h2 h3 fq Hout Hin), Hd2.
           clear - Hfc Hfq1. set_solver. }
  split.
  { intros l o Hlo Hlq Hli. rewrite Hout by exact Hlq. apply Hkeep2; auto. }
  unfold Itinerary.isEmpty, Itinerary.Reservations.
  rewrite (Hout i Hiq), Hthis2. destruct ps; reflexivity.
Qed.

Lemma flight_state_cost (i : MakeReservation.flight_input)
  (f : FoundFlightInfo.t) :
  cost_of (flight_state (typed_passenger i) f)
  = flight_cost (FoundFlightInfo.price f) (MakeReservation.in_adults i)
      (MakeReservation.in_children i) (MakeReservation.in_infants i)
  /\ depth (flight_state (typed_passenger i) f) = O.
Proof. unfold flight_state. destruct (String.eqb _ _); split; reflexivity. Qed.

Lemma cost_snoc (ss : list state) (s : state) :
  cost_of (SItinerary (ss ++ [s]))
  = (cost_of (SItinerary ss) + cost_of s)%float.
Proof. simpl. rewrite fold_left_app. reflexivity. Qed.

(** The cells of a well-formed Itinerary are kept by the flight workflow. *)
Lemma owns_kept_by_flight (h h1 : heap) (r : loc)
  (m : MakeReservation.members_t) (p : loc) (s : state) (fp : gset loc) :
  builder h r m ->
  (forall l o, h !! l = Some o -> l <> r ->
     Some l <> MakeReservation.passenger_info m ->
     Some l <> MakeReservation.chosen_flight m -> h1 !! l = Some o) ->
  owns h p s fp -> owns h1 p s fp.
Proof.
  intros Hb Hframe Ho. eapply owns_frame_mut; [exact Ho|]. intros l Hl.
  destruct (owns_cell_kind h p s fp Ho l Hl) as (o & Hlo & Hk).
  rewrite Hlo. apply (flight_records_apart h h1 r m Hb Hframe l o Hlo).
  destruct o; try contradiction; exact I.
Qed.

Lemma owns_kept_by_room (h h1 : heap) (r : loc)
  (m : MakeReservation.members_t) (p : loc) (s : state) (fp : gset loc) :
  builder h r m ->
  (forall l o, h !! l = Some o -> l <> r ->
     Some l <> MakeReservation.customer_info m ->
     Some l <> MakeReservation.chosen_room m -> h1 !! l = Some o) ->
  owns h p s fp -> owns h1 p s fp.
Proof.
  intros Hb Hframe Ho. eapply owns_frame_mut; [exact Ho|]. intros l Hl.
  destruct (owns_cell_kind h p s fp Ho l Hl) as (o & Hlo & Hk).
  rewrite Hlo. apply (room_records_apart h h1 r m Hb Hframe l o Hlo).
  destruct o; try contradiction; exact I.
Qed.

(** The builder after a clone of the reservation it returned was added to
    an Itinerary and the reservation destroyed. *)
Lemma builder_after_add (h h1 h3 : heap) (r i : loc)
  (m m1 : MakeReservation.members_t) (fq : gset loc) (rs : list ptr) :
  builder h r m -> builder h1 r m1 ->
  MakeReservation.Airports m1 = MakeReservation.Airports m ->
  MakeReservation.Hotels m1 = MakeReservation.Hotels m ->
  (forall l o, h !! l = Some o -> flight_cell o \/ hotel_cell o ->
     h1 !! l = Some o /\ l ∉ fq) ->
  (forall l o, h1 !! l = Some o -> l ∉ fq -> l <> i -> h3 !! l = Some o) ->
  h1 !! i = Some (OItinerary rs) ->
  r ∉ fq ->
  (forall l, l ∈ fq ->
     Some l <> MakeReservation.passenger_info m1
     /\ Some l <> MakeReservation.customer_info m1
     /\ Some l <> MakeReservation.chosen_flight m1
     /\ Some l <> MakeReservation.chosen_room m1) ->
  builder h3 r m1
  /\ flat_map (flight_offers h3) (MakeReservation.Airports m1)
     = flat_map (flight_offers h) (MakeReservation.Airports m)
  /\ flat_map (room_offers h3) (MakeReservation.Hotels m1)
     = flat_map (room_offers h) (MakeReservation.Hotels m).
Proof.
  intros Hb Hb1 Ea Eh Hk1 Hk3 Hi Hr Hrec.
  pose proof Hb1 as (Hm1 & _ & _ & Hpi & Hci & Hcf & Hcr).
  assert (forall l o, h1 !! l = Some o ->
            match o with OItinerary _ => False | _ => True end ->
            l ∉ fq -> h3 !! l = Some o) as Hk.
  { intros l o Hl Ho Hn. apply Hk3; auto. intros ->. rewrite Hi in Hl.
    injection Hl as <-. contradiction. }
  apply (builder_kept h h3 r m m1 Hb); auto.
  - unfold MakeReservation.members in *.
    destruct (h1 !! r) as [o|] eqn:Hr1; [|discriminate].
    rewrite (Hk r o Hr1); auto. destruct o; try discriminate; exact I.
  - intros l o Hl Hc. destruct (Hk1 l o Hl Hc) as [Hl1 Hn].
    apply Hk; auto. destruct o; destruct Hc as [Hc|Hc]; try contradiction;
      exact I.
  - intros l Hl. destruct (Hpi l Hl) as [v Hv]. exists v.
    apply Hk; [assumption|exact I|]. intros Hin.
    destruct (Hrec l Hin) as (N & _). congruence.
  - intros l Hl. destruct (Hci l Hl) as [v Hv]. exists v.
    apply Hk; [assumption|exact I|]. intros Hin.
    destruct (Hrec l Hin) as (_ & N & _). congruence.
  - intros l Hl. destruct (Hcf l Hl) as [v Hv]. exists v.
    apply Hk; [assumption|exact I|]. intros Hin.
    destruct (Hrec l Hin) as (_ & _ & N & _). congruence.
  - intros l Hl. destruct (Hcr l Hl) as [v Hv]. exists v.
    apply Hk; [assumption|exact I|]. intros Hin.
    destruct (Hrec l Hin) as (_ & _ & _ & N). congruence.
Qed.

(** X18. [addFlight()] on a well-formed ItineraryBuilder, with an [int]
    choice within 1..N of the merged list: the Itinerary gains one element,
    a flight adapter in the state given by the criteria typed and the flight
    at position [choice - 1]; its cost grows by the price of that flight
    times the passengers typed; [checkItinerary()] is false. The builder
    stays well-formed with the same offers, so the calls compose. The
    reservation the workflow returned is destroyed: the only cells added to
    the store are those the Itinerary owns and the two working records. *)
Theorem addFlight_appends_the_flight :
  forall (h : heap) (b : ItineraryBuilder.t) (m : MakeReservation.members_t)
         (ss : list state) (fi : gset loc)
         (i : MakeReservation.flight_input),
    itinerary_builder h b m ss fi ->
    is_int (MakeReservation.in_flight_choice i) ->
    1 <= MakeReservation.in_flight_choice i
      <= int_of_size (flat_map (flight_offers h) (MakeReservation.Airports m)) ->
    exists n0 : nat, forall fuel : nat, (n0 <= fuel)%nat ->
      exists h' m' fi' flight itinerary c,
        index (flat_map (flight_offers h) (MakeReservation.Airports m))
          (MakeReservation.in_flight_choice i - 1) = Val flight
        /\ ItineraryBuilder.addFlight fuel b i h = Val (tt, h')
        /\ itinerary_builder h' b m'
             (ss ++ [flight_state (typed_passenger i) flight]) fi'
        /\ flat_map (flight_offers h') (MakeReservation.Airports m')
           = flat_map (flight_offers h) (MakeReservation.Airports m)
        /\ flat_map (room_offers h') (MakeReservation.Hotels m')
           = flat_map (room_offers h) (MakeReservation.Hotels m)
        /\ ItineraryBuilder.getItinerary b = Some itinerary
        /\ Reservation.getCost fuel itinerary h = Val c
        /\ Reservation.getCost fuel itinerary h'
           = Val (c + flight_cost (FoundFlightInfo.price flight)
                        (MakeReservation.in_adults i)
                        (MakeReservation.in_children i)
                        (MakeReservation.in_infants i))%float
        /\ ItineraryBuilder.checkItinerary b h' = Val false
        /\ no_leak h h' m' fi'.
Proof.
  intros h b m ss fi i (it & r & Hit & Hres & Hown & Hb) Hint Hrange.
  exists (S (Nat.max (depth (SItinerary ss)) 1)). intros fuel Hf.
  destruct (reservingFlight_returns h r m i Hb Hint Hrange)
    as (q & h1 & Erun).
  destruct (reservingFlight_spec h r m i (Some q) h1 Hb Erun)
    as (pi & cf & Hb1 & Ef & Er & Hpi1 & Hframe & flight & fq & Hidx & Hcf1
        & Hoq & Hn1 & Hn2 & Hn3 & Hdom1 & Hfq).
  rewrite int_wrap_in_range in Hidx
    by (unfold is_int, INT_MIN, INT_MAX in *; lia).
  set (s := flight_state (typed_passenger i) flight) in *.
  destruct (flight_state_cost i flight) as [Hcost Hdepth]. fold s in Hcost, Hdepth.
  set (m1 := MakeReservation.mk_members (MakeReservation.Airports m)
               (MakeReservation.Hotels m) (Some pi)
               (MakeReservation.customer_info m) (Some cf)
               (MakeReservation.chosen_room m)) in *.
  pose proof (owns_kept_by_flight h h1 r m it _ fi Hb Hframe Hown) as Hown1.
  pose proof (flight_records_apart h h1 r m Hb Hframe) as Hkept.
  pose proof Hb as (Hm & _ & _ & Hpi & Hci & Hcf & Hcr).
  assert (forall l o, h !! l = Some o -> l ∈ fq ->
            Some l = MakeReservation.passenger_info m
            \/ Some l = MakeReservation.chosen_flight m) as Hfq'.
  { intros l o Hlo Hl. destruct (Hfq l Hl) as [N|N]; [congruence|exact N]. }
  assert (fi ## fq) as Hdisj.
  { intros l Hl1 Hl2.
    destruct (owns_cell_kind h it _ fi Hown l Hl1) as (o & Hlo & Hk).
    destruct (Hfq' l o Hlo Hl2) as [N|N]; symmetry in N.
    - destruct (Hpi l N) as [v Hv]. rewrite Hlo in Hv. injection Hv as ->.
      contradiction.
    - destruct (Hcf l N) as [v Hv]. rewrite Hlo in Hv. injection Hv as ->.
      contradiction. }
  destruct (add_then_destroy fuel h1 it q ss s fi fq Hown1 Hoq Hdisj
              ltac:(lia))
    as (h3 & fc & Eadd & Hown3 & Hfc & Hdom3 & Hkeep3 & Hempty).
  inversion Hown1 as [| | | |? ps ? fp Hp1 _ _]; subst.
  destruct (builder_after_add h h1 h3 r it m m1 fq (Some <$> ps) Hb Hb1)
    as (Hb3 & Ef3 & Er3); auto.
  { intros l o Hlo Hc. split.
    - apply Hkept; auto.
      destruct o; destruct Hc as [Hc|Hc]; try contradiction; exact I.
    - intros Hl. destruct (Hfq' l o Hlo Hl) as [N|N]; symmetry in N.
      + destruct (Hpi l N) as [v Hv]. rewrite Hlo in Hv. injection Hv as ->.
        destruct Hc; contradiction.
      + destruct (Hcf l N) as [v Hv]. rewrite Hlo in Hv. injection Hv as ->.
        destruct Hc; contradiction. }
  { intros l Hl. unfold m1. simpl.
    split; [intros [= ->]; contradiction|].
    split; [|split; [intros [= ->]; contradiction|]].
    - intros N. symmetry in N. destruct (Hci l N) as [v Hv].
      destruct (Hfq' l _ Hv Hl) as [N'|N']; symmetry in N'.
      + destruct (Hpi l N') as [v' Hv']. congruence.
      + destruct (Hcf l N') as [v' Hv']. congruence.
    - intros N. symmetry in N. destruct (Hcr l N) as [v Hv].
      destruct (Hfq' l _ Hv Hl) as [N'|N']; symmetry in N'.
      + destruct (Hpi l N') as [v' Hv']. congruence.
      + destruct (Hcf l N') as [v' Hv']. congruence. }
  exists h3, m1, ({[it]} ∪ fp ∪ fc), flight, it, (cost_of (SItinerary ss)).
  split; [exact Hidx|].
  split.
  { unfold ItineraryBuilder.addFlight. rewrite Hres. mred. rewrite Erun. mred.
    rewrite Hit. exact Eadd. }
  split; [exists it, r; auto|].
  split; [exact Ef3|]. split; [exact Er3|]. split; [exact Hit|].
  split; [apply (getCost_owns fuel h it _ _ Hown); lia|].
  split.
  { rewrite (getCost_owns fuel h3 it _ _ Hown3)
      by (rewrite depth_snoc_adapter by exact Hdepth; lia).
    rewrite cost_snoc, Hcost. reflexivity. }
  split; [unfold ItineraryBuilder.checkItinerary; rewrite Hit; exact Hempty|].
  intros l Hl. rewrite Hdom3 in Hl.
  assert (l ∈ fc \/ (l ∈ dom h1 /\ l ∉ fq)) as [?|[Hl1 Hlq]]
    by (clear - Hl; set_solver).
  - right. left. clear - H. set_solver.
  - assert (l = pi \/ l = cf \/ l ∈ dom h) as [->|[->|?]]
      by (clear - Hdom1 Hl1 Hlq; set_solver).
    + right. right. left. reflexivity.
    + do 4 right. left. reflexivity.
    + left. assumption.
Qed.

Lemma addFlight_appends_the_flight_witness :
  exists n0 : nat, forall fuel : nat, (n0 <= fuel)%nat ->
    exists h' m' fi' flight itinerary c,
      index (flat_map (flight_offers trip_store)
               (MakeReservation.Airports trip_members))
        (MakeReservation.in_flight_choice typed_flight - 1) = Val flight
      /\ ItineraryBuilder.addFlight fuel trip_builder typed_flight trip_store
         = Val (tt, h')
      /\ itinerary_builder h' trip_builder m'
           ([] ++ [flight_state (typed_passenger typed_flight) flight]) fi'
      /\ flat_map (flight_offers h') (MakeReservation.Airports m')
         = flat_map (flight_offers trip_store)
             (MakeReservation.Airports trip_members)
      /\ flat_map (room_offers h') (MakeReservation.Hotels m')
         = flat_map (room_offers trip_store)
             (MakeReservation.Hotels trip_members)
      /\ ItineraryBuilder.getItinerary trip_builder = Some itinerary
      /\ Reservation.getCost fuel itinerary trip_store = Val c
      /\ Reservation.getCost fuel itinerary h'
         = Val (c + flight_cost (FoundFlightInfo.price flight)
                      (MakeReservation.in_adults typed_flight)
                      (MakeReservation.in_children typed_flight)
                      (MakeReservation.in_infants typed_flight))%float
      /\ ItineraryBuilder.checkItinerary trip_builder h' = Val false
      /\ no_leak trip_store h' m' fi'.
Proof.
  apply (addFlight_appends_the_flight trip_store trip_builder trip_members
           [] _ typed_flight trip_store_builder).
  - unfold is_int, INT_MIN, INT_MAX. simpl. lia.
  - vm_compute. split; discriminate.
Defined.

Lemma room_state_cost (i : MakeReservation.room_input)
  (r : FoundRoomInfo.t) :
  cost_of (room_state (typed_customer i) r)
  = hotel_cost (FoundRoomInfo.price_for_night r)
      (MakeReservation.in_number_of_nights i) 0
  /\ depth (room_state (typed_customer i) r) = O
  /\ needed_rooms_of (room_state (typed_customer i) r) = Some 0.
Proof.
  unfold room_state. destruct (String.eqb _ _); repeat split; reflexivity.
Qed.

(** X19. [addHotel()] on a well-formed ItineraryBuilder, with an [int]
    choice within 1..N of the merged list: the Itinerary gains one element,
    a hotel adapter in the state given by the criteria typed and the room at
    position [choice - 1], with [needed_rooms] 0, so that the cost of the
    Itinerary grows by price * nights * 0; [checkItinerary()] is false. The
    builder stays well-formed with the same offers. The reservation the
    workflow returned is destroyed: the only cells added to the store are
    those the Itinerary owns and the two working records. *)
Theorem addHotel_appends_the_room :
  forall (h : heap) (b : ItineraryBuilder.t) (m : MakeReservation.members_t)
         (ss : list state) (fi : gset loc)
         (i : MakeReservation.room_input),
    itinerary_builder h b m ss fi ->
    is_int (MakeReservation.in_room_choice i) ->
    1 <= MakeReservation.in_room_choice i
      <= int_of_size (flat_map (room_offers h) (MakeReservation.Hotels m)) ->
    exists n0 : nat, forall fuel : nat, (n0 <= fuel)%nat ->
      exists h' m' fi' room itinerary c,
        index (flat_map (room_offers h) (MakeReservation.Hotels m))
          (MakeReservation.in_room_choice i - 1) = Val room
        /\ ItineraryBuilder.addHotel fuel b i h = Val (tt, h')
        /\ itinerary_builder h' b m'
             (ss ++ [room_state (typed_customer i) room]) fi'
        /\ needed_rooms_of (room_state (typed_customer i) room) = Some 0
        /\ flat_map (flight_offers h') (MakeReservation.Airports m')
           = flat_map (flight_offers h) (MakeReservation.Airports m)
        /\ flat_map (room_offers h') (MakeReservation.Hotels m')
           = flat_map (room_offers h) (MakeReservation.Hotels m)
        /\ ItineraryBuilder.getItinerary b = Some itinerary
        /\ Reservation.getCost fuel itinerary h = Val c
        /\ Reservation.getCost fuel itinerary h'
           = Val (c + hotel_cost (FoundRoomInfo.price_for_night room)
                        (MakeReservation.in_number_of_nights i) 0)%float
        /\ ItineraryBuilder.checkItinerary b h' = Val false
        /\ no_leak h h' m' fi'.
Proof.
  intros h b m ss fi i (it & r & Hit & Hres & Hown & Hb) Hint Hrange.
  exists (S (Nat.max (depth (SItinerary ss)) 1)). intros fuel Hf.
  destruct (reservingRoom_returns h r m i Hb Hint Hrange)
    as (q & h1 & Erun).
  destruct (reservingRoom_spec h r m i (Some q) h1 Hb Erun)
    as (ci & cr & Hb1 & Ef & Er & Hci1 & Hframe & room & fq & Hidx & Hcr1
        & Hoq & Hn1 & Hn2 & Hn3 & Hdom1 & Hfq).
  rewrite int_wrap_in_range in Hidx
    by (unfold is_int, INT_MIN, INT_MAX in *; lia).
  set (s := room_state (typed_customer i) room) in *.
  destruct (room_state_cost i room) as (Hcost & Hdepth & Hrooms).
  fold s in Hcost, Hdepth, Hrooms.
  set (m1 := MakeReservation.mk_members (MakeReservation.Airports m)
               (MakeReservation.Hotels m) (MakeReservation.passenger_info m)
               (Some ci) (MakeReservation.chosen_flight m) (Some cr)) in *.
  pose proof (owns_kept_by_room h h1 r m it _ fi Hb Hframe Hown) as Hown1.
  pose proof (room_records_apart h h1 r m Hb Hframe) as Hkept.
  pose proof Hb as (Hm & _ & _ & Hpi & Hci & Hcf & Hcr).
  assert (forall l o, h !! l = Some o -> l ∈ fq ->
            Some l = MakeReservation.customer_info m
            \/ Some l = MakeReservation.chosen_room m) as Hfq'.
  { intros l o Hlo Hl. destruct (Hfq l Hl) as [N|N]; [congruence|exact N]. }
  assert (fi ## fq) as Hdisj.
  { intros l Hl1 Hl2.
    destruct (owns_cell_kind h it _ fi Hown l Hl1) as (o & Hlo & Hk).
    destruct (Hfq' l o Hlo Hl2) as [N|N]; symmetry in N.
    - destruct (Hci l N) as [v Hv]. rewrite Hlo in Hv. injection Hv as ->.
      contradiction.
    - destruct (Hcr l N) as [v Hv]. rewrite Hlo in Hv. injection Hv as ->.
      contradiction. }
  destruct (add_then_destroy fuel h1 it q ss s fi fq Hown1 Hoq Hdisj
              ltac:(lia))
    as (h3 & fc & Eadd & Hown3 & Hfc & Hdom3 & Hkeep3 & Hempty).
  inversion Hown1 as [| | | |? ps ? fp Hp1 _ _]; subst.
  destruct (builder_after_add h h1 h3 r it m m1 fq (Some <$> ps) Hb Hb1)
    as (Hb3 & Ef3 & Er3); auto.
  { intros l o Hlo Hc. split.
    - apply Hkept; auto.
      destruct o; destruct Hc as [Hc|Hc]; try contradiction; exact I.
    - intros Hl. destruct (Hfq' l o Hlo Hl) as [N|N]; symmetry in N.
      + destruct (Hci l N) as [v Hv]. rewrite Hlo in Hv. injection Hv as ->.
        destruct Hc; contradiction.
      + destruct (Hcr l N) as [v Hv]. rewrite Hlo in Hv. injection Hv as ->.
        destruct Hc; contradiction. }
  { intros l Hl. unfold m1. simpl.
    split; [|split; [intros [= ->]; contradiction|
                     split; [|intros [= ->]; contradiction]]].
    - intros N. symmetry in N. destruct (Hpi l N) as [v Hv].
      destruct (Hfq' l _ Hv Hl) as [N'|N']; symmetry in N'.
      + destruct (Hci l N') as [v' Hv']. congruence.
      + destruct (Hcr l N') as [v' Hv']. congruence.
    - intros N. symmetry in N. destruct (Hcf l N) as [v Hv].
      destruct (Hfq' l _ Hv Hl) as [N'|N']; symmetry in N'.
      + destruct (Hci l N') as [v' Hv']. congruence.
      + destruct (Hcr l N') as [v' Hv']. congruence. }
  exists h3, m1, ({[it]} ∪ fp ∪ fc), room, it, (cost_of (SItinerary ss)).
  split; [exact Hidx|].
  split.
  { unfold ItineraryBuilder.addHotel. rewrite Hres. mred. rewrite Erun. mred.
    rewrite Hit. exact Eadd. }
  split; [exists it, r; auto|]. split; [exact Hrooms|].
  split; [exact Ef3|]. split; [exact Er3|]. split; [exact Hit|].
  split; [apply (getCost_owns fuel h it _ _ Hown); lia|].
  split.
  { rewrite (getCost_owns fuel h3 it _ _ Hown3)
      by (rewrite depth_snoc_adapter by exact Hdepth; lia).
    rewrite cost_snoc, Hcost. reflexivity. }
  split; [unfold ItineraryBuilder.checkItinerary; rewrite Hit; exact Hempty|].
  intros l Hl. rewrite Hdom3 in Hl.
  assert (l ∈ fc \/ (l ∈ dom h1 /\ l ∉ fq)) as [?|[Hl1 Hlq]]
    by (clear - Hl; set_solver).
  - right. left. clear - H. set_solver.
  - assert (l = ci \/ l = cr \/ l ∈ dom h) as [->|[->|?]]
      by (clear - Hdom1 Hl1 Hlq; set_solver).
    + do 3 right. left. reflexivity.
    + do 5 right. reflexivity.
    + left. assumption.
Qed.

Lemma addHotel_appends_the_room_witness :
  exists n0 : nat, forall fuel : nat, (n0 <= fuel)%nat ->
    exists h' m' fi' room itinerary c,
      index (flat_map (room_offers trip_store)
               (MakeReservation.Hotels trip_members))
        (MakeReservation.in_room_choice typed_room - 1) = Val room
      /\ ItineraryBuilder.addHotel fuel trip_builder typed_room trip_store
         = Val (tt, h')
      /\ itinerary_builder h' trip_builder m'
           ([] ++ [room_state (typed_customer typed_room) room]) fi'
      /\ needed_rooms_of (room_state (typed_customer typed_room) room)
         = Some 0
      /\ flat_map (flight_offers h') (MakeReservation.Airports m')
         = flat_map (flight_offers trip_store)
             (MakeReservation.Airports trip_members)
      /\ flat_map (room_offers h') (MakeReservation.Hotels m')
         = flat_map (room_offers trip_store)
             (MakeReservation.Hotels trip_members)
      /\ ItineraryBuilder.getItinerary trip_builder = Some itinerary
      /\ Reservation.getCost fuel itinerary trip_store = Val c
      /\ Reservation.getCost fuel itinerary h'
         = Val (c + hotel_cost (FoundRoomInfo.price_for_night room)
                      (MakeReservation.in_number_of_nights typed_room) 0)%float
      /\ ItineraryBuilder.checkItinerary trip_builder h' = Val false
      /\ no_leak trip_store h' m' fi'.
Proof.
  apply (addHotel_appends_the_room trip_store trip_builder trip_members
           [] _ typed_room trip_store_builder).
  - unfold is_int, INT_MIN, INT_MAX. simpl. lia.
  - vm_compute. split; discriminate.
Defined.

(** X20. [addFlight()] and [addHotel()] with the sentinel -1 or a choice
    above the size of the merged list: nothing is added; the Itinerary is
    in the state it was in, in the same cells; the builder stays well-formed
    with the same offers; the only cells added to the store are the two
    working records. *)
Theorem add_turned_down_changes_nothing :
  forall (h : heap) (b : ItineraryBuilder.t) (m : MakeReservation.members_t)
         (ss : list state) (fi : gset loc) (fuel : nat)
         (fl : MakeReservation.flight_input)
         (ro : MakeReservation.room_input),
    itinerary_builder h b m ss fi ->
    (MakeReservation.in_flight_choice fl = -1
     \/ MakeReservation.in_flight_choice fl
        > int_of_size (flat_map (flight_offers h)
                         (MakeReservation.Airports m)) ->
     exists h' m',
       ItineraryBuilder.addFlight fuel b fl h = Val (tt, h')
       /\ itinerary_builder h' b m' ss fi
       /\ flat_map (flight_offers h') (MakeReservation.Airports m')
          = flat_map (flight_offers h) (MakeReservation.Airports m)
       /\ flat_map (room_offers h') (MakeReservation.Hotels m')
          = flat_map (room_offers h) (MakeReservation.Hotels m)
       /\ no_leak h h' m' ∅)
    /\ (MakeReservation.in_room_choice ro = -1
        \/ MakeReservation.in_room_choice ro
           > int_of_size (flat_map (room_offers h)
                            (MakeReservation.Hotels m)) ->
        exists h' m',
          ItineraryBuilder.addHotel fuel b ro h = Val (tt, h')
          /\ itinerary_builder h' b m' ss fi
          /\ flat_map (flight_offers h') (MakeReservation.Airports m')
             = flat_map (flight_offers h) (MakeReservation.Airports m)
          /\ flat_map (room_offers h') (MakeReservation.Hotels m')
             = flat_map (room_offers h) (MakeReservation.Hotels m)
          /\ no_leak h h' m' ∅).
Proof.
  intros h b m ss fi fuel fl ro (it & r & Hit & Hres & Hown & Hb).
  split; intros Hc.
  - destruct (reservingFlight_aborts h r m fl Hb Hc) as (h1 & Erun).
    destruct (reservingFlight_spec h r m fl None h1 Hb Erun)
      as (pi & cf & Hb1 & Ef & Er & Hpi1 & Hframe & Hdom).
    exists h1.
    exists (MakeReservation.mk_members (MakeReservation.Airports m)
              (MakeReservation.Hotels m) (Some pi)
              (MakeReservation.customer_info m) (Some cf)
              (MakeReservation.chosen_room m)).
    split.
    { unfold ItineraryBuilder.addFlight. rewrite Hres. mred. rewrite Erun.
      reflexivity. }
    split. { exists it, r. split; [exact Hit|]. split; [exact Hres|].
             split; [exact (owns_kept_by_flight h h1 r m it _ fi Hb Hframe Hown)
                   |exact Hb1]. }
    split; [exact Ef|]. split; [exact Er|].
    intros l Hl. simpl.
    assert (l = pi \/ l = cf \/ l ∈ dom h) as [->|[->|?]]
      by (clear - Hdom Hl; set_solver); auto 10.
  - destruct (reservingRoom_aborts h r m ro Hb Hc) as (h1 & Erun).
    destruct (reservingRoom_spec h r m ro None h1 Hb Erun)
      as (ci & cr & Hb1 & Ef & Er & Hci1 & Hframe & Hdom).
    exists h1.
    exists (MakeReservation.mk_members (MakeReservation.Airports m)
              (MakeReservation.Hotels m) (MakeReservation.passenger_info m)
              (Some ci) (MakeReservation.chosen_flight m) (Some cr)).
    split.
    { unfold ItineraryBuilder.addHotel. rewrite Hres. mred. rewrite Erun.
      reflexivity. }
    split. { exists it, r. split; [exact Hit|]. split; [exact Hres|].
             split; [exact (owns_kept_by_room h h1 r m it _ fi Hb Hframe Hown)
                   |exact Hb1]. }
    split; [exact Ef|]. split; [exact Er|].
    intros l Hl. simpl.
    assert (l = ci \/ l = cr \/ l ∈ dom h) as [->|[->|?]]
      by (clear - Hdom Hl; set_solver); auto 10.
Qed.

Lemma add_turned_down_changes_nothing_witness :
  (exists h' m',
     ItineraryBuilder.addFlight 1 trip_builder typed_no_flight trip_store
     = Val (tt, h')
     /\ itinerary_builder h' trip_builder m' [] ({[20%positive]} ∪ ∅)
     /\ flat_map (flight_offers h') (MakeReservation.Airports m')
        = flat_map (flight_offers trip_store)
            (MakeReservation.Airports trip_members)
     /\ flat_map (room_offers h') (MakeReservation.Hotels m')
        = flat_map (room_offers trip_store)
            (MakeReservation.Hotels trip_members)
     /\ no_leak trip_store h' m' ∅)
  /\ (exists h' m',
        ItineraryBuilder.addHotel 1 trip_builder typed_no_room trip_store
        = Val (tt, h')
        /\ itinerary_builder h' trip_builder m' [] ({[20%positive]} ∪ ∅)
        /\ flat_map (flight_offers h') (MakeReservation.Airports m')
           = flat_map (flight_offers trip_store)
               (MakeReservation.Airports trip_members)
        /\ flat_map (room_offers h') (MakeReservation.Hotels m')
           = flat_map (room_offers trip_store)
               (MakeReservation.Hotels trip_members)
        /\ no_leak trip_store h' m' ∅).
Proof.
  destruct (add_turned_down_changes_nothing trip_store trip_builder
              trip_members [] _ 1 typed_no_flight typed_no_room
              trip_store_builder) as [Hf Hr].
  split; [apply Hf; left; reflexivity|apply Hr; right; reflexivity].
Defined.

(** X17. [ItineraryBuilder()], on any store: the builder is well-formed,
    with an empty Itinerary, for which [checkItinerary()] is true, and a
    MakeReservation whose merged lists hold the offers of Canada then
    Turkish and of Hilton then Marriott. No cell in use is changed. *)
Theorem ItineraryBuilder_ctor_ok :
  forall h : heap,
    exists b h' m fi,
      ItineraryBuilder.ctor h = Val (b, h')
      /\ itinerary_builder h' b m [] fi
      /\ ItineraryBuilder.checkItinerary b h' = Val true
      /\ flat_map (flight_offers h') (MakeReservation.Airports m)
         = map CanadaFlightReservation.tag AirCanadaOnlineAPI.getFlights
           ++ map TurkishFlightReservation.tag
                TurkishAirlineOnlineAPI.getAvailableFlights
      /\ flat_map (room_offers h') (MakeReservation.Hotels m)
         = map HiltonHotelReservation.tag
             (HiltonHotelAPI.searchRooms HiltonCustomerInfo.default)
           ++ map MarriottHotelReservation.tag
                (MarriottHotelAPI.findRooms MarriottCustomerInfo.default)
      /\ h ⊆ h'.
Proof.
  intros h. unfold ItineraryBuilder.ctor, Itinerary.ctor. mred.
  alloc i Hi. unfold store at 1. mrun. rewrite insert_insert_eq.
  alloc r Hr.
  set (h1 := <[r := OMakeReservation [] [] None None None None]>
               (<[i := OItinerary []]> h)).
  destruct (MakeReservation_ctor_spec h1 r _ ltac:(apply lookup_insert_eq))
    as (h2 & c & t & hi & ma & f1 & f2 & f3 & f4 & E & Hb & Ef & Er & _ & _
        & _ & _ & _ & Hkeep).
  mred. rewrite E. mred.
  assert (h2 !! i = Some (OItinerary [])) as Hi2.
  { rewrite Hkeep; unfold h1; [|congruence|rewrite !dom_insert_L; set_solver].
    lookups. reflexivity. }
  eexists. exists h2. eexists. exists ({[i]} ∪ ∅).
  split; [reflexivity|].
  split.
  { exists i, r. split; [reflexivity|]. split; [reflexivity|].
    split; [|exact Hb].
    apply owns_itinerary with (ps := []); [exact Hi2|constructor|set_solver]. }
  split.
  { unfold ItineraryBuilder.checkItinerary, Itinerary.isEmpty,
      Itinerary.Reservations. simpl. rewrite Hi2. reflexivity. }
  split; [exact Ef|]. split; [exact Er|].
  apply map_subseteq_spec. intros l o Hl.
  assert (l <> i) by congruence.
  assert (l <> r) by congruence.
  rewrite Hkeep; auto.
  - unfold h1. lookups. reflexivity.
  - unfold h1. rewrite !dom_insert_L.
    apply (elem_of_dom_2 (D := gset loc)) in Hl. clear - Hl. set_solver.
Qed.

(** X21. [clearItinerary()] on a well-formed ItineraryBuilder: the elements
    of the Itinerary are destroyed and their cells released; the Itinerary
    is empty and [checkItinerary()] is true; no other cell is touched. *)
Theorem clearItinerary_then_check :
  forall (h : heap) (b : ItineraryBuilder.t) (m : MakeReservation.members_t)
         (ss : list state) (fi : gset loc),
    itinerary_builder h b m ss fi ->
    exists n0 : nat, forall fuel : nat, (n0 <= fuel)%nat ->
      exists h' itinerary,
        ItineraryBuilder.clearItinerary fuel b h = Val (tt, h')
        /\ ItineraryBuilder.getItinerary b = Some itinerary
        /\ owns h' itinerary (SItinerary []) ({[itinerary]} ∪ ∅)
        /\ ItineraryBuilder.checkItinerary b h' = Val true
        /\ ItineraryBuilder.checkItinerary b h
           = Val (match ss with [] => true | _ => false end)
        /\ (forall l, l ∈ fi -> l <> itinerary -> h' !! l = None)
        /\ (forall l, l ∉ fi -> h' !! l = h !! l).
Proof.
  intros h b m ss fi (it & r & Hit & Hres & Hown & Hb).
  exists (depth (SItinerary ss)). intros fuel Hf.
  inversion Hown as [| | | |? ps ? fps Hp Hl Hn]; subst.
  destruct (destroy_each_owns (Reservation.destroy fuel) ps ss h fps Hl
              (destroy_all fuel ss Hf)) as (h1 & E & Hout & Hin).
  unfold ItineraryBuilder.clearItinerary, ItineraryBuilder.checkItinerary,
    ItineraryBuilder.getItinerary. rewrite Hit.
  unfold Itinerary.clear, Itinerary.Reservations. mrun. rewrite E.
  unfold store. mred. rewrite (Hout it Hn), Hp.
  eexists. exists it. split; [reflexivity|]. split; [reflexivity|].
  split. { apply owns_itinerary with (ps := []).
           - apply lookup_insert_eq.
           - constructor.
           - set_solver. }
  split. { unfold Itinerary.isEmpty, Itinerary.Reservations.
           rewrite lookup_insert_eq. reflexivity. }
  split. { unfold Itinerary.isEmpty, Itinerary.Reservations. rewrite Hp.
           simpl. inversion Hl; reflexivity. }
  split.
  - intros l Hl1 Hl2. rewrite lookup_insert_ne by auto. apply Hin.
    clear - Hl1 Hl2. set_solver.
  - intros l Hl1. rewrite lookup_insert_ne by (clear - Hl1; set_solver).
    apply Hout. clear - Hl1. set_solver.
Qed.

Lemma clearItinerary_then_check_witness :
  exists n0 : nat, forall fuel : nat, (n0 <= fuel)%nat ->
    exists h' itinerary,
      ItineraryBuilder.clearItinerary fuel trip_builder trip_store
      = Val (tt, h')
      /\ ItineraryBuilder.getItinerary trip_builder = Some itinerary
      /\ owns h' itinerary (SItinerary []) ({[itinerary]} ∪ ∅)
      /\ ItineraryBuilder.checkItinerary trip_builder h' = Val true
      /\ ItineraryBuilder.checkItinerary trip_builder trip_store = Val true
      /\ (forall l, l ∈ ({[20%positive]} ∪ ∅ : gset loc) ->
                    l <> itinerary -> h' !! l = None)
      /\ (forall l, l ∉ ({[20%positive]} ∪ ∅ : gset loc) ->
                    h' !! l = trip_store !! l).
Proof.
  exact (clearItinerary_then_check trip_store trip_builder trip_members [] _
           trip_store_builder).
Defined.

(** X14. The constructor of MakeReservation, on any store: the builder is
    well-formed, with its four working records null; a Canada and a Turkish
    adapter are registered as airports and a Hilton and a Marriott adapter
    as hotels, in this order, each well-formed with default-valued records,
    in cells that were not in use; the merged offers are those of Canada
    then Turkish, and those of Hilton then Marriott. No cell in use is
    changed but the storage of the builder. *)
Theorem MakeReservation_ctor_registers :
  forall (h : heap) (this : loc) (o : obj),
    h !! this = Some o ->
    exists h' canada turkish hilton marriott f1 f2 f3 f4,
      MakeReservation.ctor this h = Val (tt, h')
      /\ builder h' this
           (MakeReservation.mk_members [Some canada; Some turkish]
              [Some hilton; Some marriott] None None None None)
      /\ flat_map (flight_offers h') [Some canada; Some turkish]
         = map CanadaFlightReservation.tag AirCanadaOnlineAPI.getFlights
           ++ map TurkishFlightReservation.tag
                TurkishAirlineOnlineAPI.getAvailableFlights
      /\ flat_map (room_offers h') [Some hilton; Some marriott]
         = map HiltonHotelReservation.tag
             (HiltonHotelAPI.searchRooms HiltonCustomerInfo.default)
           ++ map MarriottHotelReservation.tag
                (MarriottHotelAPI.findRooms MarriottCustomerInfo.default)
      /\ owns h' canada
           (SCanada AirCanadaCustomerInfo.default AirCanadaFlight.default) f1
      /\ owns h' turkish
           (STurkish TurkishCustomerInfo.default TurkishFlight.default) f2
      /\ owns h' hilton
           (SHilton HiltonCustomerInfo.default HiltonRoom.default) f3
      /\ owns h' marriott
           (SMarriott MarriottCustomerInfo.default MarriottFoundRoom.default)
           f4
      /\ dom h' = dom h ∪ f1 ∪ f2 ∪ f3 ∪ f4
      /\ (forall l, l <> this -> l ∈ dom h -> h' !! l = h !! l).
Proof.
  intros h this o Hthis. exact (MakeReservation_ctor_spec h this o Hthis).
Qed.

Lemma MakeReservation_ctor_registers_witness :
  exists h' canada turkish hilton marriott f1 f2 f3 f4,
    MakeReservation.ctor 1%positive raw_builder_store = Val (tt, h')
    /\ builder h' 1%positive
         (MakeReservation.mk_members [Some canada; Some turkish]
            [Some hilton; Some marriott] None None None None)
    /\ flat_map (flight_offers h') [Some canada; Some turkish]
       = map CanadaFlightReservation.tag AirCanadaOnlineAPI.getFlights
         ++ map TurkishFlightReservation.tag
              TurkishAirlineOnlineAPI.getAvailableFlights
    /\ flat_map (room_offers h') [Some hilton; Some marriott]
       = map HiltonHotelReservation.tag
           (HiltonHotelAPI.searchRooms HiltonCustomerInfo.default)
         ++ map MarriottHotelReservation.tag
              (MarriottHotelAPI.findRooms MarriottCustomerInfo.default)
    /\ owns h' canada
         (SCanada AirCanadaCustomerInfo.default AirCanadaFlight.default) f1
    /\ owns h' turkish
         (STurkish TurkishCustomerInfo.default TurkishFlight.default) f2
    /\ owns h' hilton
         (SHilton HiltonCustomerInfo.default HiltonRoom.default) f3
    /\ owns h' marriott
         (SMarriott MarriottCustomerInfo.default MarriottFoundRoom.default)
         f4
    /\ dom h' = dom raw_builder_store ∪ f1 ∪ f2 ∪ f3 ∪ f4
    /\ (forall l, l <> 1%positive -> l ∈ dom raw_builder_store ->
                  h' !! l = raw_builder_store !! l).
Proof.
  exact (MakeReservation_ctor_registers raw_builder_store 1%positive
           (OMakeReservation [] [] None None None None) eq_refl).
Defined.





(** * Users *)

Lemma Itinerary_clone_exact (vclone : loc -> M loc) (ss : list state) :
  Forall (clone_exact vclone) ss ->
  clone_exact (Itinerary.clone vclone) (SItinerary ss).
Proof.
  intros Hok h p fp Ho.
  inversion Ho as [| | | |? ps ? fps Hp Hl Hn]; subst.
  unfold Itinerary.clone, Itinerary.copy_ctor, Itinerary.ctor. mred.
  alloc q Hq. unfold store, Itinerary.Reservations. mrun.
  rewrite insert_insert_eq.
  set (h1 := <[q := OItinerary []]> h).
  assert (h ⊆ h1) as Hsub by (apply insert_subseteq; auto).
  assert (q ∉ dom h) as Hqd by (apply not_elem_of_dom; auto).
  destruct (addReservations_exact vclone ps ss h1 q [] [] ∅)
    as (h2 & cs & fcs & E & Hq2 & Hl2 & Hfcs & Hkeep & Hd2).
  - unfold h1. lookups. reflexivity.
  - constructor.
  - set_solver.
  - eapply Forall2_impl; [apply (owns_list_elements h ps ss fps Hl)|].
    intros r t (f & Hr & Hf). exists f. split.
    + eapply owns_weaken; eauto.
    + intros Hin. apply Hqd. apply elem_of_dom.
      eapply owns_dom_mut; eauto.
  - exact Hok.
  - rewrite E. mred. simpl in Hq2, Hl2.
    assert (dom h1 = {[q]} ∪ dom h) as Hd1 by (unfold h1; apply dom_insert_L).
    exists q, h2, ({[q]} ∪ fcs). split; [reflexivity|].
    split; [|split; [|split]].
    + apply map_subseteq_spec. intros l o Hlo. apply Hkeep.
      * eapply lookup_weaken; eauto.
      * intros ->. congruence.
    + replace (∅ ∪ fcs) with fcs in Hl2 by set_solver.
      apply owns_itinerary with (ps := cs); auto. set_solver.
    + set_solver.
    + rewrite Hd2, Hd1. clear. set_solver.
Qed.

Lemma elements_clone_exact (fuel : nat) (ss : list state) :
  (depth (SItinerary ss) < fuel)%nat ->
  Forall (clone_exact (Reservation.clone fuel)) ss.
Proof.
  intros Hd. apply List.Forall_forall. intros t Hin.
  apply clone_exact_owns. pose proof (depth_element t ss Hin). lia.
Qed.

(** On an Itinerary, [dynamicCast] is a copy of it, and the pointer given
    comes back null. *)
Lemma dynamicCast_itinerary (fuel : nat) (h : heap) (c : loc) rs :
  h !! c = Some (OItinerary rs) ->
  User.dynamicCast fuel (Some c) h
  = (let? r := Itinerary.clone (Reservation.clone fuel) c h in
     Val ((Some (fst r), None), snd r)).
Proof.
  intros Hc. unfold User.dynamicCast, Itinerary.clone, load. mrun.
  destruct (new (OItinerary []) h) as [[q h1]| |]; cbn [rbind fst snd]; auto.
  destruct (Itinerary.copy_ctor (Reservation.clone fuel) q c h1)
    as [[[] h2]| |]; cbn [rbind fst snd]; auto.
Qed.

Lemma addItinerary_spec (fuel : nat) (u : User.t) (h : heap) (l : loc)
  (ss : list state) (fp : gset loc) :
  owns h l (SItinerary ss) fp ->
  (depth (SItinerary ss) < fuel)%nat ->
  exists q c fq fc h',
    User.addItinerary fuel u (Some l) h
    = Val (User.mk (User.username u) (User.password u) (User.email u)
             (User.Itineraries u ++ [Some q]), h')
    /\ h ⊆ h'
    /\ owns h' q (SItinerary ss) fq
    /\ owns h' c (SItinerary ss) fc
    /\ fq ## dom h /\ fc ## dom h /\ fq ## fc
    /\ dom h' = dom h ∪ fc ∪ fq.
Proof.
  intros Ho Hd.
  destruct (clone_exact_owns fuel (SItinerary ss) Hd h l fp Ho)
    as (c & h1 & fc & E1 & Hsub1 & Hc & Hfc & Hd1).
  destruct (Itinerary_clone_exact (Reservation.clone fuel) ss
              (elements_clone_exact fuel ss Hd) h1 c fc Hc)
    as (q & h2 & fq & E2 & Hsub2 & Hq & Hfq & Hd2).
  exists q, c, fq, fc, h2.
  unfold User.addItinerary. mred. rewrite E1. mred.
  inversion Hc as [| | | |? ps ? fps Hpc Hlc Hnc]; subst.
  rewrite (dynamicCast_itinerary fuel h1 c _ Hpc), E2. mred.
  split; [reflexivity|].
  split; [etransitivity; eauto|].
  split; [exact Hq|].
  split; [eapply owns_weaken; eauto|].
  assert (dom h ⊆ dom h1) as Hs by (apply subseteq_dom; auto).
  split; [clear - Hfq Hs; set_solver|].
  split; [exact Hfc|].
  split; [rewrite Hd1 in Hfq; clear - Hfq; set_solver|].
  rewrite Hd2, Hd1. reflexivity.
Qed.

(** X22. [addItinerary] on a well-formed Itinerary makes two copies of it,
    both in the state of the original and both out of cells that were not in
    use: one is appended to [Itineraries]; the other, the result of
    [clone()] that [dynamicCast] releases, stays in the store, apart from
    the first and from every cell that was in use, and no pointer to it is
    returned. No cell in use changes, and the store grows by exactly these
    two copies. *)
Theorem addItinerary_stores_a_copy_and_leaks_one :
  forall (fuel : nat) (u : User.t) (h : heap) (l : loc) (ss : list state)
         (fp : gset loc),
    owns h l (SItinerary ss) fp ->
    (depth (SItinerary ss) < fuel)%nat ->
    exists q c fq fc h',
      User.addItinerary fuel u (Some l) h
      = Val (User.mk (User.username u) (User.password u) (User.email u)
               (User.Itineraries u ++ [Some q]), h')
      /\ h ⊆ h'
      /\ owns h' q (SItinerary ss) fq
      /\ owns h' c (SItinerary ss) fc
      /\ fq ## dom h /\ fc ## dom h /\ fq ## fc
      /\ dom h' = dom h ∪ fc ∪ fq.
Proof. intros. eapply addItinerary_spec; eauto. Qed.

Lemma addItinerary_stores_a_copy_and_leaks_one_witness :
  exists q c fq fc h',
    User.addItinerary 3 (User.ctor "amina" "pass" "amina@mail.com")
      (Some 8%positive) example_store
    = Val (User.mk "amina" "pass" "amina@mail.com" ([] ++ [Some q]), h')
    /\ example_store ⊆ h'
    /\ owns h' q (SItinerary [example_turkish]) fq
    /\ owns h' c (SItinerary [example_turkish]) fc
    /\ fq ## dom example_store /\ fc ## dom example_store /\ fq ## fc
    /\ dom h' = dom example_store ∪ fc ∪ fq.
Proof.
  apply (addItinerary_stores_a_copy_and_leaks_one 3
           (User.ctor "amina" "pass" "amina@mail.com") example_store
           8%positive [example_turkish] _ example_owns_itinerary).
  simpl. lia.
Defined.

Lemma remove_nullptr_none (v : list ptr) :
  Forall (fun p => p <> None) v -> User.remove_nullptr v = v.
Proof.
  induction 1 as [|p v Hp _ IH]; [reflexivity|].
  unfold User.remove_nullptr in *. simpl. destruct p; [|congruence].
  rewrite IH. reflexivity.
Qed.

(** X23. [removeItinerary] on a well-formed Itinerary of the caller deletes
    it, with every cell it owns and no other, and leaves the pointer null.
    The Itineraries of the User, none of them null, stay as they are: nothing
    is removed from the User. *)
Theorem removeItinerary_removes_nothing :
  forall (fuel : nat) (u : User.t) (h : heap) (l : loc) (s : state)
         (fp : gset loc),
    owns h l s fp ->
    (depth s < fuel)%nat ->
    Forall (fun p => p <> None) (User.Itineraries u) ->
    exists h',
      User.removeItinerary fuel u (Some l) h = Val ((u, None), h')
      /\ (forall k, k ∉ fp -> h' !! k = h !! k)
      /\ (forall k, k ∈ fp -> h' !! k = None).
Proof.
  intros fuel u h l s fp Ho Hd Hnn.
  destruct (destroy_owns fuel s Hd h l fp Ho) as (h' & E & Hout & Hin).
  exists h'. unfold User.removeItinerary. mred. rewrite E. mred.
  rewrite (remove_nullptr_none _ Hnn). destruct u. auto.
Qed.

Lemma removeItinerary_removes_nothing_witness :
  exists h',
    User.removeItinerary 3
      (User.mk "amina" "pass" "amina@mail.com" [Some 15%positive])
      (Some 8%positive) example_store
    = Val ((User.mk "amina" "pass" "amina@mail.com" [Some 15%positive],
            None), h')
    /\ (forall k,
          k ∉ {[8%positive]}
              ∪ ({[9%positive; 10%positive; 11%positive]} ∪ (∅ : gset loc)) ->
          h' !! k = example_store !! k)
    /\ (forall k,
          k ∈ {[8%positive]}
              ∪ ({[9%positive; 10%positive; 11%positive]} ∪ (∅ : gset loc)) ->
          h' !! k = None).
Proof.
  apply (removeItinerary_removes_nothing 3
           (User.mk "amina" "pass" "amina@mail.com" [Some 15%positive])
           example_store 8%positive (SItinerary [example_turkish]) _
           example_owns_itinerary).
  - simpl. lia.
  - repeat constructor. congruence.
Defined.

Lemma view_each_owns (fuel : nat) (h : heap) :
  forall (ls : list loc) (ss : list state) (total : double),
    Forall2 (fun l s => exists fp, owns h l s fp) ls ss ->
    Forall (fun s => (depth s < fuel)%nat) ss ->
    User.view_each fuel (Some <$> ls) total h
    = Val (flat_map (fun s => User.to_std_cout (details_of s)) ss,
           fold_left (fun t s => (t + cost_of s)%float) ss total).
Proof.
  induction ls as [|l ls IH]; intros ss total Hown Hd.
  - inversion Hown; subst. reflexivity.
  - inversion Hown as [|? s ? ss' (fp & Ho) Hrest]; subst.
    inversion Hd as [|? ? Hs Hss]; subst.
    rewrite fmap_cons. cbn [User.view_each].
    rewrite (getDetails_owns fuel h l s fp Ho Hs). cbn [rbind].
    rewrite (getCost_owns fuel h l s fp Ho Hs). cbn [rbind].
    rewrite (IH ss' (total + cost_of s)%float Hrest Hss). reflexivity.
Qed.

(** X24. [viewMyItineraries] on a User whose Itineraries are well-formed
    reservations writes, on [std::cout] only, the details of each in order
    and then the total: the costs added one by one, from left to right, to a
    [double] that starts at zero. *)
Theorem viewMyItineraries_prints_each_and_the_total :
  forall (fuel : nat) (u : User.t) (h : heap) (ls : list loc)
         (ss : list state),
    User.Itineraries u = Some <$> ls ->
    Forall2 (fun l s => exists fp, owns h l s fp) ls ss ->
    Forall (fun s => (depth s < fuel)%nat) ss ->
    User.viewMyItineraries fuel u h
    = Val (flat_map (fun s => User.to_std_cout (details_of s)) ss
           ++ User.cout
                [ Str (LF ++ "Total Cost for All Itineraries: ");
                  Dbl (fold_left (fun t s => (t + cost_of s)%float) ss
                         0%float);
                  Str (LF ++ LF) ]).
Proof.
  intros fuel u h ls ss Hu Hown Hd. unfold User.viewMyItineraries.
  rewrite Hu, (view_each_owns fuel h ls ss _ Hown Hd). reflexivity.
Qed.

Lemma viewMyItineraries_prints_each_and_the_total_witness :
  User.viewMyItineraries 3
    (User.mk "amina" "pass" "amina@mail.com"
       [Some 8%positive; Some 15%positive]) example_store
  = Val (flat_map (fun s => User.to_std_cout (details_of s))
           [SItinerary [example_turkish]; SItinerary [example_marriott]]
         ++ User.cout
              [ Str (LF ++ "Total Cost for All Itineraries: ");
                Dbl (fold_left (fun t s => (t + cost_of s)%float)
                       [SItinerary [example_turkish];
                        SItinerary [example_marriott]] 0%float);
                Str (LF ++ LF) ]).
Proof.
  apply (viewMyItineraries_prints_each_and_the_total 3
           (User.mk "amina" "pass" "amina@mail.com"
              [Some 8%positive; Some 15%positive]) example_store
           [8%positive; 15%positive]).
  - reflexivity.
  - constructor; [eexists; exact example_owns_itinerary|].
    constructor; [eexists; exact example_owns_itinerary15|]. constructor.
  - repeat constructor; simpl; lia.
Defined.

(** * The user manager *)

Lemma example_registered :
  registered example_users example_manager [amina; omar; karim].
Proof.
  repeat constructor; eexists; (split; [reflexivity|reflexivity]).
Defined.

Lemma example_distinct : accounts_distinct [amina; omar; karim].
Proof.
  split; simpl; repeat (apply NoDup_cons; split; [set_solver|]);
    apply NoDup_nil; exact I.
Defined.

Lemma existence_registered (get : User.t -> string)
  (us : UserManager.users) (Users : list ptr) (accounts : list User.t)
  (wanted : string) :
  Forall2 (fun p u => exists l, p = Some l /\ us !! l = Some u)
    Users accounts ->
  UserManager.existence get us Users wanted
  = Val (bool_decide (wanted ∈ get <$> accounts)).
Proof.
  induction 1 as [|p u Users accounts (l & -> & Hl) _ IH].
  - reflexivity.
  - cbn [UserManager.existence]. rewrite Hl, fmap_cons.
    destruct (String.eqb_spec wanted (get u)) as [E|N].
    + rewrite bool_decide_eq_true_2; [reflexivity|]. rewrite E. left.
    + rewrite IH. f_equal. apply bool_decide_ext.
      rewrite elem_of_cons. tauto.
Qed.

Lemma checkUsernameExistence_registered (this : UserManager.t)
  (us : UserManager.users) (accounts : list User.t) (wanted : string) :
  registered us this accounts ->
  UserManager.checkUsernameExistence this us wanted
  = Val (bool_decide (wanted ∈ User.username <$> accounts)).
Proof.
  intros Hreg. unfold UserManager.checkUsernameExistence.
  rewrite (existence_registered _ us _ accounts _ Hreg). reflexivity.
Qed.

Lemma checkUserEmailExistence_registered (this : UserManager.t)
  (us : UserManager.users) (accounts : list User.t) (wanted : string) :
  registered us this accounts ->
  UserManager.checkUserEmailExistence this us wanted
  = Val (bool_decide (wanted ∈ User.email <$> accounts)).
Proof.
  intros Hreg. unfold UserManager.checkUserEmailExistence.
  rewrite (existence_registered _ us _ accounts _ Hreg). reflexivity.
Qed.

Lemma cin_word_nth (cin : list string) :
  UserManager.cin_word EmptyString cin = (nth 0 cin EmptyString, skipn 1 cin).
Proof. destruct cin; reflexivity. Qed.

Lemma three_words (cin : list string) :
  let r1 := UserManager.cin_word EmptyString cin in
  let r2 := UserManager.cin_word EmptyString (snd r1) in
  let r3 := UserManager.cin_word EmptyString (snd r2) in
  fst r1 = nth 0 cin EmptyString /\ fst r2 = nth 1 cin EmptyString
  /\ fst r3 = nth 2 cin EmptyString /\ snd r3 = skipn 3 cin.
Proof. destruct cin as [|a [|b [|c r]]]; simpl; auto. Qed.

Lemma signUpUser_spec (this : UserManager.t) (us : UserManager.users)
  (accounts : list User.t) (cin : list string) :
  registered us this accounts ->
  UserManager.signUpUser this us cin
  = Val (if bool_decide (nth 0 cin EmptyString ∈ User.username <$> accounts)
            || bool_decide (nth 2 cin EmptyString ∈ User.email <$> accounts)
         then (this, us, skipn 3 cin, signUp_prompts)
         else (UserManager.mk (UserManager.logged_user this)
                 (UserManager.Users this ++ [Some (fresh (dom us))]),
               <[fresh (dom us) :=
                   User.ctor (nth 0 cin EmptyString) (nth 1 cin EmptyString)
                     (nth 2 cin EmptyString)]> us,
               skipn 3 cin, signUp_prompts)).
Proof.
  intros Hreg. unfold UserManager.signUpUser.
  destruct (three_words cin) as (-> & -> & -> & ->).
  rewrite (checkUsernameExistence_registered this us accounts _ Hreg).
  cbn [rbind].
  destruct (bool_decide (nth 0 cin EmptyString ∈ User.username <$> accounts));
    cbn [rbind orb]; [reflexivity|].
  rewrite (checkUserEmailExistence_registered this us accounts _ Hreg).
  cbn [rbind].
  destruct (bool_decide (nth 2 cin EmptyString ∈ User.email <$> accounts));
    reflexivity.
Qed.

Lemma registered_grows (us : UserManager.users) (this : UserManager.t)
  (accounts : list User.t) (u : User.t) :
  registered us this accounts ->
  registered (<[fresh (dom us) := u]> us)
    (UserManager.mk (UserManager.logged_user this)
       (UserManager.Users this ++ [Some (fresh (dom us))]))
    (accounts ++ [u]).
Proof.
  intros Hreg. unfold registered in *. simpl.
  assert (us !! fresh (dom us) = None) as Hf
    by (apply not_elem_of_dom, is_fresh).
  apply Forall2_app.
  - eapply Forall2_impl; [exact Hreg|]. intros p a (l & -> & Hl).
    exists l. split; [reflexivity|].
    rewrite lookup_insert_ne by congruence. exact Hl.
  - constructor; [|constructor]. eexists. split; [reflexivity|].
    apply lookup_insert_eq.
Qed.

(** X25. [signUpUser] on registered accounts reads three words, a name, a
    password and an e-mail address (an empty string for a word the input
    does not have), and writes its three prompts. When the name or the
    address is that of an account, the manager and the users stay as they
    are; when both are free, a User made of the three words, with no
    Itinerary, is registered after the others, which are kept. The logged
    user does not change. *)
Theorem signUpUser_registers_free_credentials_only :
  forall (this : UserManager.t) (us : UserManager.users)
         (accounts : list User.t) (cin : list string),
    registered us this accounts ->
    let name := nth 0 cin EmptyString in
    let pass := nth 1 cin EmptyString in
    let email := nth 2 cin EmptyString in
    exists this' us',
      UserManager.signUpUser this us cin
      = Val (this', us', skipn 3 cin, signUp_prompts)
      /\ UserManager.logged_user this' = UserManager.logged_user this
      /\ (name ∈ User.username <$> accounts
          \/ email ∈ User.email <$> accounts ->
          this' = this /\ us' = us)
      /\ (name ∉ User.username <$> accounts ->
          email ∉ User.email <$> accounts ->
          registered us' this' (accounts ++ [User.mk name pass email []])
          /\ us ⊆ us').
Proof.
  intros this us accounts cin Hreg name pass email.
  rewrite (signUpUser_spec this us accounts cin Hreg).
  fold name pass email.
  destruct (bool_decide (name ∈ User.username <$> accounts)) eqn:E1;
    [|destruct (bool_decide (email ∈ User.email <$> accounts)) eqn:E2];
    cbn [orb].
  - apply bool_decide_eq_true_1 in E1.
    exists this, us. repeat split; auto; intros; contradiction.
  - apply bool_decide_eq_true_1 in E2.
    exists this, us. repeat split; auto; intros; contradiction.
  - apply bool_decide_eq_false_1 in E1. apply bool_decide_eq_false_1 in E2.
    eexists; eexists. split; [reflexivity|]. split; [reflexivity|].
    split; [intros [?|?]; contradiction|]. intros _ _. split.
    + apply registered_grows; auto.
    + apply insert_subseteq. apply not_elem_of_dom, is_fresh.
Qed.

Lemma signUpUser_registers_free_credentials_only_witness :
  exists this' us',
    UserManager.signUpUser example_manager example_users
      ["salma"%string; "pass4"%string; "omar@mail.com"%string; "next"%string]
    = Val (this', us', ["next"%string], signUp_prompts)
    /\ UserManager.logged_user this' = None
    /\ ("salma"%string ∈ User.username <$> [amina; omar; karim]
        \/ "omar@mail.com"%string ∈ User.email <$> [amina; omar; karim] ->
        this' = example_manager /\ us' = example_users)
    /\ ("salma"%string ∉ User.username <$> [amina; omar; karim] ->
        "omar@mail.com"%string ∉ User.email <$> [amina; omar; karim] ->
        registered us' this'
          ([amina; omar; karim]
           ++ [User.mk "salma" "pass4" "omar@mail.com" []])
        /\ example_users ⊆ us').
Proof.
  exact (signUpUser_registers_free_credentials_only example_manager
           example_users [amina; omar; karim]
           ["salma"%string; "pass4"%string; "omar@mail.com"%string; "next"%string] example_registered).
Defined.

(** X26. [signUpUser] keeps the accounts distinct: on registered accounts
    of which no two share a name and no two share an e-mail address, it
    returns, the accounts registered afterwards are the ones before followed
    by at most one new account, and still no two of them share a name or an
    address. *)
Theorem signUpUser_keeps_accounts_distinct :
  forall (this : UserManager.t) (us : UserManager.users)
         (accounts : list User.t) (cin : list string),
    registered us this accounts ->
    accounts_distinct accounts ->
    exists this' us' new,
      UserManager.signUpUser this us cin
      = Val (this', us', skipn 3 cin, signUp_prompts)
      /\ registered us' this' (accounts ++ new)
      /\ accounts_distinct (accounts ++ new)
      /\ (length new <= 1)%nat.
Proof.
  intros this us accounts cin Hreg [Hn He].
  rewrite (signUpUser_spec this us accounts cin Hreg).
  destruct (bool_decide (nth 0 cin EmptyString ∈ User.username <$> accounts))
    eqn:E1;
    [|destruct (bool_decide (nth 2 cin EmptyString ∈ User.email <$> accounts))
        eqn:E2]; cbn [orb].
  1-2: exists this, us, []; rewrite app_nil_r;
       split; [reflexivity|]; split; [exact Hreg|];
       split; [split; assumption|simpl; lia].
  apply bool_decide_eq_false_1 in E1. apply bool_decide_eq_false_1 in E2.
  eexists; eexists; eexists. split; [reflexivity|].
  split; [apply registered_grows; exact Hreg|].
  split; [|simpl; lia].
  split; rewrite fmap_app; apply NoDup_app; (split; [assumption|]);
    (split; [|apply NoDup_singleton]); intros x Hx Hin;
    apply list_elem_of_singleton in Hin; simpl in Hin; subst x; contradiction.
Qed.

Lemma signUpUser_keeps_accounts_distinct_witness :
  exists this' us' new,
    UserManager.signUpUser example_manager example_users
      ["salma"%string; "pass4"%string; "salma@mail.com"%string]
    = Val (this', us', skipn 3 ["salma"%string; "pass4"%string; "salma@mail.com"%string],
           signUp_prompts)
    /\ registered us' this' ([amina; omar; karim] ++ new)
    /\ accounts_distinct ([amina; omar; karim] ++ new)
    /\ (length new <= 1)%nat.
Proof.
  exact (signUpUser_keeps_accounts_distinct example_manager example_users
           [amina; omar; karim] ["salma"%string; "pass4"%string; "salma@mail.com"%string]
           example_registered example_distinct).
Defined.

(** No User of the name looked for: the loop changes nothing. *)
Lemma signIn_each_no_match (us : UserManager.users) (Users : list ptr)
  (accounts : list User.t) (user_input : string) (logged : ptr)
  (cin : list string) :
  Forall2 (fun p u => exists l, p = Some l /\ us !! l = Some u)
    Users accounts ->
  user_input ∉ User.username <$> accounts ->
  UserManager.signIn_each us Users user_input logged cin
  = Val (logged, cin, []).
Proof.
  induction 1 as [|p u Users accounts (l & -> & Hl) _ IH]; intros Hno.
  - reflexivity.
  - cbn [UserManager.signIn_each]. rewrite Hl.
    rewrite fmap_cons in Hno. apply not_elem_of_cons in Hno as [Hne Hno].
    unfold User.getUsername.
    destruct (String.eqb_spec (User.username u) user_input) as [E|_];
      [congruence|]. apply IH. exact Hno.
Qed.

(** One User of the name typed: the word read next decides. *)
Lemma signIn_each_found (us : UserManager.users) (l : loc) (u : User.t)
  (word : string) (rest : list string) :
  forall (Users : list ptr) (accounts : list User.t) (logged : ptr),
    Forall2 (fun p u => exists l, p = Some l /\ us !! l = Some u)
      Users accounts ->
    NoDup (User.username <$> accounts) ->
    Some l ∈ Users ->
    us !! l = Some u ->
    (word = User.password u ->
     word = User.username u \/ word ∉ User.username <$> accounts) ->
    UserManager.signIn_each us Users (User.username u) logged (word :: rest)
    = Val (if String.eqb (User.password u) word then Some l else logged,
           rest, password_prompt).
Proof.
  intros Users accounts logged Hreg.
  induction Hreg as [|p u0 Users accounts (l0 & -> & Hl0) Hreg IH];
    intros Hnd Hin Hl Hlater.
  - inversion Hin.
  - rewrite fmap_cons in Hnd. apply NoDup_cons in Hnd as [Hfirst Hnd].
    cbn [UserManager.signIn_each]. rewrite Hl0.
    unfold User.getUsername, User.getPassword.
    assert (forall k v, Some k ∈ Users -> us !! k = Some v ->
              User.username v ∈ User.username <$> accounts) as Hmem.
    { intros k v Hk Hv. clear - Hreg Hk Hv.
      induction Hreg as [|p a Users accounts (k0 & -> & Hk0) _ IH].
      - inversion Hk.
      - rewrite fmap_cons. apply elem_of_cons in Hk as [E|Hk].
        + injection E as ->. assert (a = v) as -> by congruence. left.
        + right. auto. }
    destruct (String.eqb_spec (User.username u0) (User.username u)) as [E|N].
    + assert (l0 = l) as ->.
      { apply elem_of_cons in Hin as [Eq|Hin]; [congruence|].
        exfalso. apply Hfirst. rewrite E. eapply Hmem; eauto. }
      assert (u0 = u) as -> by congruence.
      cbn [UserManager.cin_word fst snd].
      destruct (String.eqb_spec (User.password u) word) as [Ep|Np];
        [|reflexivity].
      rewrite (signIn_each_no_match us Users accounts word (Some l) rest Hreg).
      * cbn [rbind fst snd]. rewrite app_nil_r. reflexivity.
      * destruct (Hlater (eq_sym Ep)) as [Eu|Hno].
        -- rewrite Eu. exact Hfirst.
        -- rewrite fmap_cons in Hno.
           apply not_elem_of_cons in Hno as [_ Hno]. exact Hno.
    + apply IH; auto.
      * apply elem_of_cons in Hin as [Eq|Hin]; [|exact Hin].
        exfalso. apply N. congruence.
      * intros Ew. destruct (Hlater Ew) as [Eu|Hno]; [left; exact Eu|].
        right. rewrite fmap_cons in Hno.
        apply not_elem_of_cons in Hno as [_ Hno]. exact Hno.
Qed.

(** X27. Signing in with the name of an account and its password: on
    registered accounts with distinct names, when the first two words of the
    input are the name and the password of the account at [l], and the
    password is not the name of another account, [signInUser] writes its two
    prompts, reads the two words and leaves [l] logged in. *)
Theorem signInUser_logs_in_with_the_password :
  forall (this : UserManager.t) (us : UserManager.users)
         (accounts : list User.t) (l : loc) (u : User.t)
         (rest : list string),
    registered us this accounts ->
    NoDup (User.username <$> accounts) ->
    Some l ∈ UserManager.Users this ->
    us !! l = Some u ->
    User.password u = User.username u
    \/ User.password u ∉ User.username <$> accounts ->
    UserManager.signInUser this us
      (User.username u :: User.password u :: rest)
    = Val (UserManager.mk (Some l) (UserManager.Users this), rest,
           name_prompt ++ password_prompt).
Proof.
  intros this us accounts l u rest Hreg Hnd Hin Hl Hlater.
  unfold UserManager.signInUser. cbn [UserManager.cin_word fst snd].
  rewrite (signIn_each_found us l u (User.password u) rest _ accounts _
             Hreg Hnd Hin Hl) by (intros _; exact Hlater).
  rewrite String.eqb_refl. reflexivity.
Qed.

Lemma signInUser_logs_in_with_the_password_witness :
  UserManager.signInUser example_manager example_users
    [User.username omar; User.password omar; "next"%string]
  = Val (UserManager.mk (Some 2%positive)
           (UserManager.Users example_manager), ["next"%string],
         name_prompt ++ password_prompt).
Proof.
  apply (signInUser_logs_in_with_the_password example_manager example_users
           [amina; omar; karim] 2%positive omar ["next"%string]
           example_registered (proj1 example_distinct)).
  - set_solver.
  - reflexivity.
  - right. set_solver.
Defined.

(** X28. Signing in with the name of an account and a word that is not its
    password, or with a name that no account has: on registered accounts
    with distinct names, [signInUser] leaves [logged_user] as it was, a User
    logged in before included. In the first case the two words are read and
    both prompts written, in the second only the name and its prompt. *)
Theorem signInUser_refuses_without_the_password :
  forall (this : UserManager.t) (us : UserManager.users)
         (accounts : list User.t) (name word : string)
         (rest : list string),
    registered us this accounts ->
    NoDup (User.username <$> accounts) ->
    (forall u, u ∈ accounts -> User.username u = name ->
               User.password u <> word) ->
    UserManager.signInUser this us (name :: word :: rest)
    = Val (this,
           if bool_decide (name ∈ User.username <$> accounts)
           then rest else word :: rest,
           if bool_decide (name ∈ User.username <$> accounts)
           then name_prompt ++ password_prompt else name_prompt).
Proof.
  intros this us accounts name word rest Hreg Hnd Hwrong.
  unfold UserManager.signInUser. cbn [UserManager.cin_word fst snd].
  destruct (bool_decide (name ∈ User.username <$> accounts)) eqn:E.
  - apply bool_decide_eq_true_1 in E.
    apply list_elem_of_fmap in E as (u & -> & Hu).
    assert (exists l, Some l ∈ UserManager.Users this /\ us !! l = Some u)
      as (l & Hin & Hl).
    { clear - Hreg Hu. unfold registered in Hreg.
      induction Hreg as [|p a Users accounts (k & -> & Hk) _ IH].
      - inversion Hu.
      - apply elem_of_cons in Hu as [->|Hu].
        + exists k. split; [left|exact Hk].
        + destruct (IH Hu) as (l & ? & ?). exists l. split; [right|]; auto. }
    rewrite (signIn_each_found us l u word rest _ accounts _
               Hreg Hnd Hin Hl).
    + destruct (String.eqb_spec (User.password u) word) as [Ep|_].
      * exfalso. exact (Hwrong u Hu eq_refl Ep).
      * cbn [rbind fst snd]. destruct this; reflexivity.
    + intros Ew. exfalso. exact (Hwrong u Hu eq_refl (eq_sym Ew)).
  - apply bool_decide_eq_false_1 in E.
    rewrite (signIn_each_no_match us _ accounts name _ _ Hreg E).
    cbn [rbind fst snd]. rewrite app_nil_r. destruct this; reflexivity.
Qed.

Lemma signInUser_refuses_without_the_password_witness :
  UserManager.signInUser
    (UserManager.mk (Some 1%positive) (UserManager.Users example_manager))
    example_users ["omar"%string; "guess"%string; "next"%string]
  = Val (UserManager.mk (Some 1%positive)
           (UserManager.Users example_manager),
         if bool_decide ("omar"%string
                         ∈ User.username <$> [amina; omar; karim])
         then ["next"%string] else ["guess"%string; "next"%string],
         if bool_decide ("omar"%string
                         ∈ User.username <$> [amina; omar; karim])
         then name_prompt ++ password_prompt else name_prompt).
Proof.
  apply (signInUser_refuses_without_the_password
           (UserManager.mk (Some 1%positive)
              (UserManager.Users example_manager))
           example_users [amina; omar; karim]).
  - exact example_registered.
  - exact (proj1 example_distinct).
  - intros u Hu. repeat (apply elem_of_cons in Hu as [->|Hu]);
      [discriminate|discriminate|discriminate|inversion Hu].
Defined.

Lemma signIn_each_sound (us : UserManager.users) :
  forall (Users : list ptr) (accounts : list User.t),
    Forall2 (fun p u => exists l, p = Some l /\ us !! l = Some u)
      Users accounts ->
    forall (user_input : string) (logged : ptr) (cin : list string),
    exists logged' cin' out,
      UserManager.signIn_each us Users user_input logged cin
      = Val (logged', cin', out)
      /\ (logged' = logged
          \/ exists l u, logged' = Some l /\ Some l ∈ Users
                         /\ us !! l = Some u
                         /\ User.password u ∈ user_input :: cin).
Proof.
  induction 1 as [|p u Users accounts (l & -> & Hl) _ IH];
    intros user_input logged cin.
  - exists logged, cin, []. split; [reflexivity|left; reflexivity].
  - cbn [UserManager.signIn_each]. rewrite Hl.
    unfold User.getUsername, User.getPassword.
    destruct (String.eqb_spec (User.username u) user_input) as [E|N].
    + set (r := UserManager.cin_word user_input cin).
      assert (r.1 ∈ user_input :: cin
              /\ forall x, x ∈ r.1 :: r.2 -> x ∈ user_input :: cin)
        as [Hword Hsub].
      { unfold r. destruct cin as [|w cin]; simpl.
        - split; [left|]. intros x Hx.
          apply elem_of_cons in Hx as [->|Hx]; [left|inversion Hx].
        - split; [right; left|]. intros x Hx. right. exact Hx. }
      destruct (String.eqb_spec (User.password u) r.1) as [Ep|Np].
      * destruct (IH r.1 (Some l) r.2) as (lg & c & o & Eq & Hlg).
        rewrite Eq. cbn [rbind fst snd].
        eexists; eexists; eexists. split; [reflexivity|]. right.
        destruct Hlg as [->|(k & v & -> & Hk & Hv & Hp)].
        -- exists l, u. repeat split; auto; [left|rewrite Ep; exact Hword].
        -- exists k, v. repeat split; auto. right. exact Hk.
      * eexists; eexists; eexists. split; [reflexivity|left; reflexivity].
    + destruct (IH user_input logged cin) as (lg & c & o & Eq & Hlg).
      exists lg, c, o. split; [exact Eq|].
      destruct Hlg as [->|(k & v & -> & Hk & Hv & Hp)]; [left; reflexivity|].
      right. exists k, v. repeat split; auto. right. exact Hk.
Qed.

(** X29. [signInUser] on registered accounts returns, with [Users] as it
    was, and logs in no one whose password was not typed: afterwards
    [logged_user] is what it was before, or a registered User whose password
    is one of the words of the input (the empty string when the input has no
    word). *)
Theorem signInUser_needs_a_typed_password :
  forall (this : UserManager.t) (us : UserManager.users)
         (accounts : list User.t) (cin : list string),
    registered us this accounts ->
    exists logged' cin' out,
      UserManager.signInUser this us cin
      = Val (UserManager.mk logged' (UserManager.Users this), cin', out)
      /\ (logged' = UserManager.logged_user this
          \/ exists l u, logged' = Some l
                         /\ Some l ∈ UserManager.Users this
                         /\ us !! l = Some u
                         /\ (User.password u ∈ cin
                             \/ cin = [] /\ User.password u = EmptyString)).
Proof.
  intros this us accounts cin Hreg. unfold UserManager.signInUser.
  destruct (signIn_each_sound us _ accounts Hreg
              (UserManager.cin_word EmptyString cin).1
              (UserManager.logged_user this)
              (UserManager.cin_word EmptyString cin).2)
    as (lg & c & o & Eq & Hlg).
  rewrite Eq. cbn [rbind fst snd].
  eexists; eexists; eexists. split; [reflexivity|].
  destruct Hlg as [->|(k & v & -> & Hk & Hv & Hp)]; [left; reflexivity|].
  right. exists k, v. repeat split; auto.
  destruct cin as [|w cin]; simpl in Hp.
  - right. split; [reflexivity|].
    apply elem_of_cons in Hp as [->|Hp]; [reflexivity|inversion Hp].
  - left. exact Hp.
Qed.

Lemma signInUser_needs_a_typed_password_witness :
  exists logged' cin' out,
    UserManager.signInUser example_manager example_users
      ["amina"%string; "karim"%string; "pass3"%string]
    = Val (UserManager.mk logged' (UserManager.Users example_manager),
           cin', out)
    /\ (logged' = UserManager.logged_user example_manager
        \/ exists l u, logged' = Some l
                       /\ Some l ∈ UserManager.Users example_manager
                       /\ example_users !! l = Some u
                       /\ (User.password u
                           ∈ ["amina"%string; "karim"%string; "pass3"%string]
                           \/ ["amina"%string; "karim"%string; "pass3"%string]
                              = []
                              /\ User.password u = EmptyString)).
Proof.
  exact (signInUser_needs_a_typed_password example_manager example_users
           [amina; omar; karim]
           ["amina"%string; "karim"%string; "pass3"%string]
           example_registered).
Defined.

(** X30. [addItineraryToUser] with a User logged in and a well-formed
    Itinerary: the User behind [logged_user], which is also the User that
    [Users] leads to, gets a copy of the Itinerary after the ones it has; the
    other Users and the cells in use are unchanged, and the store of
    reservations grows by two disjoint copies of which the User holds one.
    With no User logged in, nothing changes. *)
Theorem addItineraryToUser_changes_the_logged_user :
  forall (fuel : nat) (this : UserManager.t) (us : UserManager.users)
         (h : heap) (it : loc) (ss : list state) (fp : gset loc),
    owns h it (SItinerary ss) fp ->
    (depth (SItinerary ss) < fuel)%nat ->
    (forall l, UserManager.logged_user this = Some l -> is_Some (us !! l)) ->
    match UserManager.logged_user this with
    | None =>
        UserManager.addItineraryToUser fuel this us (Some it) h = Val (us, h)
    | Some l =>
        exists u q c fq fc h',
          us !! l = Some u
          /\ UserManager.addItineraryToUser fuel this us (Some it) h
             = Val (<[l := User.mk (User.username u) (User.password u)
                              (User.email u)
                              (User.Itineraries u ++ [Some q])]> us, h')
          /\ h ⊆ h'
          /\ owns h' q (SItinerary ss) fq
          /\ owns h' c (SItinerary ss) fc
          /\ fq ## dom h /\ fc ## dom h /\ fq ## fc
          /\ dom h' = dom h ∪ fc ∪ fq
    end.
Proof.
  intros fuel this us h it ss fp Ho Hd Hlogged.
  unfold UserManager.addItineraryToUser.
  destruct (UserManager.logged_user this) as [l|]; [|reflexivity].
  destruct (Hlogged l eq_refl) as [u Hu]. rewrite Hu.
  destruct (addItinerary_spec fuel u h it ss fp Ho Hd)
    as (q & c & fq & fc & h' & E & R).
  exists u, q, c, fq, fc, h'. split; [reflexivity|].
  split; [|exact R]. mred. rewrite E. reflexivity.
Qed.

Lemma addItineraryToUser_changes_the_logged_user_witness :
  exists u q c fq fc h',
    example_users !! 2%positive = Some u
    /\ UserManager.addItineraryToUser 3
         (UserManager.mk (Some 2%positive)
            (UserManager.Users example_manager))
         example_users (Some 8%positive) example_store
       = Val (<[2%positive := User.mk (User.username u) (User.password u)
                                (User.email u)
                                (User.Itineraries u ++ [Some q])]>
                example_users, h')
    /\ example_store ⊆ h'
    /\ owns h' q (SItinerary [example_turkish]) fq
    /\ owns h' c (SItinerary [example_turkish]) fc
    /\ fq ## dom example_store /\ fc ## dom example_store /\ fq ## fc
    /\ dom h' = dom example_store ∪ fc ∪ fq.
Proof.
  apply (addItineraryToUser_changes_the_logged_user 3
           (UserManager.mk (Some 2%positive)
              (UserManager.Users example_manager))
           example_users example_store 8%positive [example_turkish] _
           example_owns_itinerary).
  - simpl. lia.
  - intros l E. injection E as <-. eexists. reflexivity.
Defined.
